(** * VoiceForge: resolution, parsing, scoring and ranking engine

    A shallow embedding of the engine of the VoiceForge MCP server
    (index.ts and data/benchmarks.ts) and the properties of its
    specification.

    Modelling conventions.
    - A JavaScript string is a [string]: a sequence of 8-bit code units read
      as Latin-1.  On that range [toLowerCase] adds 32 to A-Z and to the
      accented capitals 192-214 and 216-222, and the regular-expression
      class \s (the same set that [trim] strips) is
      {9, 10, 11, 12, 13, 32, 160}.
    - A JavaScript number is an IEEE 754 double ([F64.number]): a zero, a
      finite number, an infinity or NaN.  Its arithmetic is the Standard
      Library's specification of binary64 ([SpecFloat]), in which every
      operation rounds to the nearest double, a tie to the even one.  The
      argument [max_results], which the code only floors and clamps, is
      an exact rational or an infinity.
    - [null] and [undefined] results are [None].
    - Object literals used as tables are association lists in insertion
      order, which is the order of [Object.keys] and [Object.entries]. *)

From Stdlib Require Import String Ascii List Bool Arith ZArith QArith Qround Qabs Qminmax Lia Lqa.
From Stdlib Require Import Sorting.Sorted Sorting.Permutation.
From Stdlib Require Import Floats.SpecFloat.
Import ListNotations.

Open Scope list_scope.
Open Scope string_scope.

(** ** JavaScript string primitives *)

Module Js.

Definition code (c : ascii) : nat := nat_of_ascii c.

Definition between (lo hi : nat) (c : ascii) : bool :=
  (lo <=? code c)%nat && (code c <=? hi)%nat.

(** The characters that [toLowerCase] changes: A-Z and the accented capitals
    of Latin-1 (192-222 without the multiplication sign 215). *)
Definition is_upper (c : ascii) : bool :=
  between 65 90 c || between 192 214 c || between 216 222 c.

(** The character class [a-z0-9]. *)
Definition is_alnum (c : ascii) : bool := between 97 122 c || between 48 57 c.

(** The character class \s, also the set stripped by [trim]. *)
Definition is_space (c : ascii) : bool :=
  between 9 13 c || (code c =? 32)%nat || (code c =? 160)%nat.

Definition lower_char (c : ascii) : ascii :=
  if is_upper c then ascii_of_nat (code c + 32) else c.

Fixpoint toLowerCase (s : string) : string :=
  match s with
  | EmptyString => EmptyString
  | String c s' => String (lower_char c) (toLowerCase s')
  end.

(** [s.replace(/[cls]+/g, by)]: every maximal run of characters of the class
    is replaced by one copy of [by].  [in_run] tells that the previous
    character belonged to the run being replaced. *)
Fixpoint replace_runs_from (cls : ascii -> bool) (by_ : string) (in_run : bool)
    (s : string) : string :=
  match s with
  | EmptyString => EmptyString
  | String c s' =>
      if cls c
      then (if in_run then replace_runs_from cls by_ true s'
            else by_ ++ replace_runs_from cls by_ true s')
      else String c (replace_runs_from cls by_ false s')
  end.

Definition replace_runs (cls : ascii -> bool) (by_ : string) (s : string) : string :=
  replace_runs_from cls by_ false s.

(** [s.replace(/[cls]/g, by)]: every character of the class is replaced. *)
Fixpoint replace_each (cls : ascii -> bool) (by_ : string) (s : string) : string :=
  match s with
  | EmptyString => EmptyString
  | String c s' =>
      if cls c then by_ ++ replace_each cls by_ s'
      else String c (replace_each cls by_ s')
  end.

Fixpoint trimStart (s : string) : string :=
  match s with
  | EmptyString => EmptyString
  | String c s' => if is_space c then trimStart s' else s
  end.

Fixpoint rev (s : string) : string :=
  match s with
  | EmptyString => EmptyString
  | String c s' => rev s' ++ String c EmptyString
  end.

Definition trimEnd (s : string) : string := rev (trimStart (rev s)).

Definition trim (s : string) : string := trimEnd (trimStart s).

(** [a.startsWith(b)] *)
Definition startsWith (a b : string) : bool := String.prefix b a.

(** [a.includes(b)] *)
Fixpoint includes (a b : string) : bool :=
  startsWith a b ||
  match a with
  | EmptyString => false
  | String _ a' => includes a' b
  end.

(** [s.slice(n)] for a non-negative [n] *)
Fixpoint slice_from (n : nat) (s : string) : string :=
  match n, s with
  | O, _ => s
  | S _, EmptyString => EmptyString
  | S k, String _ s' => slice_from k s'
  end.

(** [s.slice(0, n)] for a non-negative [n] *)
Fixpoint slice_to (n : nat) (s : string) : string :=
  match n, s with
  | O, _ => EmptyString
  | S _, EmptyString => EmptyString
  | S k, String c s' => String c (slice_to k s')
  end.

(** [parts.join(sep)] *)
Definition join (sep : string) (parts : list string) : string :=
  String.concat sep parts.

(** The truthiness of a string: only the empty string is falsy. *)
Definition truthy (s : string) : bool := negb (s =? "").

Fixpoint count_leading (cls : ascii -> bool) (s : string) : nat :=
  match s with
  | EmptyString => 0
  | String c s' => if cls c then S (count_leading cls s') else 0
  end.

(** [s.split(re)] for a regular expression without capture groups whose
    matches are never empty.  [m rest] is the length of the match of [re]
    anchored at the start of [rest], if there is one.  The loop follows the
    language definition: try the separator at each position [q]; on a match
    ending at [e] emit the text since the previous separator and resume at
    [e]; at the end emit the remaining text.  [skip] counts the characters
    of the separator still to step over, [cur] holds (reversed) the text
    since the previous separator. *)
Fixpoint split_from (m : string -> option nat) (s : string) (skip : nat)
    (cur : string) : list string :=
  match s with
  | EmptyString => [rev cur]
  | String c s' =>
      match skip with
      | S k => split_from m s' k cur
      | O =>
          match m s with
          | Some (S k) => rev cur :: split_from m s' k EmptyString
          | _ => split_from m s' 0 (String c cur)
          end
      end
  end.

Definition split (m : string -> option nat) (s : string) : list string :=
  split_from m s 0 EmptyString.

(** The separator /\s+/ *)
Definition match_spaces (s : string) : option nat :=
  match count_leading is_space s with
  | O => None
  | n => Some n
  end.

(** [[...new Set(l)]]: the distinct elements in order of first occurrence *)
Fixpoint unique (l : list string) : list string :=
  match l with
  | [] => []
  | x :: t => x :: filter (fun y => negb (y =? x)) (unique t)
  end.

Section Sort.
Context {A : Type}.

(** The comparator's result as [Array.prototype.sort] reads it: [Lt] for a
    negative number, [Gt] for a positive one, [Eq] for zero and for NaN. *)
Variable cmp : A -> A -> comparison.

Fixpoint insert (x : A) (l : list A) : list A :=
  match l with
  | [] => [x]
  | y :: l' =>
      match cmp x y with
      | Gt => y :: insert x l'
      | _ => x :: l
      end
  end.

(** [Array.prototype.sort] is a stable sort; with a consistent comparator
    its result is the stable sorted arrangement, computed here by
    insertion from the right. *)
Definition sort (l : list A) : list A := fold_right insert [] l.
End Sort.

End Js.

(** ** JavaScript numbers *)

Module F64.

Definition prec : Z := 53.
Definition emax : Z := 1024.

Definition number : Type := spec_float.

Definition NaN : number := S754_nan.

Definition add : number -> number -> number := SFadd prec emax.
Definition sub : number -> number -> number := SFsub prec emax.
Definition mul : number -> number -> number := SFmul prec emax.
Definition div : number -> number -> number := SFdiv prec emax.

(** [Math.abs] *)
Definition abs : number -> number := SFabs.

(** [a === b], [a < b] and [a <= b] on numbers: false when an operand is
    NaN; the two zeros are equal. *)
Definition eqb : number -> number -> bool := SFeqb.
Definition ltb : number -> number -> bool := SFltb.
Definition leb : number -> number -> bool := SFleb.

(** The order of two numbers; of NaN and any number, none. *)
Definition compare : number -> number -> option comparison := SFcompare.

Definition is_nan (x : number) : bool :=
  match x with
  | S754_nan => true
  | _ => false
  end.

(** The double an integer rounds to (itself up to 2^53). *)
Definition of_Z (n : Z) : number := binary_normalize prec emax n 0 false.

(** The double a decimal literal of the source denotes, the literal read
    as the fraction [n/d]: the nearest double, computed by one correctly
    rounded division of two integers that are doubles themselves (both
    below 2^53), or, when [d] is 1, by the rounding of [n]. *)
Definition lit (q : Q) : number := div (of_Z (Qnum q)) (of_Z (Zpos (Qden q))).

(** The exact value of a zero or finite double. *)
Definition to_Q (x : number) : option Q :=
  match x with
  | S754_zero _ => Some 0%Q
  | S754_finite s m e =>
      let v := match e with
               | Zneg p => (Zpos m # Pos.pow 2 p)%Q
               | _ => inject_Z (Zpos m * 2 ^ e)
               end in
      Some (if s then Qopp v else v)
  | _ => None
  end.

(** A well-formed double: a finite one has its mantissa and exponent in
    the one form binary64 stores (53 bits, or fewer at the least
    exponent). *)
Definition well_formed (x : number) : bool := valid_binary prec emax x.

(** The same double: the same bits, NaN apart. *)
Definition same (x y : number) : bool :=
  match x, y with
  | S754_zero s, S754_zero s' => Bool.eqb s s'
  | S754_infinity s, S754_infinity s' => Bool.eqb s s'
  | S754_finite s m e, S754_finite s' m' e' => Bool.eqb s s' && Pos.eqb m m' && Z.eqb e e'
  | _, _ => false
  end.

End F64.

Arguments F64.lit q%_Q.

(** ** Static catalogs (index.ts) *)

Definition MAX_RESULTS : Z := 10.
Definition MIN_PROVIDER_INPUT_LENGTH : nat := 3.
Definition MIN_LANGUAGE_PREFIX_LENGTH : nat := 3.

Definition LANGUAGE_ALIASES : list (string * list string) :=
  [ ("english", ["en"; "eng"; "american"; "us"; "gb"]);
    ("thai", ["th"; "thai"; "thai language"]);
    ("vietnamese", ["vi"; "viet"; "vietnamese"]);
    ("indonesian", ["id"; "ind"]);
    ("filipino", ["tl"; "filipino"; "tagalog"; "ph"]);
    ("japanese", ["ja"; "jp"; "nihongo"]);
    ("korean", ["ko"; "kr"; "hangul"; "korean"]);
    ("cantonese", ["zh-yue"; "cantonese"; "kantonees"; "cn-cant"]);
    ("mandarin", ["zh"; "zh-cn"; "zh-hans"; "mandarin"]);
    ("malay", ["ms"; "ms-my"; "malay"]) ].

Definition PROVIDER_ALIASES : list (string * list string) :=
  [ ("Deepgram", ["deepgram"; "deep gram"]);
    ("AssemblyAI", ["assemblyai"; "assembly ai"; "assembly"]);
    ("OpenAI", ["openai"; "open ai"; "open-ai"; "gpt"; "chatgpt"]);
    ("Speechmatics", ["speechmatics"; "speech-matics"; "speech matics"]);
    ("Google", ["google"; "gemini"]);
    ("Anthropic", ["anthropic"; "claude"; "claude ai"]);
    ("Groq", ["groq"; "llama"; "llama 4"; "llama-4"; "llama4"]);
    ("Cartesia", ["cartesia"; "cartes ia"]);
    ("ElevenLabs", ["elevenlabs"; "eleven labs"; "eleven"; "eleven-labs"]);
    ("PlayHT", ["playht"; "play ht"; "play-ht"]);
    ("Rime", ["rime"; "rime ai"]) ].

Definition ALL_PROVIDERS : list string := map fst PROVIDER_ALIASES.

Definition USE_CASE_ALIASES : list (string * list string) :=
  [ ("customer-support", ["customer support"; "support"; "cs"; "customer"]);
    ("sales", ["sale"; "sales"; "revenue"]);
    ("debt-collections",
       ["debt collection"; "collections"; "collection"; "collections team"]);
    ("scheduling", ["schedule"; "calendar"; "appointments"; "booking"]);
    ("healthcare-triage", ["healthcare"; "medical"; "triage"; "doctor"; "clinic"]);
    ("insurance-claims", ["claims"; "insurance"; "insurance claim"; "claims ops"]);
    ("lead-qualification", ["lead qualify"; "leads"; "qualification"; "lead"]);
    ("appointment-reminders", ["reminder"; "appointment"; "notification"; "nudge"]);
    ("banking-faq", ["banking"; "faq"; "finance"; "compliance"]);
    ("recruitment-screening",
       ["recruiting"; "recruitment"; "screening"; "hiring"; "interviews"]) ].

(** ** Text normalization *)

Definition normalizeTerm (value : string) : string :=
  Js.replace_runs Js.is_space " "
    (Js.trim
       (Js.replace_runs (fun c => negb (Js.is_alnum c)) " "
          (Js.toLowerCase value))).

Definition normalizeUseCase (use_case : string) : string :=
  Js.replace_runs Js.is_space "-" (normalizeTerm use_case).

Definition normalizeProviderInput (input : string) : string :=
  normalizeTerm input.

Definition normalizeModel (model : string) : string :=
  Js.replace_runs Js.is_space "-" (normalizeTerm model).

Definition modelMatches (modelA modelB : string) : bool :=
  normalizeModel modelA =? normalizeModel modelB.

(** ** Provider resolution *)

Record AliasCandidate := mkCandidate { provider : string; alias : string }.

Definition by_alias_length_desc (a b : AliasCandidate) : comparison :=
  (Z.of_nat (String.length (alias b)) - Z.of_nat (String.length (alias a)) ?= 0)%Z.

Definition PROVIDER_ALIAS_CATALOG : list AliasCandidate :=
  Js.sort by_alias_length_desc
    (flat_map
       (fun entry : string * list string =>
          let (provider, aliases) := entry in
          let allAliases :=
            filter Js.truthy
              (Js.unique (map normalizeProviderInput (provider :: aliases))) in
          map (fun alias => mkCandidate provider alias) allAliases)
       PROVIDER_ALIASES).

(** The body of the [for] loop of [resolveProviderMatch]. *)
Definition candidate_accepts (normalized : string) (candidate : AliasCandidate) : bool :=
  (alias candidate =? normalized)
  || Js.startsWith (alias candidate) normalized
  || Js.startsWith normalized (alias candidate ++ " ").

Fixpoint scan_catalog (normalized : string) (catalog : list AliasCandidate)
  : option AliasCandidate :=
  match catalog with
  | [] => None
  | candidate :: rest =>
      if (String.length (alias candidate) <? MIN_PROVIDER_INPUT_LENGTH)%nat
      then scan_catalog normalized rest
      else if candidate_accepts normalized candidate
           then Some candidate
           else scan_catalog normalized rest
  end.

(** The result [{ provider, matchedAlias }] is the accepted candidate. *)
Definition resolveProviderMatch (input : string) : option AliasCandidate :=
  let normalized := normalizeProviderInput input in
  if negb (Js.truthy normalized)
     || (String.length normalized <? MIN_PROVIDER_INPUT_LENGTH)%nat
  then None
  else scan_catalog normalized PROVIDER_ALIAS_CATALOG.

Definition resolveProvider (input : string) : option string :=
  match resolveProviderMatch input with
  | Some resolved => Some (provider resolved)
  | None => None
  end.

Definition makeProviderMatch (input provider_ : string) : bool :=
  match resolveProvider input with
  | None => false
  | Some normalizedInput => normalizeTerm normalizedInput =? normalizeTerm provider_
  end.

(** ** Benchmark data (data/benchmarks.ts) *)

Record BenchmarkEntry := mkEntry {
  stt : string;
  sttModel : string;
  llm : string;
  llmModel : string;
  tts : string;
  ttsModel : string;
  latencyMs : F64.number;
  quality : F64.number;
  costPerMin : F64.number;
  mos : option F64.number;
  languages : list string;
  notes : option string
}.

Definition BENCHMARK_DATA : list BenchmarkEntry :=
  [ mkEntry "Deepgram" "nova-3" "OpenAI" "gpt-4.1-mini" "Cartesia" "sonic-3"
      (F64.lit 168) (F64.lit 4.5) (F64.lit 0.007) (Some (F64.lit 4.3))
      ["Thai"; "English"; "Vietnamese"; "Indonesian"; "Japanese"; "Korean"]
      (Some "Best overall for APAC multilingual. Production-proven across enterprise deployments.");
    mkEntry "Deepgram" "nova-3" "Groq" "llama-4-maverick" "Cartesia" "sonic-3"
      (F64.lit 156) (F64.lit 4.2) (F64.lit 0.005) None
      ["Thai"; "English"]
      (Some "Lowest latency option. Groq inference is fast but quality slightly lower.");
    mkEntry "Deepgram" "nova-3" "OpenAI" "gpt-4.1" "ElevenLabs" "turbo_v2.5"
      (F64.lit 215) (F64.lit 4.5) (F64.lit 0.014) (Some (F64.lit 4.5))
      ["Thai"; "English"; "Japanese"]
      (Some "Highest naturalness. ElevenLabs excels for emotional/expressive voices.");
    mkEntry "AssemblyAI" "universal-3-pro" "OpenAI" "gpt-4.1-mini" "Cartesia" "sonic-3"
      (F64.lit 178) (F64.lit 4.4) (F64.lit 0.008) (Some (F64.lit 4.2))
      ["English"; "Vietnamese"; "Filipino"; "Cantonese"]
      (Some "Strong for Southeast Asian languages. AssemblyAI universal model handles accents well.");
    mkEntry "OpenAI" "gpt-4o-transcribe" "OpenAI" "gpt-4.1" "ElevenLabs" "eleven_v3"
      (F64.lit 287) (F64.lit 4.8) (F64.lit 0.022) (Some (F64.lit 4.8))
      ["English"; "Japanese"; "Korean"]
      (Some "Premium quality, highest cost. Best for high-stakes conversations (insurance, healthcare).");
    mkEntry "Speechmatics" "enhanced" "OpenAI" "gpt-4.1-mini" "Rime" "arcana-v3"
      (F64.lit 205) (F64.lit 4.2) (F64.lit 0.008) None
      ["Thai"; "English"; "Cantonese"]
      (Some "Speechmatics leads for Thai code-switching (94% vs Deepgram 71%).");
    mkEntry "Deepgram" "nova-3" "Google" "gemini-2.5-pro" "PlayHT" "play-3.0-mini"
      (F64.lit 268) (F64.lit 4.1) (F64.lit 0.008) (Some (F64.lit 4.1))
      ["English"; "Indonesian"; "Filipino"]
      (Some "Good balance for Indonesian/Filipino markets.");
    mkEntry "Google" "chirp-3" "Groq" "llama-4-maverick" "Cartesia" "sonic-3"
      (F64.lit 195) (F64.lit 4.0) (F64.lit 0.006) None
      ["English"; "Vietnamese"; "Japanese"; "Korean"]
      (Some "Budget option with decent quality. Good for high-volume, cost-sensitive deployments.");
    mkEntry "Deepgram" "nova-3" "ElevenLabs" "eleven-turbo" "ElevenLabs" "eleven_v3"
      (F64.lit 142) (F64.lit 4.1) (F64.lit 0.004) None
      ["Thai"; "English"; "Vietnamese"; "Indonesian"]
      (Some "ElevenLabs end-to-end. Lowest latency when using their full stack.");
    mkEntry "Deepgram" "nova-3" "Google" "gemini-2.5-flash" "Cartesia" "sonic-3"
      (F64.lit 148) (F64.lit 4.2) (F64.lit 0.004) None
      ["English"; "Thai"; "Vietnamese"; "Filipino"; "Indonesian"]
      (Some "Best cost-to-performance ratio. Gemini Flash is surprisingly good for voice agents.");
    mkEntry "Deepgram" "nova-3" "Anthropic" "claude-sonnet-4-5" "Cartesia" "sonic-3"
      (F64.lit 198) (F64.lit 4.6) (F64.lit 0.009) None
      ["English"; "Japanese"; "Korean"; "Thai"]
      (Some "Claude excels at nuanced conversations. Best for complex reasoning in voice agents.");
    mkEntry "AssemblyAI" "universal-3-pro" "ElevenLabs" "eleven-turbo" "ElevenLabs" "turbo_v2.5"
      (F64.lit 210) (F64.lit 4.0) (F64.lit 0.006) None
      ["English"; "Cantonese"; "Japanese"]
      (Some "Solid mid-range option for East Asian languages.") ].

Module ScoreWeights.
Record t := mk { latency : F64.number; quality : F64.number; cost : F64.number }.
End ScoreWeights.

(** The weight triple [{ latency: l, quality: q, cost: c }] of three
    literals. *)
Definition weights (l q c : Q) : ScoreWeights.t :=
  ScoreWeights.mk (F64.lit l) (F64.lit q) (F64.lit c).
Arguments weights (l q c)%_Q.

Definition USE_CASE_PRIORITIES : list (string * ScoreWeights.t) :=
  [ ("debt-collections", weights 80 60 70);
    ("sales", weights 70 80 50);
    ("customer-support", weights 60 90 60);
    ("scheduling", weights 90 40 80);
    ("insurance-claims", weights 50 95 40);
    ("lead-qualification", weights 75 75 55);
    ("appointment-reminders", weights 85 50 75);
    ("healthcare-triage", weights 55 95 45);
    ("banking-faq", weights 60 90 60);
    ("recruitment-screening", weights 65 85 50) ].

Definition SUPPORTED_LANGUAGES : list string :=
  [ "English"; "Thai"; "Vietnamese"; "Indonesian"; "Filipino";
    "Japanese"; "Korean"; "Cantonese"; "Mandarin"; "Malay" ].

Record ProviderInfo := mkInfo {
  url : string;
  models : list string;
  strengths : string
}.

Inductive ProviderCategory := cat_stt | cat_llm | cat_tts.

Definition PROVIDER_INFO (category : ProviderCategory) : list (string * ProviderInfo) :=
  match category with
  | cat_stt =>
      [ ("Deepgram", mkInfo "https://deepgram.com" ["nova-3"; "nova-2"]
                       "Fast, accurate, good multilingual");
        ("AssemblyAI", mkInfo "https://assemblyai.com" ["universal-3-pro"]
                       "Best for accented speech, speaker diarization");
        ("OpenAI", mkInfo "https://openai.com" ["gpt-4o-transcribe"; "whisper-large-v3"]
                       "Highest accuracy, slower");
        ("Speechmatics", mkInfo "https://speechmatics.com" ["enhanced"]
                       "Best for code-switching (Thai/English)");
        ("Google", mkInfo "https://cloud.google.com/speech-to-text" ["chirp-3"]
                       "Wide language coverage, competitive pricing") ]
  | cat_llm =>
      [ ("OpenAI", mkInfo "https://openai.com" ["gpt-4.1-mini"; "gpt-4.1"]
                       "Best general-purpose, reliable");
        ("Anthropic", mkInfo "https://anthropic.com" ["claude-sonnet-4-5"]
                       "Nuanced reasoning, safety, complex conversations");
        ("Google", mkInfo "https://ai.google.dev" ["gemini-2.5-flash"; "gemini-2.5-pro"]
                       "Fast, cost-effective, multilingual");
        ("Groq", mkInfo "https://groq.com" ["llama-4-maverick"]
                       "Ultra-low latency inference");
        ("ElevenLabs", mkInfo "https://elevenlabs.io" ["eleven-turbo"]
                       "Lowest latency in ElevenLabs stack") ]
  | cat_tts =>
      [ ("Cartesia", mkInfo "https://cartesia.ai" ["sonic-3"]
                       "Lowest TTFB, natural prosody, multilingual");
        ("ElevenLabs", mkInfo "https://elevenlabs.io" ["eleven_v3"; "turbo_v2.5"]
                       "Most natural, expressive, emotional range");
        ("PlayHT", mkInfo "https://play.ht" ["play-3.0-mini"]
                       "Good quality-to-cost ratio");
        ("Rime", mkInfo "https://rime.ai" ["arcana-v3"]
                       "Consistent quality, good for Asian languages") ]
  end.

Definition DEFAULT_WEIGHTS : ScoreWeights.t := weights 70 70 60.
Definition DATA_SOURCE_UPDATED_AT : string := "2026-02-15T00:00:00Z".

Inductive ToolOutputFormat := markdown | json.
Inductive ScaffoldFramework := livekit | nextjs.

Record CompatibilityPolicy := mkPolicy {
  policy_stt : list string;
  policy_llm : list string;
  policy_tts : list string
}.

Definition FRAMEWORK_COMPATIBILITY (framework : ScaffoldFramework) : CompatibilityPolicy :=
  match framework with
  | livekit => mkPolicy ["Deepgram"; "OpenAI"; "Google"]
                        ["OpenAI"; "Anthropic"; "Google"]
                        ["Cartesia"; "ElevenLabs"]
  | nextjs => mkPolicy [] [] ["ElevenLabs"]
  end.

(** ** Object property lookup *)

(** The own-property lookup of a table. *)
Fixpoint lookup {A : Type} (table : list (string * A)) (key : string) : option A :=
  match table with
  | [] => None
  | (k, v) :: rest => if k =? key then Some v else lookup rest key
  end.

(** The members every object literal inherits from [Object.prototype]. *)
Definition OBJECT_PROTOTYPE_KEYS : list string :=
  [ "constructor"; "hasOwnProperty"; "isPrototypeOf"; "propertyIsEnumerable";
    "toLocaleString"; "toString"; "valueOf"; "__proto__";
    "__defineGetter__"; "__defineSetter__"; "__lookupGetter__"; "__lookupSetter__" ].

(** [table[key]] where [key] is caller-controlled text: an own entry, a member
    inherited from [Object.prototype] (a truthy value that is no entry of the
    table), or [undefined]. *)
Inductive Property (A : Type) :=
  | Own (value : A)
  | Inherited
  | Undefined.
Arguments Own {A} value.
Arguments Inherited {A}.
Arguments Undefined {A}.

Definition get_property {A : Type} (table : list (string * A)) (key : string)
  : Property A :=
  match lookup table key with
  | Some v => Own v
  | None => if existsb (String.eqb key) OBJECT_PROTOTYPE_KEYS then Inherited else Undefined
  end.

Definition property_truthy {A : Type} (p : Property A) : bool :=
  match p with
  | Undefined => false
  | _ => true
  end.

(** ** Language resolution *)

(** [if (x)] on the result of [find] over strings. *)
Definition found (o : option string) : option string :=
  match o with
  | Some s => if Js.truthy s then Some s else None
  | None => None
  end.

Definition resolveLanguage (input : string) : option string :=
  let normalized := normalizeTerm input in
  if negb (Js.truthy normalized) then None
  else
    match found (find (fun lang => normalizeTerm lang =? normalized) SUPPORTED_LANGUAGES) with
    | Some direct => Some direct
    | None =>
        let canonical :=
          find (fun lang =>
                  match lookup LANGUAGE_ALIASES lang with
                  | Some aliases =>
                      existsb (fun alias => normalized =? normalizeTerm alias) aliases
                  | None => false
                  end)
               (map fst LANGUAGE_ALIASES) in
        match found canonical with
        | Some canonical =>
            match found (find (fun lang => normalizeTerm lang =? canonical)
                              SUPPORTED_LANGUAGES) with
            | Some lang => Some lang
            | None => Some canonical
            end
        | None =>
            if (MIN_LANGUAGE_PREFIX_LENGTH <=? String.length normalized)%nat
            then found (find (fun lang =>
                                Js.startsWith (normalizeTerm lang) normalized
                                || Js.startsWith normalized (normalizeTerm lang))
                             SUPPORTED_LANGUAGES)
            else None
        end
    end.

Definition getLanguageSuggestions (input : string) : list string :=
  let normalized := normalizeTerm input in
  if negb (Js.truthy normalized) then firstn 5 SUPPORTED_LANGUAGES
  else
    let exact :=
      filter (fun lang =>
                Js.includes (normalizeTerm lang) normalized
                || Js.includes normalized (normalizeTerm lang))
             SUPPORTED_LANGUAGES in
    let byAlias :=
      filter (fun lang =>
                existsb (fun alias => Js.includes (normalizeTerm alias) normalized)
                        (match lookup LANGUAGE_ALIASES (normalizeTerm lang) with
                         | Some aliases => aliases
                         | None => []
                         end))
             SUPPORTED_LANGUAGES in
    firstn 5 (Js.unique (exact ++ byAlias)%list).

(** ** Provider and model parsing *)

Record ParsedProviderModel := mkParsed {
  parsed_provider : string;
  parsed_model : option string
}.

Record ParsedCombo := mkCombo {
  combo_stt : ParsedProviderModel;
  combo_llm : ParsedProviderModel;
  combo_tts : ParsedProviderModel
}.

Definition parseProviderWithModel (input : string) : option ParsedProviderModel :=
  let normalized := normalizeProviderInput input in
  if negb (Js.truthy normalized) then None
  else
    match resolveProviderMatch input with
    | None => None
    | Some resolved =>
        let normalizedRemainder :=
          Js.trim (Js.slice_from (String.length (alias resolved)) normalized) in
        if negb (Js.truthy normalizedRemainder)
        then Some (mkParsed (provider resolved) None)
        else
          let originalTrimmed := Js.trim input in
          let aliasWords := List.length (Js.split Js.match_spaces (alias resolved)) in
          let inputWords := Js.split Js.match_spaces originalTrimmed in
          let originalModel := Js.trim (Js.join " " (skipn aliasWords inputWords)) in
          Some (mkParsed (provider resolved)
                  (Some (if Js.truthy originalModel then originalModel
                         else normalizedRemainder)))
    end.

Definition describeParsedCombo (combo : ParsedCombo) : string :=
  let stringifyPart (p : ParsedProviderModel) :=
    parsed_provider p ++
    match parsed_model p with
    | Some model => if Js.truthy model then " " ++ model else ""
    | None => ""
    end in
  stringifyPart (combo_stt combo) ++ " + " ++ stringifyPart (combo_llm combo)
    ++ " + " ++ stringifyPart (combo_tts combo).

(** The separator /\s*(?:\+|,|->)\s*/ anchored at the start of [s]: leading
    white space (all of it, a shorter run is followed by white space and not
    by a separator), one of "+" "," "->", and all the white space after. *)
Definition match_combo_separator (s : string) : option nat :=
  let lead := Js.count_leading Js.is_space s in
  match Js.slice_from lead s with
  | String "+" rest => Some (lead + 1 + Js.count_leading Js.is_space rest)%nat
  | String "," rest => Some (lead + 1 + Js.count_leading Js.is_space rest)%nat
  | String "-" (String ">" rest) =>
      Some (lead + 2 + Js.count_leading Js.is_space rest)%nat
  | _ => None
  end.

Definition combo_parts (desc : string) : list string :=
  filter Js.truthy (map Js.trim (Js.split match_combo_separator desc)).

Definition parseComboInput (desc : string) : option ParsedCombo :=
  match combo_parts desc with
  | [sttInput; llmInput; ttsInput] =>
      match parseProviderWithModel sttInput,
            parseProviderWithModel llmInput,
            parseProviderWithModel ttsInput with
      | Some stt, Some llm, Some tts => Some (mkCombo stt llm tts)
      | _, _, _ => None
      end
  | _ => None
  end.

Definition model_ok (parsed : ParsedProviderModel) (entryModel : string) : bool :=
  match parsed_model parsed with
  | None => true
  | Some model => negb (Js.truthy model) || modelMatches entryModel model
  end.

Definition parseComboMatches (combo : string)
  : option (ParsedCombo * list BenchmarkEntry) :=
  match parseComboInput combo with
  | None => None
  | Some parsed =>
      Some (parsed,
            filter (fun entry =>
                      makeProviderMatch (parsed_provider (combo_stt parsed)) (stt entry)
                      && model_ok (combo_stt parsed) (sttModel entry)
                      && makeProviderMatch (parsed_provider (combo_llm parsed)) (llm entry)
                      && model_ok (combo_llm parsed) (llmModel entry)
                      && makeProviderMatch (parsed_provider (combo_tts parsed)) (tts entry)
                      && model_ok (combo_tts parsed) (ttsModel entry))
                   BENCHMARK_DATA)
  end.

Definition getProviderModels (provider_ : string) (category : ProviderCategory)
  : list string :=
  match resolveProvider provider_ with
  | None => []
  | Some resolved =>
      match lookup (PROVIDER_INFO category) resolved with
      | Some info => models info
      | None => []
      end
  end.

Definition isModelKnown (provider_ : string) (category : ProviderCategory)
    (model : string) : bool :=
  existsb (fun knownModel => modelMatches knownModel model)
          (getProviderModels provider_ category).

Definition resolveProviderCategory (provider_ : string) (category : ProviderCategory)
  : option string :=
  match resolveProvider provider_ with
  | None => None
  | Some resolved =>
      match lookup (PROVIDER_INFO category) resolved with
      | Some _ => Some resolved
      | None => None
      end
  end.

(** ** Use-case resolution and weights *)

Definition resolveUseCase (input : string) : string :=
  let normalized := normalizeUseCase input in
  if property_truthy (get_property USE_CASE_PRIORITIES normalized) then normalized
  else
    let direct :=
      find (fun entry : string * list string =>
              let (useCase, aliases) := entry in
              (useCase =? normalized)
              || existsb (fun alias =>
                            let normalizedAlias := normalizeUseCase alias in
                            (normalizedAlias =? normalized)
                            || Js.startsWith normalizedAlias normalized
                            || Js.startsWith normalized normalizedAlias)
                         aliases)
           USE_CASE_ALIASES in
    match direct with
    | Some entry => fst entry
    | None => normalized
    end.

(** What [USE_CASE_PRIORITIES[key] || DEFAULT_WEIGHTS] evaluates to: a weight
    triple, or a member inherited from [Object.prototype], whose [latency],
    [quality] and [cost] are all [undefined]. *)
Inductive WeightsValue :=
  | Weights (w : ScoreWeights.t)
  | InheritedMember.

Definition getUseCaseWeights (use_case : string) : WeightsValue :=
  let normalizedUseCase := resolveUseCase use_case in
  match get_property USE_CASE_PRIORITIES normalizedUseCase with
  | Own w => Weights w
  | Inherited => InheritedMember
  | Undefined => Weights DEFAULT_WEIGHTS
  end.

Inductive Objective :=
  | optimize_balanced
  | optimize_latency
  | optimize_quality
  | optimize_cost.

Definition getObjectiveWeights (optimize_for : Objective) (use_case : string)
  : WeightsValue :=
  match optimize_for with
  | optimize_latency => Weights (weights 100 30 30)
  | optimize_quality => Weights (weights 30 100 30)
  | optimize_cost => Weights (weights 30 30 100)
  | optimize_balanced => getUseCaseWeights use_case
  end.

(** ** Scoring and ranking *)

(** [Math.max(a, b)]: NaN when an operand is NaN; of the two zeros the
    positive one. *)
Definition Math_max (a b : F64.number) : F64.number :=
  match F64.compare a b with
  | None => F64.NaN
  | Some Lt => b
  | Some Gt => a
  | Some Eq =>
      match a with
      | S754_zero true => b
      | _ => a
      end
  end.

(** [Math.round(x)]: the integer nearest to [x], computed exactly, a tie
    going upwards; a result of zero keeps the sign of [x]; a double
    without fractional bits, an infinity and NaN are returned as they
    are. *)
Definition Math_round (x : F64.number) : F64.number :=
  match x with
  | S754_finite s m (Zneg p) =>
      let n := ((2 * (if s then Zneg m else Zpos m) + 2 ^ Zpos p) / 2 ^ (Zpos p + 1))%Z in
      if (n =? 0)%Z then S754_zero s else F64.of_Z n
  | _ => x
  end.

(** [Math.round(x * 10) / 10] *)
Definition round_tenth (x : F64.number) : F64.number :=
  F64.div (Math_round (F64.mul x (F64.lit 10))) (F64.lit 10).

Definition scoreBenchmark (entry : BenchmarkEntry) (weights : WeightsValue)
  : F64.number :=
  match weights with
  | InheritedMember => F64.NaN
  | Weights w =>
      let latencyScore :=
        Math_max (F64.lit 0)
          (F64.sub (F64.lit 100)
             (F64.mul (F64.sub (latencyMs entry) (F64.lit 100)) (F64.lit 0.5))) in
      let qualityScore := F64.mul (F64.div (quality entry) (F64.lit 5)) (F64.lit 100) in
      let costScore :=
        Math_max (F64.lit 0)
          (F64.sub (F64.lit 100) (F64.mul (costPerMin entry) (F64.lit 5000))) in
      round_tenth
        (F64.div
           (F64.add
              (F64.add (F64.mul latencyScore (ScoreWeights.latency w))
                       (F64.mul qualityScore (ScoreWeights.quality w)))
              (F64.mul costScore (ScoreWeights.cost w)))
           (F64.add (F64.add (ScoreWeights.latency w) (ScoreWeights.quality w))
                    (ScoreWeights.cost w)))
  end.

(** A benchmark row extended with its score: [{ ...entry, score }]. *)
Record Ranked := mkRanked { row : BenchmarkEntry; score : F64.number }.

(** [a !== b] on numbers *)
Definition num_neq (a b : F64.number) : bool := negb (F64.eqb a b).

(** How [sort] reads the number a comparator returns: a negative number
    puts the first argument first, a positive one the second; zero and NaN
    leave the two as they are. *)
Definition sign (v : F64.number) : comparison :=
  match v with
  | S754_zero _ => Eq
  | S754_nan => Eq
  | S754_infinity s => if s then Lt else Gt
  | S754_finite s _ _ => if s then Lt else Gt
  end.

(** The comparator of [rankBenchmarks]. *)
Definition rank_compare (a b : Ranked) : F64.number :=
  if num_neq (score b) (score a) then F64.sub (score b) (score a)
  else if num_neq (latencyMs (row a)) (latencyMs (row b))
       then F64.sub (latencyMs (row a)) (latencyMs (row b))
  else if num_neq (quality (row b)) (quality (row a))
       then F64.sub (quality (row b)) (quality (row a))
  else F64.sub (costPerMin (row a)) (costPerMin (row b)).

Definition rankBenchmarks (entries : list BenchmarkEntry) (weights : WeightsValue)
  : list Ranked :=
  Js.sort (fun a b => sign (rank_compare a b))
          (map (fun entry => mkRanked entry (scoreBenchmark entry weights)) entries).

(** A number accepted by the schema [z.number()] of [max_results]: the schema
    rejects NaN before the handler runs. *)
Inductive SchemaNumber :=
  | NegInfinity
  | Finite (q : Q)
  | Infinity.

Definition clampMaxResults (value : SchemaNumber) : Z :=
  match value with
  | NegInfinity => 1
  | Finite q => Z.max 1 (Z.min (Qfloor q) MAX_RESULTS)
  | Infinity => Z.max 1 MAX_RESULTS
  end.

Definition has (set : list string) (x : string) : bool := existsb (String.eqb x) set.

Definition isScaffoldCompatible (entry : BenchmarkEntry) (framework : ScaffoldFramework)
  : bool :=
  let policy := FRAMEWORK_COMPATIBILITY framework in
  let sttOk := (List.length (policy_stt policy) =? 0)%nat || has (policy_stt policy) (stt entry) in
  let llmOk := (List.length (policy_llm policy) =? 0)%nat || has (policy_llm policy) (llm entry) in
  let ttsOk := has (policy_tts policy) (tts entry) in
  sttOk && llmOk && ttsOk.

Definition toSafeSlug (value : string) : string :=
  let normalized := normalizeTerm value in
  let dashed :=
    Js.replace_runs (fun c => (Js.code c =? 45)%nat) "-"
      (Js.replace_runs (fun c => negb (Js.is_alnum c)) "-" normalized) in
  let strip_leading (s : string) :=
    match s with
    | String "-" rest => rest
    | _ => s
    end in
  Js.slice_to 80 (Js.rev (strip_leading (Js.rev (strip_leading dashed)))).

(** [b.languages.some((l) => l.toLowerCase() === resolvedLanguage.toLowerCase())] *)
Definition supports_language (resolvedLanguage : string) (b : BenchmarkEntry) : bool :=
  existsb (fun l => Js.toLowerCase l =? Js.toLowerCase resolvedLanguage) (languages b).

(** ** Tool handlers *)

(** A handler either returns a response or throws. *)
Inductive Completion (A : Type) :=
  | Returns (a : A)
  | Throws (message : string).
Arguments Returns {A} a.
Arguments Throws {A} message.

(** Every return site of a handler builds a markdown text and a JSON payload
    from the same computed values and hands both to [formatToolResponse],
    which emits one of them.  A response is modelled by the rendering that
    was emitted and by the computed values of the return site (its status,
    reason and data); the characters of the text are not modelled. *)
Record ToolResponse (O : Type) := mkResponse {
  rendered_as : ToolOutputFormat;
  outcome : O
}.
Arguments mkResponse {O} rendered_as outcome.
Arguments rendered_as {O} t.
Arguments outcome {O} t.

Definition formatToolResponse {O : Type} (format : ToolOutputFormat) (computed : O)
  : ToolResponse O :=
  match format with
  | json => mkResponse json computed
  | markdown => mkResponse markdown computed
  end.

Inductive Status :=
  | status_ok
  | status_warning
  | status_error
  | status_fallback
  | status_absent.

Inductive SortKey := sort_latency | sort_quality | sort_cost.

Record Stack := mkStack {
  stack_stt : string; stack_stt_model : string;
  stack_llm : string; stack_llm_model : string;
  stack_tts : string; stack_tts_model : string
}.

Definition stack_of (entry : BenchmarkEntry) : Stack :=
  mkStack (stt entry) (sttModel entry) (llm entry) (llmModel entry)
          (tts entry) (ttsModel entry).

(** The template literal that [voiceforge_scaffold] compares to tell whether
    two rows are the same stack. *)
Definition stack_key (entry : BenchmarkEntry) : string :=
  stt entry ++ " " ++ sttModel entry ++ " " ++ llm entry ++ " " ++ llmModel entry
    ++ " " ++ tts entry ++ " " ++ ttsModel entry.

(** [`${a.stt} ${a.sttModel} → ...`], the arrow written in ASCII. *)
Definition stack_arrow (entry : BenchmarkEntry) : string :=
  stt entry ++ " " ++ sttModel entry ++ " -> " ++ llm entry ++ " " ++ llmModel entry
    ++ " -> " ++ tts entry ++ " " ++ ttsModel entry.

Record ScaffoldConfig := mkConfig {
  cfg_language : string;
  cfg_useCase : string;
  cfg_stt : string; cfg_sttModel : string;
  cfg_llm : string; cfg_llmModel : string;
  cfg_tts : string; cfg_ttsModel : string;
  cfg_agentName : string
}.

Record TemplateFile := mkFile { path : string; content : string }.

(** *** Outcomes, one constructor per return site *)

Inductive RecommendOutcome :=
  | RecommendUnrecognized (requested_language : string) (suggestions : list string)
  | RecommendNoBenchmarks (requested_language : string)
  | RecommendRanked (language use_case : string) (optimize_for : Objective)
      (top : list Ranked).

Record BenchmarkSummary := mkSummary {
  fastest : option BenchmarkEntry;
  best_quality : option BenchmarkEntry;
  cheapest : option BenchmarkEntry
}.

Inductive BenchmarkOutcome :=
  | BenchmarkUnsupportedLanguage (requested_language : string) (suggestions : list string)
  | BenchmarkUnsupportedProvider (requested_provider : string)
      (supported_providers : list string)
  | BenchmarkEmpty (language provider_filter : option string) (sort_by : SortKey)
  | BenchmarkRows (language provider_filter : option string) (sort_by : SortKey)
      (count : nat) (rows : list BenchmarkEntry) (summary : BenchmarkSummary).

Record Comparison := mkComparison {
  cmp_combo_a : string;
  cmp_combo_b : string;
  winner_latency : string;
  winner_quality : string;
  winner_cost : string;
  delta_latencyMs : F64.number;
  delta_quality : F64.number;
  delta_costPerMin : F64.number;
  langs_both : list string;
  langs_only_a : list string;
  langs_only_b : list string;
  requested_a : string;
  requested_b : string;
  candidates_a : nat;
  candidates_b : nat;
  ambiguity_a : bool;
  ambiguity_b : bool
}.

Inductive CompareOutcome :=
  | CompareUnparseable (missing : list string) (combo_a combo_b : string)
      (supported_providers : list string)
  | CompareNoMatch (combo_a combo_b : string) (matches_a matches_b : nat)
  | CompareUnresolved (combo_a combo_b : string) (count_a count_b : nat)
  | CompareOk (result : Comparison).

Record FallbackNotice := mkNotice {
  notice_top : Stack;
  notice_framework : ScaffoldFramework;
  notice_delta : F64.number
}.

Record Scaffold := mkScaffold {
  sc_agent_name : string;
  sc_framework : ScaffoldFramework;
  sc_language : string;
  sc_use_case : string;
  sc_stack : Stack;
  sc_files : list TemplateFile;
  sc_output_dir : string;
  sc_fallback_notice : option FallbackNotice;
  sc_latency_ms : F64.number;
  sc_quality : F64.number;
  sc_cost_per_min : F64.number
}.

Inductive ScaffoldOutcome :=
  | ScaffoldUnsupportedLanguage (requested_language : string) (suggestions : list string)
  | ScaffoldNoLanguageBenchmarks (language : string) (default_stack : Stack)
  | ScaffoldNoCompatibleStack (framework : ScaffoldFramework) (language : string)
  | ScaffoldTemplateFailed (error : string)
  | ScaffoldOk (result : Scaffold).

Record RequestedStack := mkRequested {
  rq_stt_provider : string; rq_stt_model : string;
  rq_llm_provider : string; rq_llm_model : string;
  rq_tts_provider : string; rq_tts_model : string
}.

Inductive ValidateOutcome :=
  | ValidateUnresolvedProvider (expected_stt expected_llm expected_tts : list string)
  | ValidateUnsupportedModel (unknown_models : list string)
      (requested_models : string * string * string)
      (supported_models : list string * list string * list string)
  | ValidateNoExactMatch (requested_stack : RequestedStack)
      (provider_combos : list string * list string * list string)
      (model_warnings : list string)
  | ValidateOk (matched_benchmark : BenchmarkEntry) (benchmark_matches : nat)
      (support_livekit support_nextjs : bool) (requested_stack : RequestedStack)
      (model_warnings : list string).

Record Health := mkHealth {
  h_timestamp : string;
  h_total_benchmarks : nat;
  h_data_snapshot : string;
  h_supported_use_cases : nat;
  h_supported_languages : nat;
  h_livekit_rows : nat;
  h_nextjs_rows : nat;
  h_fastest : option BenchmarkEntry;
  h_highest_quality : option BenchmarkEntry;
  h_cheapest : option BenchmarkEntry;
  h_coverage_by_language : list (string * nat);
  h_verbose : bool
}.

Inductive CategoryFilter := filter_all | filter_only (category : ProviderCategory).

Record ProviderDirectory := mkDirectory {
  dir_category : CategoryFilter;
  dir_providers : list (ProviderCategory * list (string * ProviderInfo));
  dir_total_stt : nat;
  dir_total_llm : nat;
  dir_total_tts : nat
}.

Record AgentConfig := mkAgentConfig {
  ac_agent_name : string;
  ac_use_case : string;
  ac_stt_provider : string; ac_stt_model : string;
  ac_llm_provider : string; ac_llm_model : string;
  ac_tts_provider : string; ac_tts_model : string;
  ac_language : string
}.

(** The values interpolated into the YAML text. *)
Record Yaml := mkYaml {
  y_generated_at : string;
  y_name : string;
  y_language : string;
  y_use_case : string;
  y_stt_provider : string; y_stt_model : string; y_stt_language : string;
  y_llm_provider : string; y_llm_model : string; y_prompt_use_case : string;
  y_tts_provider : string; y_tts_model : string
}.

Inductive ConfigOutcome :=
  | ConfigUnsupportedLanguage (requested_language : string) (suggestions : list string)
  | ConfigUnresolvedProvider (stt_ llm_ tts_ : option string)
  | ConfigGenerated (status : Status) (config : AgentConfig)
      (supported_models : list string * list string * list string)
      (unknown_models : bool * bool * bool) (yaml : Yaml).

Definition by_latency (a b : BenchmarkEntry) : comparison :=
  sign (F64.sub (latencyMs a) (latencyMs b)).
Definition by_quality_desc (a b : BenchmarkEntry) : comparison :=
  sign (F64.sub (quality b) (quality a)).
Definition by_cost (a b : BenchmarkEntry) : comparison :=
  sign (F64.sub (costPerMin a) (costPerMin b)).

(** [Number(x.toFixed(3))] for a non-negative [x] below 2^53 / 1000: the
    double nearest to [n / 1000] for the integer [n] nearest to [1000 x], a
    tie going upwards; an infinity and NaN are returned as they are. *)
Definition toFixed3 (x : F64.number) : F64.number :=
  match F64.to_Q x with
  | Some v => F64.lit (Qfloor (v * 1000 + (1 # 2)) # 1000)
  | None => x
  end.

Definition category_name (category : ProviderCategory) : string :=
  match category with
  | cat_stt => "stt"
  | cat_llm => "llm"
  | cat_tts => "tts"
  end.

(** The [providers] field of the payload of [voiceforge_providers], which is
    part of the rendering: the computed table, or under JSON with one
    category the rows of that category without the category key. *)
Definition providers_payload_field (output_format : ToolOutputFormat)
    (category : CategoryFilter)
    (payloadProviders : list (ProviderCategory * list (string * ProviderInfo)))
  : list (ProviderCategory * list (string * ProviderInfo))
    + option (list (string * ProviderInfo)) :=
  match output_format, category with
  | json, filter_only c =>
      inr (option_map snd
             (find (fun e => category_name (fst e) =? category_name c) payloadProviders))
  | _, _ => inl payloadProviders
  end.

(** The entries of [modelWarnings] of [voiceforge_validate] and the list
    [unknownModels] drawn from them. *)
Definition model_warning (provider_ : string) (category : ProviderCategory)
    (model : string) : bool :=
  (0 <? List.length (getProviderModels provider_ category))%nat
  && negb (isModelKnown provider_ category model).

Definition unknown_models (normalizedCombo : RequestedStack) : list string :=
  map fst
    (filter snd
       [ ("stt", model_warning (rq_stt_provider normalizedCombo) cat_stt
                   (rq_stt_model normalizedCombo));
         ("llm", model_warning (rq_llm_provider normalizedCombo) cat_llm
                   (rq_llm_model normalizedCombo));
         ("tts", model_warning (rq_tts_provider normalizedCombo) cat_tts
                   (rq_tts_model normalizedCombo)) ]).

(** [normalizedCombo] of [voiceforge_validate], once the providers resolved. *)
Definition normalized_combo (resolved_stt stt_model resolved_llm llm_model
    resolved_tts tts_model : string) : RequestedStack :=
  mkRequested resolved_stt (Js.toLowerCase (Js.trim stt_model))
              resolved_llm (Js.toLowerCase (Js.trim llm_model))
              resolved_tts (Js.toLowerCase (Js.trim tts_model)).

Inductive ValidateFramework := validate_all | validate_for (framework : ScaffoldFramework).

Section Handlers.

(** What the engine takes from its environment: the collation of
    [String.prototype.localeCompare], the template generators of
    data/templates.ts, which may throw, and the clock. *)
Variable localeCompare : string -> string -> comparison.
Variable getLiveKitAgentTemplate : ScaffoldConfig -> Completion (list TemplateFile).
Variable getNextJSTemplate : ScaffoldConfig -> Completion (list TemplateFile).
Variable now_iso : string.
Variable now_ms : string.

Definition listKnownProviders (category : option ProviderCategory) : list string :=
  let providers :=
    match category with
    | Some c => map fst (PROVIDER_INFO c)
    | None => ALL_PROVIDERS
    end in
  Js.sort localeCompare providers.

Definition voiceforge_recommend (language use_case : string) (optimize_for : Objective)
    (max_results : SchemaNumber) (output_format : ToolOutputFormat)
  : Completion (ToolResponse RecommendOutcome) :=
  let resolvedLanguage := resolveLanguage language in
  let resolvedUseCase := resolveUseCase use_case in
  match found resolvedLanguage with
  | None =>
      Returns (mkResponse markdown
                 (RecommendUnrecognized language (getLanguageSuggestions language)))
  | Some resolvedLanguage =>
      let matching := filter (supports_language resolvedLanguage) BENCHMARK_DATA in
      if (List.length matching =? 0)%nat
      then Returns (mkResponse markdown (RecommendNoBenchmarks language))
      else
        let resultLimit := clampMaxResults max_results in
        let weights := getObjectiveWeights optimize_for resolvedUseCase in
        let top := firstn (Z.to_nat resultLimit) (rankBenchmarks matching weights) in
        match output_format with
        | json =>
            Returns (mkResponse json
                       (RecommendRanked resolvedLanguage resolvedUseCase optimize_for top))
        | markdown =>
            (* const best = top[0]; the lines that follow read best.stt ... *)
            match nth_error top 0 with
            | None => Throws "TypeError"
            | Some best =>
                Returns (mkResponse markdown
                           (RecommendRanked resolvedLanguage resolvedUseCase
                              optimize_for top))
            end
        end
  end.

Definition voiceforge_benchmark (language provider_ : option string) (sort_by : SortKey)
    (output_format : ToolOutputFormat)
  : Completion (ToolResponse BenchmarkOutcome) :=
  let resolvedLanguage :=
    match found language with
    | Some l => resolveLanguage l
    | None => None
    end in
  let resolvedProvider :=
    match found provider_ with
    | Some p => resolveProvider p
    | None => None
    end in
  match found language, found resolvedLanguage with
  | Some requested, None =>
      let suggestions := getLanguageSuggestions requested in
      Returns (formatToolResponse output_format
                 (BenchmarkUnsupportedLanguage requested suggestions))
  | _, _ =>
      match found provider_, found resolvedProvider with
      | Some requested, None =>
          Returns (formatToolResponse output_format
                     (BenchmarkUnsupportedProvider requested (listKnownProviders None)))
      | _, _ =>
          let results := BENCHMARK_DATA in
          (* Past the two early returns a given filter has resolved; the
             branches for an unresolved one are never taken. *)
          let results :=
            match found language, resolvedLanguage with
            | Some _, Some resolved => filter (supports_language resolved) results
            | Some _, None => []
            | None, _ => results
            end in
          let results :=
            match found provider_, resolvedProvider with
            | Some _, Some resolved =>
                filter (fun b =>
                          makeProviderMatch resolved (stt b)
                          || makeProviderMatch resolved (llm b)
                          || makeProviderMatch resolved (tts b))
                       results
            | Some _, None => []
            | None, _ => results
            end in
          if (List.length results =? 0)%nat
          then Returns (formatToolResponse output_format
                          (BenchmarkEmpty resolvedLanguage resolvedProvider sort_by))
          else
            let results :=
              match sort_by with
              | sort_latency => Js.sort by_latency results
              | sort_cost => Js.sort by_cost results
              | sort_quality => Js.sort by_quality_desc results
              end in
            let summary :=
              mkSummary (nth_error (Js.sort by_latency results) 0)
                        (nth_error (Js.sort by_quality_desc results) 0)
                        (nth_error (Js.sort by_cost results) 0) in
            Returns (formatToolResponse output_format
                       (BenchmarkRows resolvedLanguage resolvedProvider sort_by
                          (List.length results) results summary))
      end
  end.

Definition voiceforge_compare (combo_a combo_b : string)
    (output_format : ToolOutputFormat)
  : Completion (ToolResponse CompareOutcome) :=
  match parseComboMatches combo_a, parseComboMatches combo_b with
  | Some (parsedA, entriesA), Some (parsedB, entriesB) =>
      if (0 <? List.length
                 ((if (List.length entriesA =? 0)%nat then ["A"] else [])
                  ++ (if (List.length entriesB =? 0)%nat then ["B"] else []))%list)%nat
      then Returns (formatToolResponse output_format
                      (CompareNoMatch (describeParsedCombo parsedA)
                         (describeParsedCombo parsedB)
                         (List.length entriesA) (List.length entriesB)))
      else
        let rankedA := rankBenchmarks entriesA (Weights DEFAULT_WEIGHTS) in
        let rankedB := rankBenchmarks entriesB (Weights DEFAULT_WEIGHTS) in
        let ambiguityA := (1 <? List.length entriesA)%nat in
        let ambiguityB := (1 <? List.length entriesB)%nat in
        match nth_error rankedA 0, nth_error rankedB 0 with
        | Some ra, Some rb =>
            let a := row ra in
            let b := row rb in
            let has_lang (set : list string) (l : string) := existsb (String.eqb l) set in
            Returns (formatToolResponse output_format
              (CompareOk
                 (mkComparison
                    (stack_arrow a) (stack_arrow b)
                    (if F64.leb (latencyMs a) (latencyMs b) then "A" else "B")
                    (if F64.leb (quality b) (quality a) then "A" else "B")
                    (if F64.leb (costPerMin a) (costPerMin b) then "A" else "B")
                    (F64.abs (F64.sub (latencyMs a) (latencyMs b)))
                    (F64.abs (F64.sub (quality a) (quality b)))
                    (toFixed3 (F64.abs (F64.sub (costPerMin a) (costPerMin b))))
                    (filter (has_lang (languages b)) (languages a))
                    (filter (fun l => negb (has_lang (languages b) l)) (languages a))
                    (filter (fun l => negb (has_lang (languages a) l)) (languages b))
                    (describeParsedCombo parsedA) (describeParsedCombo parsedB)
                    (List.length entriesA) (List.length entriesB)
                    ambiguityA ambiguityB)))
        | _, _ =>
            Returns (formatToolResponse output_format
                       (CompareUnresolved (describeParsedCombo parsedA)
                          (describeParsedCombo parsedB)
                          (List.length entriesA) (List.length entriesB)))
        end
  | resolvedA, resolvedB =>
      let missing :=
        ((match resolvedA with None => ["A"] | Some _ => [] end)
         ++ (match resolvedB with None => ["B"] | Some _ => [] end))%list in
      Returns (formatToolResponse output_format
                 (CompareUnparseable missing combo_a combo_b (listKnownProviders None)))
  end.

Definition voiceforge_scaffold (language use_case : string)
    (framework : ScaffoldFramework) (agent_name output_dir : option string)
    (output_format : ToolOutputFormat)
  : Completion (ToolResponse ScaffoldOutcome) :=
  let resolvedLanguage := resolveLanguage language in
  let resolvedUseCase := resolveUseCase use_case in
  match found resolvedLanguage with
  | None =>
      let suggestions := getLanguageSuggestions language in
      Returns (formatToolResponse output_format
                 (ScaffoldUnsupportedLanguage language suggestions))
  | Some resolvedLanguage =>
      let matching := filter (supports_language resolvedLanguage) BENCHMARK_DATA in
      if (List.length matching =? 0)%nat
      then Returns (formatToolResponse output_format
                      (ScaffoldNoLanguageBenchmarks language
                         (mkStack "Deepgram" "nova-3" "OpenAI" "gpt-4.1-mini"
                                  "Cartesia" "sonic-3")))
      else
        let ranked := rankBenchmarks matching (getUseCaseWeights resolvedUseCase) in
        let scaffoldable :=
          filter (fun entry => isScaffoldCompatible (row entry) framework) ranked in
        if (List.length scaffoldable =? 0)%nat
        then Returns (formatToolResponse output_format
                        (ScaffoldNoCompatibleStack framework resolvedLanguage))
        else
          match nth_error ranked 0, nth_error scaffoldable 0 with
          | Some topPick, Some best =>
              let isSameStack := stack_key (row topPick) =? stack_key (row best) in
              let scoreDelta := F64.abs (F64.sub (score topPick) (score best)) in
              let fallbackNotice :=
                if negb isSameStack && F64.ltb (F64.lit 2) scoreDelta
                then Some (mkNotice (stack_of (row topPick)) framework scoreDelta)
                else None in
              let safeAgentName :=
                toSafeSlug
                  (match found agent_name with
                   | Some n => n
                   | None =>
                       Js.toLowerCase resolvedLanguage ++ "-" ++ resolvedUseCase ++ "-agent"
                   end) in
              let name :=
                if Js.truthy safeAgentName then safeAgentName
                else now_ms ++ "-voiceforge-agent" in
              let dir :=
                match found output_dir with
                | Some d => d
                | None => "./" ++ name
                end in
              let config :=
                mkConfig resolvedLanguage use_case
                  (stt (row best)) (sttModel (row best))
                  (llm (row best)) (llmModel (row best))
                  (tts (row best)) (ttsModel (row best)) name in
              match (match framework with
                     | livekit => getLiveKitAgentTemplate config
                     | nextjs => getNextJSTemplate config
                     end) with
              | Throws message =>
                  Returns (formatToolResponse output_format (ScaffoldTemplateFailed message))
              | Returns files =>
                  Returns (formatToolResponse output_format
                    (ScaffoldOk
                       (mkScaffold name framework resolvedLanguage resolvedUseCase
                          (stack_of (row best)) files dir fallbackNotice
                          (latencyMs (row best)) (quality (row best))
                          (costPerMin (row best)))))
              end
          | _, _ => Throws "TypeError"
          end
  end.

Definition voiceforge_validate
    (stt_provider stt_model llm_provider llm_model tts_provider tts_model : string)
    (framework : ValidateFramework) (output_format : ToolOutputFormat)
  : Completion (ToolResponse ValidateOutcome) :=
  match found (resolveProvider stt_provider),
        found (resolveProvider llm_provider),
        found (resolveProvider tts_provider) with
  | Some resolved_stt, Some resolved_llm, Some resolved_tts =>
      let normalizedCombo :=
        normalized_combo resolved_stt stt_model resolved_llm llm_model
                         resolved_tts tts_model in
      let hints_stt := getProviderModels (rq_stt_provider normalizedCombo) cat_stt in
      let hints_llm := getProviderModels (rq_llm_provider normalizedCombo) cat_llm in
      let hints_tts := getProviderModels (rq_tts_provider normalizedCombo) cat_tts in
      let unknownModels := unknown_models normalizedCombo in
      let early_warning :=
        if (0 <? List.length unknownModels)%nat
        then match output_format with
             | json =>
                 Some (formatToolResponse output_format
                         (ValidateUnsupportedModel unknownModels
                            (rq_stt_model normalizedCombo, rq_llm_model normalizedCombo,
                             rq_tts_model normalizedCombo)
                            (hints_stt, hints_llm, hints_tts)))
             | markdown => None
             end
        else None in
      match early_warning with
      | Some response => Returns response
      | None =>
          let matches :=
            filter (fun entry =>
                      makeProviderMatch (rq_stt_provider normalizedCombo) (stt entry)
                      && (Js.toLowerCase (sttModel entry) =? rq_stt_model normalizedCombo)
                      && makeProviderMatch (rq_llm_provider normalizedCombo) (llm entry)
                      && (Js.toLowerCase (llmModel entry) =? rq_llm_model normalizedCombo)
                      && makeProviderMatch (rq_tts_provider normalizedCombo) (tts entry)
                      && (Js.toLowerCase (ttsModel entry) =? rq_tts_model normalizedCombo))
                   BENCHMARK_DATA in
          if (List.length matches =? 0)%nat
          then
            let hint (field : BenchmarkEntry -> string) (category : ProviderCategory)
                     (wanted : string) :=
              filter (fun entryProvider =>
                        match resolveProviderCategory entryProvider category with
                        | Some resolved => resolved =? wanted
                        | None => false
                        end)
                     (Js.unique (map field BENCHMARK_DATA)) in
            Returns (formatToolResponse output_format
                       (ValidateNoExactMatch normalizedCombo
                          (hint stt cat_stt (rq_stt_provider normalizedCombo),
                           hint llm cat_llm (rq_llm_provider normalizedCombo),
                           hint tts cat_tts (rq_tts_provider normalizedCombo))
                          unknownModels))
          else
            let scored := rankBenchmarks matches (getUseCaseWeights "customer-support") in
            match nth_error scored 0 with
            | None => Throws "TypeError"
            | Some top =>
                let compatLiveKit := isScaffoldCompatible (row top) livekit in
                let compatNextjs := isScaffoldCompatible (row top) nextjs in
                Returns (formatToolResponse output_format
                           (ValidateOk (row top) (List.length matches)
                              compatLiveKit compatNextjs normalizedCombo unknownModels))
            end
      end
  | _, _, _ =>
      Returns (formatToolResponse output_format
                 (ValidateUnresolvedProvider (listKnownProviders (Some cat_stt))
                    (listKnownProviders (Some cat_llm))
                    (listKnownProviders (Some cat_tts))))
  end.

Definition voiceforge_health (verbose : bool) (output_format : ToolOutputFormat)
  : Completion (ToolResponse Health) :=
  let now := now_iso in
  let all := BENCHMARK_DATA in
  let byLanguage :=
    map (fun language =>
           (language,
            List.length
              (filter (fun entry =>
                         existsb (fun entryLanguage =>
                                    normalizeTerm entryLanguage =? normalizeTerm language)
                                 (languages entry))
                      all)))
        SUPPORTED_LANGUAGES in
  let livekitCount := List.length (filter (fun e => isScaffoldCompatible e livekit) all) in
  let nextjsCount := List.length (filter (fun e => isScaffoldCompatible e nextjs) all) in
  Returns (formatToolResponse output_format
             (mkHealth now (List.length all) DATA_SOURCE_UPDATED_AT
                (List.length USE_CASE_PRIORITIES) (List.length SUPPORTED_LANGUAGES)
                livekitCount nextjsCount
                (nth_error (Js.sort by_latency all) 0)
                (nth_error (Js.sort by_quality_desc all) 0)
                (nth_error (Js.sort by_cost all) 0)
                byLanguage verbose)).

Definition voiceforge_providers (category : CategoryFilter)
    (output_format : ToolOutputFormat)
  : Completion (ToolResponse ProviderDirectory) :=
  let wanted (c : ProviderCategory) :=
    match category with
    | filter_all => true
    | filter_only c' => category_name c' =? category_name c
    end in
  let payloadProviders :=
    map (fun c => (c, PROVIDER_INFO c)) (filter wanted [cat_stt; cat_llm; cat_tts]) in
  Returns (formatToolResponse output_format
             (mkDirectory category payloadProviders
                (List.length (PROVIDER_INFO cat_stt))
                (List.length (PROVIDER_INFO cat_llm))
                (List.length (PROVIDER_INFO cat_tts)))).

Definition voiceforge_config (agent_name : string)
    (stt_provider stt_model llm_provider llm_model tts_provider tts_model : string)
    (language use_case : string) (output_format : ToolOutputFormat)
  : Completion (ToolResponse ConfigOutcome) :=
  let resolvedLanguage := resolveLanguage language in
  let resolvedUseCase := resolveUseCase use_case in
  match found resolvedLanguage with
  | None =>
      let suggestions := getLanguageSuggestions language in
      Returns (formatToolResponse output_format
                 (ConfigUnsupportedLanguage language suggestions))
  | Some resolvedLanguage =>
      let resolved_stt := resolveProvider stt_provider in
      let resolved_llm := resolveProvider llm_provider in
      let resolved_tts := resolveProvider tts_provider in
      match found resolved_stt, found resolved_llm, found resolved_tts with
      | Some p_stt, Some p_llm, Some p_tts =>
          let hints_stt := getProviderModels p_stt cat_stt in
          let hints_llm := getProviderModels p_llm cat_llm in
          let hints_tts := getProviderModels p_tts cat_tts in
          let warn_stt :=
            (0 <? List.length hints_stt)%nat && negb (isModelKnown p_stt cat_stt stt_model) in
          let warn_llm :=
            (0 <? List.length hints_llm)%nat && negb (isModelKnown p_llm cat_llm llm_model) in
          let warn_tts :=
            (0 <? List.length hints_tts)%nat && negb (isModelKnown p_tts cat_tts tts_model) in
          let yaml :=
            mkYaml now_iso agent_name resolvedLanguage (resolveUseCase use_case)
              (Js.toLowerCase p_stt) stt_model
              (Js.slice_to 2 (Js.toLowerCase resolvedLanguage))
              (Js.toLowerCase p_llm) llm_model
              (Js.replace_runs_from (fun c => (Js.code c =? 45)%nat) " " false
                 resolvedUseCase)
              (Js.toLowerCase p_tts) tts_model in
          Returns (formatToolResponse output_format
                     (ConfigGenerated
                        (if warn_stt || warn_llm || warn_tts
                         then status_warning else status_ok)
                        (mkAgentConfig agent_name resolvedUseCase p_stt stt_model
                           p_llm llm_model p_tts tts_model resolvedLanguage)
                        (hints_stt, hints_llm, hints_tts)
                        (warn_stt, warn_llm, warn_tts) yaml))
      | _, _, _ =>
          Returns (formatToolResponse output_format
                     (ConfigUnresolvedProvider resolved_stt resolved_llm resolved_tts))
      end
  end.

End Handlers.

(** *** The [status] and [reason] fields of the payloads *)

Definition benchmark_status (o : BenchmarkOutcome) : Status :=
  match o with
  | BenchmarkUnsupportedLanguage _ _ => status_error
  | BenchmarkUnsupportedProvider _ _ => status_error
  | BenchmarkEmpty _ _ _ => status_ok
  | BenchmarkRows _ _ _ _ _ _ => status_ok
  end.

Definition benchmark_reason (o : BenchmarkOutcome) : option string :=
  match o with
  | BenchmarkUnsupportedLanguage _ _ => Some "unsupported-language"
  | BenchmarkUnsupportedProvider _ _ => Some "unsupported-provider"
  | BenchmarkEmpty _ _ _ => None
  | BenchmarkRows _ _ _ _ _ _ => None
  end.

Definition benchmark_suggestions (o : BenchmarkOutcome) : option (list string) :=
  match o with
  | BenchmarkUnsupportedLanguage _ suggestions => Some suggestions
  | _ => None
  end.

Definition validate_status (o : ValidateOutcome) : Status :=
  match o with
  | ValidateUnresolvedProvider _ _ _ => status_error
  | ValidateUnsupportedModel _ _ _ => status_warning
  | ValidateNoExactMatch _ _ _ => status_error
  | ValidateOk _ _ _ _ _ _ => status_ok
  end.

Definition validate_reason (o : ValidateOutcome) : option string :=
  match o with
  | ValidateUnresolvedProvider _ _ _ => Some "unresolved-provider"
  | ValidateUnsupportedModel _ _ _ => Some "unsupported-model"
  | ValidateNoExactMatch _ _ _ => Some "no-exact-match"
  | ValidateOk _ _ _ _ _ _ => None
  end.

(** *** The tools registered on the server *)

Inductive Operation :=
  | OpRecommend (language use_case : string) (optimize_for : Objective)
      (max_results : SchemaNumber)
  | OpBenchmark (language provider_ : option string) (sort_by : SortKey)
  | OpCompare (combo_a combo_b : string)
  | OpScaffold (language use_case : string) (framework : ScaffoldFramework)
      (agent_name output_dir : option string)
  | OpValidate (stt_provider stt_model llm_provider llm_model tts_provider
                tts_model : string) (framework : ValidateFramework)
  | OpHealth (verbose : bool)
  | OpProviders (category : CategoryFilter)
  | OpConfig (agent_name stt_provider stt_model llm_provider llm_model tts_provider
              tts_model language use_case : string).

Inductive Computed :=
  | computed_recommend (o : RecommendOutcome)
  | computed_benchmark (o : BenchmarkOutcome)
  | computed_compare (o : CompareOutcome)
  | computed_scaffold (o : ScaffoldOutcome)
  | computed_validate (o : ValidateOutcome)
  | computed_health (o : Health)
  | computed_providers (o : ProviderDirectory)
  | computed_config (o : ConfigOutcome).

(** What a call computed, whatever the rendering: the computed values of its
    return site, or the exception. *)
Definition computed_by {O : Type} (inj : O -> Computed)
    (c : Completion (ToolResponse O)) : Completion Computed :=
  match c with
  | Returns response => Returns (inj (outcome response))
  | Throws message => Throws message
  end.

Section Dispatch.

Variable localeCompare : string -> string -> comparison.
Variable getLiveKitAgentTemplate : ScaffoldConfig -> Completion (list TemplateFile).
Variable getNextJSTemplate : ScaffoldConfig -> Completion (list TemplateFile).
Variable now_iso : string.
Variable now_ms : string.

Definition run (op : Operation) (output_format : ToolOutputFormat)
  : Completion Computed :=
  match op with
  | OpRecommend language use_case optimize_for max_results =>
      computed_by computed_recommend
        (voiceforge_recommend language use_case optimize_for max_results output_format)
  | OpBenchmark language provider_ sort_by =>
      computed_by computed_benchmark
        (voiceforge_benchmark localeCompare language provider_ sort_by output_format)
  | OpCompare combo_a combo_b =>
      computed_by computed_compare
        (voiceforge_compare localeCompare combo_a combo_b output_format)
  | OpScaffold language use_case framework agent_name output_dir =>
      computed_by computed_scaffold
        (voiceforge_scaffold getLiveKitAgentTemplate getNextJSTemplate now_ms
           language use_case framework agent_name output_dir output_format)
  | OpValidate stt_provider stt_model llm_provider llm_model tts_provider tts_model
      framework =>
      computed_by computed_validate
        (voiceforge_validate localeCompare stt_provider stt_model llm_provider llm_model
           tts_provider tts_model framework output_format)
  | OpHealth verbose =>
      computed_by computed_health (voiceforge_health now_iso verbose output_format)
  | OpProviders category =>
      computed_by computed_providers (voiceforge_providers category output_format)
  | OpConfig agent_name stt_provider stt_model llm_provider llm_model tts_provider
      tts_model language use_case =>
      computed_by computed_config
        (voiceforge_config now_iso agent_name stt_provider stt_model llm_provider
           llm_model tts_provider tts_model language use_case output_format)
  end.

End Dispatch.

(** The model warnings a validate call raises; empty when a provider does not
    resolve (the call then stops before models are looked at). *)
Definition validate_warnings (stt_provider stt_model llm_provider llm_model
    tts_provider tts_model : string) : list string :=
  match found (resolveProvider stt_provider),
        found (resolveProvider llm_provider),
        found (resolveProvider tts_provider) with
  | Some resolved_stt, Some resolved_llm, Some resolved_tts =>
      unknown_models
        (normalized_combo resolved_stt stt_model resolved_llm llm_model
                          resolved_tts tts_model)
  | _, _, _ => []
  end.

(** ** The statements of the specification that the code is compared with *)

(** The matching rule of provider resolution in the words of the
    specification: the alias equals the normalized input, or is a prefix of
    it, or is followed in it by a space. *)
Definition accepts_as_specified (normalized : string) (candidate : AliasCandidate)
  : bool :=
  (alias candidate =? normalized)
  || String.prefix (alias candidate) normalized
  || String.prefix (alias candidate ++ " ") normalized.

Definition resolveProviderMatch_as_specified (input : string) : option AliasCandidate :=
  let normalized := normalizeProviderInput input in
  if (String.length normalized <? 3)%nat then None
  else find (accepts_as_specified normalized) PROVIDER_ALIAS_CATALOG.

(** The matching rule of the code, as a proposition. *)
Definition accepts (normalized alias_ : string) : Prop :=
  alias_ = normalized
  \/ (exists rest, alias_ = normalized ++ rest)
  \/ (exists rest, normalized = alias_ ++ " " ++ rest).

(** The score in the words of the specification, in exact arithmetic:
    the weighted mean of the three partial scores, rounded to one decimal
    place ([round10]; a tie goes upwards, as in [Math.round]). *)
Definition round10 (v : Q) : Q := inject_Z (Qfloor (v * 10 + (1 # 2))) / 10.

Definition score_as_specified (L Qu C wL wQ wC : Q) : Q :=
  round10
    ((Qminmax.Qmax 0 (100 - (L - 100) * 0.5) * wL
      + (Qu / 5) * 100 * wQ
      + Qminmax.Qmax 0 (100 - C * 5000) * wC)
     / (wL + wQ + wC)).

(** The latency, quality and cost of the rows of the catalog as the source
    writes them, in decimal. *)
Definition BENCHMARK_MEASURES : list (Q * Q * Q) :=
  [ (168, 4.5, 0.007); (156, 4.2, 0.005); (215, 4.5, 0.014); (178, 4.4, 0.008);
    (287, 4.8, 0.022); (205, 4.2, 0.008); (268, 4.1, 0.008); (195, 4.0, 0.006);
    (142, 4.1, 0.004); (148, 4.2, 0.004); (198, 4.6, 0.009); (210, 4.0, 0.006) ]%Q.

(** A number that can be ordered: a well-formed double other than NaN. *)
Definition ordered (x : F64.number) : bool :=
  F64.well_formed x && negb (F64.is_nan x).

(** A row whose four sort keys can be ordered. *)
Definition rankable (r : Ranked) : Prop :=
  ordered (score r) = true /\ ordered (latencyMs (row r)) = true
  /\ ordered (quality (row r)) = true /\ ordered (costPerMin (row r)) = true.

(** The ranking order: score descending, then latency ascending, then
    quality descending, then cost ascending. *)
Definition ranks_before (a b : Ranked) : Prop :=
  F64.ltb (score b) (score a) = true
  \/ (F64.eqb (score a) (score b) = true
      /\ (F64.ltb (latencyMs (row a)) (latencyMs (row b)) = true
          \/ (F64.eqb (latencyMs (row a)) (latencyMs (row b)) = true
              /\ (F64.ltb (quality (row b)) (quality (row a)) = true
                  \/ (F64.eqb (quality (row a)) (quality (row b)) = true
                      /\ F64.ltb (costPerMin (row a)) (costPerMin (row b)) = true))))).

Definition ranks_equal_b (a b : Ranked) : bool :=
  F64.eqb (score a) (score b)
  && F64.eqb (latencyMs (row a)) (latencyMs (row b))
  && F64.eqb (quality (row a)) (quality (row b))
  && F64.eqb (costPerMin (row a)) (costPerMin (row b)).

(** Two rows that the ranking order does not tell apart. *)
Definition ranks_equal (a b : Ranked) : Prop := ranks_equal_b a b = true.

(** Two distinct rows with the same latency, quality and cost. *)
Definition tied_row_a : BenchmarkEntry :=
  mkEntry "Deepgram" "nova-3" "OpenAI" "gpt-4.1" "Cartesia" "sonic-3"
    (F64.lit 150) (F64.lit 4) (F64.lit 0.01) None ["English"] None.

Definition tied_row_b : BenchmarkEntry :=
  mkEntry "Google" "chirp-3" "OpenAI" "gpt-4.1" "Cartesia" "sonic-3"
    (F64.lit 150) (F64.lit 4) (F64.lit 0.01) None ["English"] None.

(** The input names the language exactly: its normalized form is that of
    the language or that of one of the aliases of the language. *)
Definition names_language (normalized lang : string) : Prop :=
  normalizeTerm lang = normalized
  \/ exists canonical aliases alias_,
       In (canonical, aliases) LANGUAGE_ALIASES /\ In alias_ aliases
       /\ normalizeTerm alias_ = normalized /\ normalizeTerm lang = canonical.

(** The scores of two rows differ by more than [threshold]. *)
Definition score_gap_exceeds (a b : Ranked) (threshold : Q) : Prop :=
  F64.ltb (F64.lit threshold) (F64.abs (F64.sub (score a) (score b))) = true.

(** The status and reason of what a validate call computed. *)
Definition validate_result_status (c : Completion Computed) : option Status :=
  match c with
  | Returns (computed_validate o) => Some (validate_status o)
  | _ => None
  end.

Definition validate_result_reason (c : Completion Computed) : option string :=
  match c with
  | Returns (computed_validate o) => validate_reason o
  | _ => None
  end.

(** A template generator that produces no file, for closed examples. *)
Definition no_files (config : ScaffoldConfig) : Completion (list TemplateFile) :=
  Returns [].

(** ** Normal forms of normalized text *)

(** Words of [a-z0-9] separated by single [sep] characters, with no
    separator in front (when [after_sep]) and none at the end. *)
Fixpoint normal_from (sep : ascii) (after_sep : bool) (s : string) : bool :=
  match s with
  | EmptyString => negb after_sep
  | String c s' =>
      if Js.is_alnum c then normal_from sep false s'
      else if Ascii.eqb c sep then negb after_sep && normal_from sep true s'
      else false
  end.

Definition normal (sep : ascii) (s : string) : bool :=
  match s with
  | EmptyString => true
  | _ => normal_from sep true s
  end.

(** The same with a separator allowed at the end. *)
Fixpoint loose_from (sep : ascii) (after_sep : bool) (s : string) : bool :=
  match s with
  | EmptyString => true
  | String c s' =>
      if Js.is_alnum c then loose_from sep false s'
      else if Ascii.eqb c sep then negb after_sep && loose_from sep true s'
      else false
  end.

Fixpoint all_space (s : string) : bool :=
  match s with
  | EmptyString => true
  | String c s' => Js.is_space c && all_space s'
  end.

Fixpoint subst_char (from to : ascii) (s : string) : string :=
  match s with
  | EmptyString => EmptyString
  | String c s' => String (if Ascii.eqb c from then to else c) (subst_char from to s')
  end.

Fixpoint distinct (l : list string) : bool :=
  match l with
  | [] => true
  | x :: t => negb (existsb (String.eqb x) t) && distinct t
  end.

(** [a] does not come after [b] under the comparator [cmp]. *)
Definition not_after {A : Type} (cmp : A -> A -> comparison) (a b : A) : Prop :=
  cmp a b <> Gt.

(** The complement of [a-z0-9], the class replaced by [normalizeTerm]. *)
Definition not_alnum (c : ascii) : bool := negb (Js.is_alnum c).

(** ** The shape of a split combo string *)

(** [segments] joined by [separators], one between each two neighbours. *)
Fixpoint interleave (segments separators : list string) : string :=
  match segments, separators with
  | segment :: segments', separator :: separators' =>
      segment ++ separator ++ interleave segments' separators'
  | segment :: _, [] => segment
  | [], _ => EmptyString
  end.

(** A separator of a combo string: "+", "," or "->" with white space around. *)
Definition is_separator (t : string) : Prop :=
  exists before sep after,
    t = before ++ sep ++ after
    /\ all_space before = true /\ all_space after = true
    /\ (sep = "+" \/ sep = "," \/ sep = "->").

(** No "+", "," or "->" occurs in [segment]. *)
Definition free_of_separators (segment : string) : Prop :=
  forall pre post,
    segment <> pre ++ "+" ++ post
    /\ segment <> pre ++ "," ++ post
    /\ segment <> pre ++ "->" ++ post.

(** ** The order of numbers *)

(** The order of two numbers as a comparison; NaN compares [Eq] with every
    number. *)
Definition fcmp (x y : F64.number) : comparison :=
  match F64.compare x y with
  | Some c => c
  | None => Eq
  end.

(** A key whose lexicographic order is the order of the numbers other than
    NaN: the sign class, then the exponent and the mantissa, both negated
    for a negative number. *)
Definition order_key (x : F64.number) : Z * Z * Z :=
  match x with
  | S754_nan => (0, 0, 0)
  | S754_zero _ => (0, 0, 0)
  | S754_infinity s => (if s then -2 else 2, 0, 0)
  | S754_finite s m e => if s then (-1, - e, Zneg m) else (1, e, Zpos m)
  end%Z.

Definition lex3 (a b : Z * Z * Z) : comparison :=
  match (fst (fst a) ?= fst (fst b))%Z with
  | Eq =>
      match (snd (fst a) ?= snd (fst b))%Z with
      | Eq => (snd a ?= snd b)%Z
      | c => c
      end
  | c => c
  end.

(** Two comparisons in turn: the second decides where the first sees no
    difference. *)
Definition then_by {A : Type} (first second : A -> A -> comparison) (a b : A)
  : comparison :=
  match first a b with
  | Eq => second a b
  | c => c
  end.

(** [c] compares the elements of [P] as a total preorder does: comparing
    the other way round gives the opposite, "not after" is transitive, and
    elements that compare equal compare alike with every element. *)
Definition preorder {A : Type} (P : A -> Prop) (c : A -> A -> comparison) : Prop :=
  (forall a b, c b a = CompOpp (c a b))
  /\ (forall a b d, P a -> P b -> P d -> c a b <> Gt -> c b d <> Gt -> c a d <> Gt)
  /\ (forall a b d, P a -> P b -> P d -> c a b = Eq -> c a d = c b d).

(** The four sort keys of the ranking: score descending, latency
    ascending, quality descending, cost ascending. *)
Definition score_desc (a b : Ranked) : comparison := fcmp (score b) (score a).
Definition latency_asc (a b : Ranked) : comparison :=
  fcmp (latencyMs (row a)) (latencyMs (row b)).
Definition quality_desc (a b : Ranked) : comparison :=
  fcmp (quality (row b)) (quality (row a)).
Definition cost_asc (a b : Ranked) : comparison :=
  fcmp (costPerMin (row a)) (costPerMin (row b)).

Definition key_compare : Ranked -> Ranked -> comparison :=
  then_by score_desc (then_by latency_asc (then_by quality_desc cost_asc)).

(** ** Closed inputs for the scoring formula *)

(** A row and a weight triple, all six numbers exact in binary, whose exact
    weighted mean is 38.75, a tie between 38.7 and 38.8. *)
Definition tie_row : BenchmarkEntry :=
  mkEntry "Deepgram" "nova-3" "OpenAI" "gpt-4.1" "Cartesia" "sonic-3"
    (F64.lit 245) (F64.lit 2.875) (F64.lit 0.015625) None ["English"] None.

Definition tie_weights : ScoreWeights.t := weights 60 90 60.

(** The weight triples the engine scores with: the priorities of the use
    cases, the default and the triples of the three objectives. *)
Definition ENGINE_WEIGHTS : list ScoreWeights.t :=
  (DEFAULT_WEIGHTS :: weights 100 30 30 :: weights 30 100 30 :: weights 30 30 100
     :: map snd USE_CASE_PRIORITIES)%list.

(** The score of a catalog row under a weight triple is the double nearest
    to the score of the specification, computed from the decimals of the
    source. *)
Definition score_agrees (measured : BenchmarkEntry * (Q * Q * Q)) (w : ScoreWeights.t)
  : bool :=
  let '(entry, (L, Qu, C)) := measured in
  match F64.to_Q (ScoreWeights.latency w), F64.to_Q (ScoreWeights.quality w),
        F64.to_Q (ScoreWeights.cost w) with
  | Some wL, Some wQ, Some wC =>
      F64.same (scoreBenchmark entry (Weights w))
               (F64.lit (score_as_specified L Qu C wL wQ wC))
  | _, _, _ => false
  end.

(** The double [x] has exactly the value [q]. *)
Definition exactly (x : F64.number) (q : Q) : Prop :=
  exists v, F64.to_Q x = Some v /\ v == q.

(** The four sort keys of a row scored under a weight triple can be
    ordered. *)
Definition rankable_b (w : ScoreWeights.t) (entry : BenchmarkEntry) : bool :=
  ordered (scoreBenchmark entry (Weights w)) && ordered (latencyMs entry)
  && ordered (quality entry) && ordered (costPerMin entry).

(** ** Language names *)

(** The normalized input and the normalized name of the language begin
    alike: one is a prefix of the other. *)
Definition prefix_related (normalized lang : string) : bool :=
  Js.startsWith (normalizeTerm lang) normalized
  || Js.startsWith normalized (normalizeTerm lang).

(** [names_language] decided. *)
Definition names_language_b (normalized lang : string) : bool :=
  (normalizeTerm lang =? normalized)
  || existsb (fun entry : string * list string =>
                (normalizeTerm lang =? fst entry)
                && existsb (fun alias_ => normalizeTerm alias_ =? normalized) (snd entry))
             LANGUAGE_ALIASES.

(** ** Use cases *)

(** An entry of the alias table matches a normalized use case: its key is
    the use case, or one of its normalized aliases is the use case, starts
    with it or begins it. *)
Definition use_case_matches (normalized : string) (entry : string * list string)
  : bool :=
  (fst entry =? normalized)
  || existsb (fun alias_ =>
                (normalizeUseCase alias_ =? normalized)
                || Js.startsWith (normalizeUseCase alias_) normalized
                || Js.startsWith normalized (normalizeUseCase alias_))
             (snd entry).

(** ** Weights *)

(** A weight triple of three positive numbers. *)
Definition positive_weights (w : ScoreWeights.t) : bool :=
  F64.ltb (F64.lit 0) (ScoreWeights.latency w)
  && F64.ltb (F64.lit 0) (ScoreWeights.quality w)
  && F64.ltb (F64.lit 0) (ScoreWeights.cost w).

(** A score between 0 and 100. *)
Definition in_range (s : F64.number) : bool :=
  F64.leb (F64.lit 0) s && F64.leb s (F64.lit 100).

(** ** Rows of the handlers *)

(** The three measures of a row can be ordered. *)
Definition measures_ordered (entry : BenchmarkEntry) : bool :=
  ordered (latencyMs entry) && ordered (quality entry) && ordered (costPerMin entry).

(** A row passes the filters of [voiceforge_benchmark]: the language, when
    one is given, is among the languages of the row, and the provider, when
    one is given, is the STT, the LLM or the TTS provider of the row. *)
Definition passes_filters (language provider_ : option string) (entry : BenchmarkEntry)
  : bool :=
  match language with
  | Some l => has (languages entry) l
  | None => true
  end
  && match provider_ with
     | Some p => (stt entry =? p) || (llm entry =? p) || (tts entry =? p)
     | None => true
     end.

(** [a] may stand before [b] in a list sorted by [sort_by]: its latency or
    its cost is not greater, or its quality is not less. *)
Definition sorted_before (sort_by : SortKey) (a b : BenchmarkEntry) : bool :=
  match sort_by with
  | sort_latency => F64.leb (latencyMs a) (latencyMs b)
  | sort_quality => F64.leb (quality b) (quality a)
  | sort_cost => F64.leb (costPerMin a) (costPerMin b)
  end.

(** Two rows tie under the sort key. *)
Definition sort_tie (sort_by : SortKey) (a b : BenchmarkEntry) : bool :=
  match sort_by with
  | sort_latency => F64.eqb (latencyMs a) (latencyMs b)
  | sort_quality => F64.eqb (quality a) (quality b)
  | sort_cost => F64.eqb (costPerMin a) (costPerMin b)
  end.

(** A row with its score under a weight triple, as [rankBenchmarks] builds
    it. *)
Definition scored_with (weights : WeightsValue) (entry : BenchmarkEntry) : Ranked :=
  mkRanked entry (scoreBenchmark entry weights).

(** A row passes a parsed combo: its three providers are the providers of
    the combo and its models pass the models the combo names. *)
Definition combo_selects (parsed : ParsedCombo) (entry : BenchmarkEntry) : Prop :=
  (stt entry = parsed_provider (combo_stt parsed)
   /\ model_ok (combo_stt parsed) (sttModel entry) = true)
  /\ (llm entry = parsed_provider (combo_llm parsed)
      /\ model_ok (combo_llm parsed) (llmModel entry) = true)
  /\ (tts entry = parsed_provider (combo_tts parsed)
      /\ model_ok (combo_tts parsed) (ttsModel entry) = true).

(** * Facts about strings *)

Lemma prefix_iff (p s : string) :
  String.prefix p s = true <-> exists rest, s = p ++ rest.
Proof.
  revert s; induction p as [|c p IH]; intros s; simpl.
  - split; [intros _; now exists s | intros _; now destruct s].
  - destruct s as [|d s].
    + split; [discriminate | intros [rest H]; discriminate].
    + cbn [String.prefix]. destruct (ascii_dec c d) as [E|E].
      * rewrite IH. split; intros [rest H]; exists rest; [now subst | now injection H].
      * split; [discriminate | intros [rest H]; injection H; congruence].
Qed.

Lemma append_assoc (a b c : string) : (a ++ b) ++ c = a ++ (b ++ c).
Proof. induction a as [|x a IH]; simpl; [reflexivity | now rewrite IH]. Qed.

Lemma append_nil_r (a : string) : a ++ "" = a.
Proof. induction a as [|x a IH]; simpl; [reflexivity | now rewrite IH]. Qed.

Lemma eqb_iff (a b : string) : (a =? b) = true <-> a = b.
Proof. apply String.eqb_eq. Qed.

Lemma candidate_accepts_iff (normalized : string) (c : AliasCandidate) :
  candidate_accepts normalized c = true <-> accepts normalized (alias c).
Proof.
  unfold candidate_accepts, accepts, Js.startsWith.
  rewrite !orb_true_iff, eqb_iff, !prefix_iff.
  split.
  - intros [[H|H]|[rest H]]; auto.
    right; right. exists rest. now rewrite H, append_assoc.
  - intros [H|[H|[rest H]]]; auto.
    right. exists rest. now rewrite H, append_assoc.
Qed.

(** * Provider resolution *)

Lemma scan_catalog_some (normalized : string) (catalog : list AliasCandidate)
    (c : AliasCandidate) :
  Forall (fun d => (3 <= String.length (alias d))%nat) catalog ->
  scan_catalog normalized catalog = Some c <->
  exists pre post,
    catalog = (pre ++ c :: post)%list
    /\ accepts normalized (alias c)
    /\ forall d, In d pre -> ~ accepts normalized (alias d).
Proof.
  intros Hlen. induction Hlen as [|x l Hx Hl IH]; simpl.
  - split; [discriminate | intros (pre & post & H & _)]. now destruct pre.
  - assert (Hguard : (String.length (alias x) <? MIN_PROVIDER_INPUT_LENGTH)%nat = false)
      by (apply Nat.ltb_ge; exact Hx).
    rewrite Hguard.
    destruct (candidate_accepts normalized x) eqn:Hacc.
    + apply candidate_accepts_iff in Hacc. split.
      * intros [= <-]. exists [], l. repeat split; auto; intros d [].
      * intros (pre & post & H & Hc & Hpre). destruct pre as [|y pre]; simpl in H.
        -- now injection H as <- _.
        -- injection H as <- _. exfalso. apply (Hpre x); [now left | exact Hacc].
    + assert (Hno : ~ accepts normalized (alias x)).
      { intros H. apply candidate_accepts_iff in H. congruence. }
      rewrite IH. split.
      * intros (pre & post & H & Hc & Hpre). exists (x :: pre), post.
        repeat split; [simpl; now rewrite H | exact Hc |].
        intros d [<-|Hd]; auto.
      * intros (pre & post & H & Hc & Hpre). destruct pre as [|y pre]; simpl in H.
        -- injection H as -> _. contradiction.
        -- injection H as -> H. exists pre, post. repeat split; auto.
           intros d Hd. apply Hpre. now right.
Qed.

Lemma scan_catalog_none (normalized : string) (catalog : list AliasCandidate) :
  Forall (fun d => (3 <= String.length (alias d))%nat) catalog ->
  scan_catalog normalized catalog = None <->
  forall d, In d catalog -> ~ accepts normalized (alias d).
Proof.
  intros Hlen. induction Hlen as [|x l Hx Hl IH]; simpl.
  - split; [intros _ d [] | reflexivity].
  - assert (Hguard : (String.length (alias x) <? MIN_PROVIDER_INPUT_LENGTH)%nat = false)
      by (apply Nat.ltb_ge; exact Hx).
    rewrite Hguard.
    destruct (candidate_accepts normalized x) eqn:Hacc.
    + apply candidate_accepts_iff in Hacc. split; [discriminate |].
      intros H. exfalso. apply (H x); [now left | exact Hacc].
    + rewrite IH. split.
      * intros H d [<-|Hd]; [| now apply H].
        intros Hd. apply candidate_accepts_iff in Hd. congruence.
      * intros H d Hd. apply H. now right.
Qed.

Lemma catalog_aliases_long :
  Forall (fun d => (3 <= String.length (alias d))%nat) PROVIDER_ALIAS_CATALOG.
Proof.
  apply Forall_forall. intros d Hd.
  assert (H : forallb (fun d => (3 <=? String.length (alias d))%nat)
                PROVIDER_ALIAS_CATALOG = true) by (vm_compute; reflexivity).
  rewrite forallb_forall in H. apply Nat.leb_le. exact (H d Hd).
Qed.

(** * Facts about the stable sort *)

Section SortFacts.

Context {A : Type}.
Variable cmp : A -> A -> comparison.

Lemma insert_perm (x : A) (l : list A) : Permutation (Js.insert cmp x l) (x :: l).
Proof.
  induction l as [|y l IH]; simpl; [reflexivity |].
  destruct (cmp x y); try reflexivity.
  rewrite IH. apply perm_swap.
Qed.

Lemma sort_perm (l : list A) : Permutation (Js.sort cmp l) l.
Proof.
  induction l as [|x l IH]; simpl; [reflexivity |].
  unfold Js.sort in IH. rewrite insert_perm. now constructor.
Qed.

Lemma sort_length (l : list A) : List.length (Js.sort cmp l) = List.length l.
Proof. apply Permutation_length, sort_perm. Qed.

Lemma sort_in (l : list A) (x : A) : In x (Js.sort cmp l) <-> In x l.
Proof.
  split; apply Permutation_in; [apply sort_perm | symmetry; apply sort_perm].
Qed.

(** The comparator is consistent on the elements that satisfy [P]. *)
Variable P : A -> Prop.
Hypothesis cmp_total : forall a b, P a -> P b -> cmp a b = Gt -> cmp b a <> Gt.
Hypothesis cmp_trans :
  forall a b c, P a -> P b -> P c -> cmp a b <> Gt -> cmp b c <> Gt -> cmp a c <> Gt.

Lemma insert_sorted (x : A) (l : list A) :
  P x -> Forall P l -> StronglySorted (not_after cmp) l ->
  StronglySorted (not_after cmp) (Js.insert cmp x l).
Proof.
  intros Hx HP Hs. induction Hs as [|y l Hs IH Hy]; simpl.
  - repeat constructor.
  - inversion HP as [|? ? Py Pl]; subst.
    destruct (cmp x y) eqn:E.
    + constructor; [now constructor |].
      constructor; [unfold not_after; congruence |].
      rewrite Forall_forall in *. intros z Hz.
      apply (cmp_trans x y z); auto; [congruence | now apply Hy].
    + constructor; [now constructor |].
      constructor; [unfold not_after; congruence |].
      rewrite Forall_forall in *. intros z Hz.
      apply (cmp_trans x y z); auto; [congruence | now apply Hy].
    + constructor; [now apply IH |].
      eapply Permutation_Forall; [symmetry; apply insert_perm |].
      constructor; [now apply cmp_total | exact Hy].
Qed.

Lemma sort_sorted (l : list A) :
  Forall P l -> StronglySorted (not_after cmp) (Js.sort cmp l).
Proof.
  induction 1 as [|x l Hx Hl IH]; simpl; [constructor |].
  apply insert_sorted; auto.
  eapply Permutation_Forall; [symmetry; apply sort_perm | exact Hl].
Qed.

(** Stability: the elements of a class of mutually tied elements keep the
    order they had in the input. *)
Lemma insert_filter (f : A -> bool) (x : A) (l : list A) :
  (f x = true -> forall y, In y l -> f y = true -> cmp x y <> Gt) ->
  filter f (Js.insert cmp x l) = filter f (x :: l).
Proof.
  intros H. induction l as [|y l IH]; [reflexivity |].
  simpl Js.insert. destruct (cmp x y) eqn:E; try reflexivity.
  change (filter f (y :: Js.insert cmp x l))
    with (if f y then y :: filter f (Js.insert cmp x l) else filter f (Js.insert cmp x l)).
  rewrite IH by (intros Hx z Hz; apply H; auto; now right).
  simpl. destruct (f x) eqn:Fx; [| reflexivity].
  destruct (f y) eqn:Fy; [| reflexivity].
  exfalso. apply (H eq_refl y); auto. now left.
Qed.

Lemma sort_stable (f : A -> bool) (l : list A) :
  (forall x y, In x l -> In y l -> f x = true -> f y = true -> cmp x y <> Gt) ->
  filter f (Js.sort cmp l) = filter f l.
Proof.
  induction l as [|x l IH]; intros H; [reflexivity |].
  simpl Js.sort. fold (Js.sort cmp l).
  rewrite insert_filter.
  - simpl. rewrite IH; [reflexivity |].
    intros a b Ha Hb. apply H; now right.
  - intros Fx y Hy Fy. apply H; auto; [now left | right; now apply sort_in].
Qed.

End SortFacts.

Lemma StronglySorted_impl {A : Type} (R S : A -> A -> Prop) (l : list A) :
  (forall a b, R a b -> S a b) -> StronglySorted R l -> StronglySorted S l.
Proof.
  intros H. induction 1 as [|x l Hs IH Hx]; constructor; auto.
  eapply Forall_impl; [| exact Hx]. intros b. apply H.
Qed.

Lemma catalog_sorted :
  StronglySorted
    (fun a b => (String.length (alias b) <= String.length (alias a))%nat)
    PROVIDER_ALIAS_CATALOG.
Proof.
  unfold PROVIDER_ALIAS_CATALOG.
  eapply StronglySorted_impl;
    [| apply (sort_sorted by_alias_length_desc (fun _ => True))].
  - unfold not_after, by_alias_length_desc. intros a b H.
    destruct (Z.compare_spec
                (Z.of_nat (String.length (alias b)) - Z.of_nat (String.length (alias a))) 0);
      try lia. congruence.
  - unfold by_alias_length_desc. intros a b _ _ H.
    rewrite Z.compare_gt_iff in H. intros H'. rewrite Z.compare_gt_iff in H'. lia.
  - unfold by_alias_length_desc. intros a b c _ _ _ H1 H2 H3.
    rewrite Z.compare_gt_iff in *.
    destruct (Z.compare_spec
                (Z.of_nat (String.length (alias b)) - Z.of_nat (String.length (alias a))) 0);
    destruct (Z.compare_spec
                (Z.of_nat (String.length (alias c)) - Z.of_nat (String.length (alias b))) 0);
      try lia; congruence.
  - apply Forall_forall. auto.
Qed.

(** * Normal forms of normalized text *)

Lemma alnum_not_space (c : ascii) : Js.is_alnum c = true -> Js.is_space c = false.
Proof.
  destruct c as [[] [] [] [] [] [] [] []]; vm_compute; congruence.
Qed.

Lemma alnum_lower (c : ascii) : Js.is_alnum c = true -> Js.lower_char c = c.
Proof.
  destruct c as [[] [] [] [] [] [] [] []]; vm_compute; congruence.
Qed.

Lemma rev_append (a b : string) : Js.rev (a ++ b) = Js.rev b ++ Js.rev a.
Proof.
  induction a as [|c a IH]; simpl.
  - now rewrite append_nil_r.
  - now rewrite IH, append_assoc.
Qed.

Lemma rev_involutive (s : string) : Js.rev (Js.rev s) = s.
Proof.
  induction s as [|c s IH]; simpl; [reflexivity |].
  now rewrite rev_append, IH.
Qed.

Lemma all_space_append (a b : string) :
  all_space (a ++ b) = all_space a && all_space b.
Proof.
  induction a as [|c a IH]; simpl; [reflexivity |].
  now rewrite IH, andb_assoc.
Qed.

Lemma all_space_rev (s : string) : all_space (Js.rev s) = all_space s.
Proof.
  induction s as [|c s IH]; simpl; [reflexivity |].
  rewrite all_space_append, IH. simpl. rewrite andb_true_r. apply andb_comm.
Qed.

Lemma trimStart_append (a b : string) :
  Js.trimStart (a ++ b) = if all_space a then Js.trimStart b else Js.trimStart a ++ b.
Proof.
  induction a as [|c a IH]; simpl; [reflexivity |].
  destruct (Js.is_space c); simpl; [exact IH | reflexivity].
Qed.

Lemma trimStart_all_space (s : string) : all_space s = true -> Js.trimStart s = "".
Proof.
  induction s as [|c s IH]; simpl; [reflexivity |].
  destruct (Js.is_space c); simpl; [exact IH | discriminate].
Qed.

(** [trimEnd] by recursion from the front. *)
Lemma trimEnd_cons (c : ascii) (s : string) :
  Js.trimEnd (String c s)
  = if all_space (String c s) then "" else String c (Js.trimEnd s).
Proof.
  unfold Js.trimEnd. simpl Js.rev. rewrite trimStart_append, all_space_rev.
  simpl all_space. destruct (all_space s) eqn:Es.
  - rewrite andb_true_r. simpl. destruct (Js.is_space c); [reflexivity |].
    simpl. rewrite trimStart_all_space by (now rewrite all_space_rev). reflexivity.
  - rewrite andb_false_r. rewrite rev_append. reflexivity.
Qed.

Lemma trimEnd_nil : Js.trimEnd "" = "".
Proof. reflexivity. Qed.

Section Normal.

Variable sep : ascii.
Hypothesis sep_not_alnum : Js.is_alnum sep = false.

Lemma normal_from_loose (b : bool) (s : string) :
  normal_from sep b s = true -> loose_from sep b s = true.
Proof.
  revert b. induction s as [|c s IH]; intros b; simpl; [reflexivity |].
  destruct (Js.is_alnum c); [apply IH |].
  destruct (Ascii.eqb c sep); [| discriminate].
  rewrite !andb_true_iff. intros [H1 H2]. split; [exact H1 | now apply IH].
Qed.

(** Replacing the runs of a class that holds the separator and no
    character of [a-z0-9] maps a normal form to the same text with the
    separator replaced. *)
Lemma replace_runs_normal (cls : ascii -> bool) (to : ascii) (b : bool) (s : string) :
  cls sep = true ->
  (forall c, Js.is_alnum c = true -> cls c = false) ->
  loose_from sep b s = true ->
  Js.replace_runs_from cls (String to "") b s = subst_char sep to s.
Proof.
  intros Hsep Halnum. revert b. induction s as [|c s IH]; intros b; simpl; [reflexivity |].
  destruct (Js.is_alnum c) eqn:Ec.
  - rewrite (Halnum c Ec).
    assert (E : Ascii.eqb c sep = false).
    { apply Ascii.eqb_neq. intros ->. congruence. }
    rewrite E. intros H. now rewrite IH.
  - destruct (Ascii.eqb c sep) eqn:E; [| discriminate].
    apply Ascii.eqb_eq in E. subst c. rewrite Hsep.
    rewrite andb_true_iff, negb_true_iff. intros [-> H]. simpl. now rewrite IH.
Qed.

Lemma normal_subst (to : ascii) (b : bool) (s : string) :
  Js.is_alnum to = false ->
  normal_from sep b s = true -> normal_from to b (subst_char sep to s) = true.
Proof.
  intros Hto. revert b. induction s as [|c s IH]; intros b; simpl; [auto |].
  destruct (Js.is_alnum c) eqn:Ec.
  - assert (E : Ascii.eqb c sep = false).
    { apply Ascii.eqb_neq. intros ->. congruence. }
    rewrite E, Ec. apply IH.
  - destruct (Ascii.eqb c sep) eqn:E; [| discriminate].
    rewrite Hto, Ascii.eqb_refl.
    rewrite !andb_true_iff. intros [H1 H2]. split; [exact H1 | now apply IH].
Qed.

Lemma subst_back (to : ascii) (b : bool) (s : string) :
  Js.is_alnum to = false ->
  normal_from sep b s = true -> subst_char to sep (subst_char sep to s) = s.
Proof.
  intros Hto. revert b. induction s as [|c s IH]; intros b; simpl; [reflexivity |].
  destruct (Js.is_alnum c) eqn:Ec.
  - assert (E : Ascii.eqb c sep = false).
    { apply Ascii.eqb_neq. intros ->. congruence. }
    assert (E' : Ascii.eqb c to = false).
    { apply Ascii.eqb_neq. intros ->. congruence. }
    rewrite E, E'. intros H. now rewrite (IH false).
  - destruct (Ascii.eqb c sep) eqn:E; [| discriminate].
    apply Ascii.eqb_eq in E. subst c. rewrite Ascii.eqb_refl.
    rewrite andb_true_iff. intros [_ H]. now rewrite (IH true).
Qed.

Lemma replace_runs_top (cls : ascii -> bool) (to : ascii) (s : string) :
  cls sep = true ->
  (forall c, Js.is_alnum c = true -> cls c = false) ->
  normal_from sep true s = true ->
  Js.replace_runs cls (String to "") s = subst_char sep to s.
Proof.
  intros Hsep Halnum. unfold Js.replace_runs.
  destruct s as [|c s]; simpl; [reflexivity |].
  destruct (Js.is_alnum c) eqn:Ec.
  - rewrite (Halnum c Ec).
    assert (E : Ascii.eqb c sep = false).
    { apply Ascii.eqb_neq. intros ->. congruence. }
    rewrite E. intros H.
    rewrite (replace_runs_normal cls to false s Hsep Halnum); [reflexivity |].
    now apply normal_from_loose.
  - destruct (Ascii.eqb c sep); discriminate.
Qed.

End Normal.

Lemma replace_nonalnum_loose (b : bool) (s : string) :
  loose_from " " b (Js.replace_runs_from not_alnum " " b s) = true.
Proof.
  revert b. induction s as [|c s IH]; intros b; simpl; [reflexivity |].
  unfold not_alnum at 1. destruct (Js.is_alnum c) eqn:Ec; simpl.
  - rewrite Ec. apply IH.
  - destruct b; simpl; [apply IH | apply IH].
Qed.

Lemma trimStart_loose (s : string) :
  loose_from " " false s = true -> loose_from " " true (Js.trimStart s) = true.
Proof.
  destruct s as [|c s]; simpl; [reflexivity |].
  destruct (Js.is_alnum c) eqn:Ec.
  - rewrite (alnum_not_space c Ec). simpl. now rewrite Ec.
  - destruct (Ascii.eqb c " ") eqn:E; [| discriminate].
    apply Ascii.eqb_eq in E. subst c. simpl.
    destruct s as [|d s]; simpl; [reflexivity |].
    destruct (Js.is_alnum d) eqn:Ed.
    + rewrite (alnum_not_space d Ed). simpl. now rewrite Ed.
    + destruct (Ascii.eqb d " "); discriminate.
Qed.

Lemma trimEnd_empty_iff (s : string) : Js.trimEnd s = "" <-> all_space s = true.
Proof.
  induction s as [|c s IH]; [split; reflexivity |].
  rewrite trimEnd_cons. destruct (all_space (String c s)); split; auto; discriminate.
Qed.

Lemma loose_all_space (b : bool) (s : string) :
  loose_from " " b s = true -> all_space s = true -> s = "" \/ (b = false /\ s = " ").
Proof.
  destruct s as [|c s]; simpl; [now left |].
  destruct (Js.is_alnum c) eqn:Ec.
  - rewrite (alnum_not_space c Ec). discriminate.
  - destruct (Ascii.eqb c " ") eqn:E; [| discriminate].
    apply Ascii.eqb_eq in E. subst c.
    rewrite andb_true_iff, negb_true_iff. intros [-> H] Hs. right. split; [reflexivity |].
    simpl in Hs. destruct s as [|d s]; [reflexivity |]. simpl in H, Hs.
    destruct (Js.is_alnum d) eqn:Ed.
    + rewrite (alnum_not_space d Ed) in Hs. discriminate.
    + destruct (Ascii.eqb d " "); discriminate.
Qed.

Lemma trimEnd_loose (b : bool) (s : string) :
  loose_from " " b s = true ->
  Js.trimEnd s = "" \/ normal_from " " b (Js.trimEnd s) = true.
Proof.
  revert b. induction s as [|c s IH]; intros b H; [now left |].
  rewrite trimEnd_cons. destruct (all_space (String c s)) eqn:Es; [now left |].
  right. simpl in H |- *.
  destruct (Js.is_alnum c) eqn:Ec.
  - destruct (IH false H) as [E|E]; [now rewrite E | exact E].
  - destruct (Ascii.eqb c " ") eqn:E; [| discriminate].
    apply andb_true_iff in H as [Hb H]. rewrite Hb. simpl.
    destruct (IH true H) as [E'|E']; [| exact E'].
    apply trimEnd_empty_iff in E'. apply Ascii.eqb_eq in E. subst c.
    simpl in Es. rewrite E' in Es. discriminate.
Qed.

Lemma normal_from_nonempty (sep : ascii) (s : string) :
  normal_from sep true s = true -> s <> "".
Proof. destruct s; [discriminate | discriminate]. Qed.

Lemma normal_not_all_space (b : bool) (s : string) :
  normal_from " " b s = true -> s <> "" -> all_space s = false.
Proof.
  revert b. induction s as [|c s IH]; intros b H Hne; [congruence |].
  simpl in H |- *. destruct (Js.is_alnum c) eqn:Ec.
  - now rewrite (alnum_not_space c Ec).
  - destruct (Ascii.eqb c " ") eqn:E; [| discriminate].
    apply andb_true_iff in H as [_ H].
    rewrite (IH true H (normal_from_nonempty _ _ H)). apply andb_false_r.
Qed.

Lemma trimEnd_normal (b : bool) (s : string) :
  normal_from " " b s = true -> Js.trimEnd s = s.
Proof.
  revert b. induction s as [|c s IH]; intros b H; [reflexivity |].
  rewrite trimEnd_cons, (normal_not_all_space b _ H) by discriminate.
  simpl in H. destruct (Js.is_alnum c).
  - now rewrite (IH false H).
  - destruct (Ascii.eqb c " "); [| discriminate].
    apply andb_true_iff in H as [_ H]. now rewrite (IH true H).
Qed.

Lemma trimStart_normal (sep : ascii) (s : string) :
  normal_from sep true s = true -> Js.trimStart s = s.
Proof.
  destruct s as [|c s]; simpl; [reflexivity |].
  destruct (Js.is_alnum c) eqn:Ec.
  - now rewrite (alnum_not_space c Ec).
  - destruct (Ascii.eqb c sep); discriminate.
Qed.

Lemma subst_same (c : ascii) (s : string) : subst_char c c s = s.
Proof.
  induction s as [|d s IH]; simpl; [reflexivity |].
  rewrite IH. destruct (Ascii.eqb d c) eqn:E; [| reflexivity].
  apply Ascii.eqb_eq in E. now subst.
Qed.

Lemma normal_case (sep : ascii) (s : string) :
  normal sep s = true -> s = "" \/ normal_from sep true s = true.
Proof. destruct s; [now left | now right]. Qed.

Lemma normal_of_from (sep : ascii) (s : string) :
  normal_from sep true s = true -> normal sep s = true.
Proof. destruct s; [discriminate | auto]. Qed.

(** The normalized term is a normal form with single spaces. *)
Lemma normalizeTerm_normal (value : string) : normal " " (normalizeTerm value) = true.
Proof.
  unfold normalizeTerm, Js.trim.
  unfold Js.replace_runs at 2.
  set (a := Js.replace_runs_from (fun c => negb (Js.is_alnum c)) " " false
              (Js.toLowerCase value)).
  assert (Ha : loose_from " " false a = true) by apply (replace_nonalnum_loose false).
  apply trimStart_loose in Ha.
  destruct (trimEnd_loose true _ Ha) as [E|E].
  - rewrite E. reflexivity.
  - rewrite (replace_runs_top " " eq_refl Js.is_space " ").
    + rewrite subst_same. now apply normal_of_from.
    + reflexivity.
    + intros c. apply alnum_not_space.
    + exact E.
Qed.

Lemma normalizeUseCase_subst (use_case : string) :
  normalizeUseCase use_case = subst_char " " "-" (normalizeTerm use_case)
  /\ normal "-" (normalizeUseCase use_case) = true.
Proof.
  unfold normalizeUseCase.
  destruct (normal_case _ _ (normalizeTerm_normal use_case)) as [E|E].
  - rewrite E. split; reflexivity.
  - rewrite (replace_runs_top " " eq_refl Js.is_space "-" _ eq_refl
               alnum_not_space E).
    split; [reflexivity |].
    apply normal_of_from. now apply (normal_subst " " eq_refl "-").
Qed.

Lemma normalizeUseCase_normal (use_case : string) :
  normal "-" (normalizeUseCase use_case) = true.
Proof. apply normalizeUseCase_subst. Qed.

Lemma toLowerCase_normal (sep : ascii) (b : bool) (s : string) :
  Js.lower_char sep = sep ->
  normal_from sep b s = true -> Js.toLowerCase s = s.
Proof.
  intros Hsep. revert b. induction s as [|c s IH]; intros b; simpl; [reflexivity |].
  destruct (Js.is_alnum c) eqn:Ec.
  - intros H. now rewrite (alnum_lower c Ec), (IH false).
  - destruct (Ascii.eqb c sep) eqn:E; [| discriminate].
    apply Ascii.eqb_eq in E. subst c. rewrite Hsep.
    rewrite andb_true_iff. intros [_ H]. now rewrite (IH true).
Qed.

(** A normal form with hyphens is a fixed point of [normalizeUseCase]. *)
Lemma normalizeUseCase_fixed (s : string) :
  normal "-" s = true -> normalizeUseCase s = s.
Proof.
  intros H. destruct (normal_case _ _ H) as [->|E]; [reflexivity |].
  assert (Hn : normal_from " " true (subst_char "-" " " s) = true)
    by now apply (normal_subst "-" eq_refl " ").
  assert (Ht : normalizeTerm s = subst_char "-" " " s).
  { unfold normalizeTerm, Js.trim.
    rewrite (toLowerCase_normal "-" true s eq_refl E).
    rewrite (replace_runs_top "-" eq_refl (fun c => negb (Js.is_alnum c)) " " s eq_refl);
      [| intros c Hc; now rewrite Hc | exact E].
    rewrite (trimStart_normal " " _ Hn), (trimEnd_normal true _ Hn).
    rewrite (replace_runs_top " " eq_refl Js.is_space " " _ eq_refl alnum_not_space Hn).
    apply subst_same. }
  unfold normalizeUseCase. rewrite Ht.
  rewrite (replace_runs_top " " eq_refl Js.is_space "-" _ eq_refl alnum_not_space Hn).
  now apply (subst_back "-" eq_refl " " true).
Qed.

Lemma normalizeUseCase_idempotent (use_case : string) :
  normalizeUseCase (normalizeUseCase use_case) = normalizeUseCase use_case.
Proof. apply normalizeUseCase_fixed, normalizeUseCase_normal. Qed.
Lemma catalog_providers_canonical :
  Forall (fun c => In (provider c) ALL_PROVIDERS) PROVIDER_ALIAS_CATALOG.
Proof.
  apply Forall_forall. intros c Hc.
  assert (H : forallb (fun c => existsb (String.eqb (provider c)) ALL_PROVIDERS)
                PROVIDER_ALIAS_CATALOG = true) by (vm_compute; reflexivity).
  rewrite forallb_forall in H. specialize (H c Hc).
  apply existsb_exists in H as (p & Hp & E). apply String.eqb_eq in E.
  rewrite E. exact Hp.
Qed.

(** C1 (as the code has it).  The normalized input is lowercase words of
    letters and digits separated by single spaces, with no space at either
    end.  Provider resolution returns no provider when
    the normalized input has fewer than 3 characters; otherwise it returns
    the first candidate of the alias catalog, which is sorted by alias
    length descending, whose alias equals the normalized input, or has the
    normalized input as a prefix, or is followed by a space in the
    normalized input; it returns no provider exactly when no candidate is
    accepted.  Every candidate carries a canonical provider name. *)
Theorem C1_provider_resolution (input : string) :
  let normalized := normalizeProviderInput input in
  normal " " normalized = true
  /\ StronglySorted
       (fun a b => (String.length (alias b) <= String.length (alias a))%nat)
       PROVIDER_ALIAS_CATALOG
  /\ Forall (fun c => In (provider c) ALL_PROVIDERS) PROVIDER_ALIAS_CATALOG
  /\ ((String.length normalized < 3)%nat -> resolveProviderMatch input = None)
  /\ ((3 <= String.length normalized)%nat ->
      (forall c,
          resolveProviderMatch input = Some c <->
          exists pre post,
            PROVIDER_ALIAS_CATALOG = (pre ++ c :: post)%list
            /\ accepts normalized (alias c)
            /\ forall d, In d pre -> ~ accepts normalized (alias d))
      /\ (resolveProviderMatch input = None <->
          forall d, In d PROVIDER_ALIAS_CATALOG -> ~ accepts normalized (alias d))).
Proof.
  intros normalized. split; [apply normalizeTerm_normal |].
  split; [exact catalog_sorted |]. split; [exact catalog_providers_canonical |].
  unfold resolveProviderMatch. fold normalized. split.
  - intros H. apply Nat.ltb_lt in H. unfold MIN_PROVIDER_INPUT_LENGTH.
    rewrite H. now rewrite orb_true_r.
  - intros H.
    assert (Hlen : (String.length normalized <? MIN_PROVIDER_INPUT_LENGTH)%nat = false)
      by (apply Nat.ltb_ge; exact H).
    assert (Htruthy : Js.truthy normalized = true)
      by (destruct normalized; [simpl in H; lia | reflexivity]).
    rewrite Hlen, Htruthy. cbn [negb orb]. split.
    + intros c. apply scan_catalog_some, catalog_aliases_long.
    + apply scan_catalog_none, catalog_aliases_long.
Qed.

Lemma C1_provider_resolution_witness :
  resolveProviderMatch "open ai gpt-4.1-mini" = Some (mkCandidate "OpenAI" "open ai")
  /\ resolveProviderMatch "ab" = None.
Proof.
  split.
  - destruct (proj2 (proj2 (proj2 (proj2
                  (C1_provider_resolution "open ai gpt-4.1-mini")))))
      as [Hsome _]; [vm_compute; lia |].
    apply Hsome.
    exists [ mkCandidate "Speechmatics" "speech matics";
             mkCandidate "Speechmatics" "speechmatics";
             mkCandidate "AssemblyAI" "assembly ai";
             mkCandidate "ElevenLabs" "eleven labs";
             mkCandidate "AssemblyAI" "assemblyai";
             mkCandidate "ElevenLabs" "elevenlabs";
             mkCandidate "Deepgram" "deep gram";
             mkCandidate "Anthropic" "anthropic";
             mkCandidate "Anthropic" "claude ai";
             mkCandidate "Cartesia" "cartes ia";
             mkCandidate "Deepgram" "deepgram";
             mkCandidate "AssemblyAI" "assembly";
             mkCandidate "Cartesia" "cartesia" ].
    eexists. split; [vm_compute; reflexivity |]. split.
    + right; right. exists "gpt 4 1 mini". vm_compute. reflexivity.
    + intros d Hd Hacc. apply candidate_accepts_iff in Hacc.
      simpl in Hd.
      repeat (destruct Hd as [<-|Hd]; [vm_compute in Hacc; discriminate |]).
      exact Hd.
  - apply (proj1 (proj2 (proj2 (proj2 (C1_provider_resolution "ab"))))).
    vm_compute. lia.
Defined.

(** C1, counterexample.  The alias "deepgram" is a string-prefix of the
    normalized input "deepgramx", so the rule as stated accepts it; the code
    returns no provider. *)
Lemma C1_counterexample :
  resolveProviderMatch_as_specified "deepgramx" = Some (mkCandidate "Deepgram" "deepgram")
  /\ resolveProviderMatch "deepgramx" = None.
Proof. split; vm_compute; reflexivity. Qed.

(** * Facts about double arithmetic *)

(** ** The number of binary digits *)

Lemma digits2_size (m : positive) : digits2_pos m = Pos.size m.
Proof. induction m as [m IH|m IH|]; simpl; now rewrite ?IH. Qed.

Lemma digits2_upper (m : positive) : (Zpos m < 2 ^ Zpos (digits2_pos m))%Z.
Proof.
  rewrite digits2_size. pose proof (Pos.size_gt m) as H.
  apply Pos2Z.pos_lt_pos in H. now rewrite Pos2Z.inj_pow in H.
Qed.

Lemma digits2_lower (m : positive) : (2 ^ (Zpos (digits2_pos m) - 1) <= Zpos m)%Z.
Proof.
  rewrite digits2_size. pose proof (Pos.size_le m) as H.
  apply Pos2Z.pos_le_pos in H. rewrite Pos2Z.inj_pow in H.
  change (Z.pos m~0) with (2 * Z.pos m)%Z in H.
  replace (Zpos (Pos.size m)) with (Z.succ (Zpos (Pos.size m) - 1)) in H by lia.
  rewrite Z.pow_succ_r in H by lia. lia.
Qed.

(** ** Shifting and rounding keep a mantissa positive *)

Lemma shr_1_div2 (mrs : shr_record) :
  (0 <= shr_m mrs)%Z -> shr_m (shr_1 mrs) = Z.div2 (shr_m mrs).
Proof.
  destruct mrs as [m r s]. cbn [shr_m].
  destruct m as [|[p|p|]|p]; intros H; try reflexivity. lia.
Qed.

Lemma shr_iter (p : positive) (mrs : shr_record) :
  (0 <= shr_m mrs)%Z ->
  shr_m (iter_pos shr_1 p mrs) = Z.shiftr (shr_m mrs) (Zpos p).
Proof.
  revert mrs. induction p as [p IH|p IH|]; intros mrs H; cbn [iter_pos].
  - assert (H1 : (0 <= shr_m (shr_1 mrs))%Z)
      by (rewrite shr_1_div2 by exact H; apply Z.div2_nonneg; exact H).
    assert (H2 : (0 <= shr_m (iter_pos shr_1 p (shr_1 mrs)))%Z)
      by (rewrite IH by exact H1; apply Z.shiftr_nonneg; exact H1).
    rewrite IH by exact H2. rewrite IH by exact H1.
    rewrite shr_1_div2 by exact H. rewrite Z.div2_spec.
    rewrite !Z.shiftr_shiftr by lia. f_equal. lia.
  - assert (H2 : (0 <= shr_m (iter_pos shr_1 p mrs))%Z)
      by (rewrite IH by exact H; apply Z.shiftr_nonneg; exact H).
    rewrite IH by exact H2. rewrite IH by exact H.
    rewrite Z.shiftr_shiftr by lia. f_equal. lia.
  - rewrite shr_1_div2 by exact H. apply Z.div2_spec.
Qed.

Lemma shr_record_of_loc_m (m : Z) (l : location) : shr_m (shr_record_of_loc m l) = m.
Proof. destruct l as [|[]]; reflexivity. Qed.

Lemma shr_fexp_positive (m : positive) (e : Z) (l : location) :
  (emin F64.prec F64.emax <= e)%Z ->
  (0 < shr_m (fst (shr_fexp F64.prec F64.emax (Zpos m) e l)))%Z
  /\ (emin F64.prec F64.emax <= snd (shr_fexp F64.prec F64.emax (Zpos m) e l))%Z.
Proof.
  intros He. unfold shr_fexp, shr. cbn [Zdigits2].
  pose proof (digits2_lower m) as Hlow.
  set (d := Zpos (digits2_pos m)) in *.
  unfold fexp. unfold F64.prec in *.
  destruct (Z.max (d + e - 53) (emin 53 F64.emax) - e)%Z as [|n|n] eqn:En;
    cbn [fst snd]; try (rewrite shr_record_of_loc_m; split; [reflexivity | exact He]).
  split; [| lia].
  rewrite shr_iter by (rewrite shr_record_of_loc_m; lia).
  rewrite shr_record_of_loc_m, Z.shiftr_div_pow2 by lia.
  apply Z.div_str_pos. split; [apply Z.pow_pos_nonneg; lia |].
  eapply Z.le_trans; [| exact Hlow].
  apply Z.pow_le_mono_r; lia.
Qed.

Lemma round_nearest_even_ge (m : Z) (l : location) : (m <= round_nearest_even m l)%Z.
Proof.
  destruct l as [|[]]; cbn [round_nearest_even]; try lia.
  destruct (Z.even m); lia.
Qed.

(** Rounding a positive mantissa at an exponent that is not below the
    least one gives a finite number or an infinity of the given sign, never
    a zero. *)
Lemma binary_round_aux_sign (s : bool) (m : positive) (e : Z) (l : location) :
  (emin F64.prec F64.emax <= e)%Z ->
  sign (binary_round_aux F64.prec F64.emax s (Zpos m) e l) = if s then Lt else Gt.
Proof.
  intros He. unfold binary_round_aux.
  destruct (shr_fexp_positive m e l He) as [H1 H2].
  destruct (shr_fexp F64.prec F64.emax (Zpos m) e l) as [mrs' e'].
  cbn [fst snd] in H1, H2.
  pose proof (round_nearest_even_ge (shr_m mrs') (loc_of_shr_record mrs')) as Hr.
  destruct (round_nearest_even (shr_m mrs') (loc_of_shr_record mrs')) as [|m1|m1];
    try lia.
  destruct (shr_fexp_positive m1 e' loc_Exact H2) as [H3 H4].
  destruct (shr_fexp F64.prec F64.emax (Zpos m1) e' loc_Exact) as [mrs'' e''].
  cbn [fst snd] in H3, H4.
  destruct (shr_m mrs'') as [|m2|m2]; try lia.
  destruct (e'' <=? F64.emax - F64.prec)%Z; reflexivity.
Qed.

Lemma shl_align_exponent (m : positive) (e t : Z) :
  snd (shl_align m e t) = Z.min e t.
Proof.
  unfold shl_align. destruct (t - e)%Z eqn:E; cbn [snd]; lia.
Qed.

Lemma binary_round_sign (s : bool) (m : positive) (e : Z) :
  (emin F64.prec F64.emax <= e)%Z ->
  sign (binary_round F64.prec F64.emax s m e) = if s then Lt else Gt.
Proof.
  intros He. unfold binary_round.
  pose proof (shl_align_exponent m e
                (fexp F64.prec F64.emax (Zpos (digits2_pos m) + e))) as Hs.
  destruct (shl_align m e _) as [mz ez]. cbn [snd] in Hs.
  apply binary_round_aux_sign. rewrite Hs. unfold fexp. lia.
Qed.

Lemma binary_normalize_sign (D e : Z) :
  (emin F64.prec F64.emax <= e)%Z ->
  sign (binary_normalize F64.prec F64.emax D e false) = (D ?= 0)%Z.
Proof.
  intros He. destruct D as [|m|m]; cbn [binary_normalize];
    [reflexivity | now rewrite binary_round_sign | now rewrite binary_round_sign].
Qed.

(** ** The order of numbers is a lexicographic order of keys *)

Lemma compare_cont_compare (m n : positive) :
  Pos.compare_cont Eq m n = (Zpos m ?= Zpos n)%Z.
Proof. reflexivity. Qed.

Lemma compare_key (x y : F64.number) :
  F64.is_nan x = false -> F64.is_nan y = false ->
  F64.compare x y = Some (lex3 (order_key x) (order_key y)).
Proof.
  destruct x as [sx|sx| |sx mx ex], y as [sy|sy| |sy my ey]; try discriminate;
    intros _ _; unfold F64.compare, SFcompare, lex3, order_key;
    try (destruct sx; reflexivity); try (destruct sy; reflexivity);
    try (destruct sx, sy; reflexivity).
  destruct sx, sy; cbn [fst snd]; try reflexivity;
    try (destruct (ex ?= ey)%Z; reflexivity).
  f_equal. change (-1 ?= -1)%Z with Eq. cbv iota.
  rewrite Z.compare_opp, (Z.compare_antisym ex ey).
  destruct (ex ?= ey)%Z; reflexivity.
Qed.

Lemma lex3_refl (a : Z * Z * Z) : lex3 a a = Eq.
Proof. unfold lex3. now rewrite !Z.compare_refl. Qed.

Lemma lex3_antisym (a b : Z * Z * Z) : lex3 b a = CompOpp (lex3 a b).
Proof.
  unfold lex3.
  rewrite (Z.compare_antisym (fst (fst a))), (Z.compare_antisym (snd (fst a))),
          (Z.compare_antisym (snd a)).
  destruct (fst (fst a) ?= fst (fst b))%Z; cbn [CompOpp]; try reflexivity.
  destruct (snd (fst a) ?= snd (fst b))%Z; reflexivity.
Qed.

Lemma lex3_spec (a b : Z * Z * Z) :
  match lex3 a b with
  | Lt => (fst (fst a) < fst (fst b)
           \/ (fst (fst a) = fst (fst b)
               /\ (snd (fst a) < snd (fst b)
                   \/ (snd (fst a) = snd (fst b) /\ snd a < snd b))))%Z
  | Eq => a = b
  | Gt => (fst (fst b) < fst (fst a)
           \/ (fst (fst a) = fst (fst b)
               /\ (snd (fst b) < snd (fst a)
                   \/ (snd (fst a) = snd (fst b) /\ snd b < snd a))))%Z
  end.
Proof.
  destruct a as [[a1 a2] a3], b as [[b1 b2] b3]. unfold lex3. cbn [fst snd].
  destruct (Z.compare_spec a1 b1); [| lia | lia].
  destruct (Z.compare_spec a2 b2); [| lia | lia].
  destruct (Z.compare_spec a3 b3); [congruence | lia | lia].
Qed.

Lemma lex3_trans (a b c : Z * Z * Z) :
  lex3 a b <> Gt -> lex3 b c <> Gt -> lex3 a c <> Gt.
Proof.
  pose proof (lex3_spec a b) as Hab. pose proof (lex3_spec b c) as Hbc.
  pose proof (lex3_spec a c) as Hac.
  destruct (lex3 a b), (lex3 b c); try congruence; intros _ _;
    destruct (lex3 a c); try discriminate; exfalso; subst; lia.
Qed.

Lemma lex3_eq_left (a b c : Z * Z * Z) : lex3 a b = Eq -> lex3 a c = lex3 b c.
Proof.
  intros H. pose proof (lex3_spec a b) as Hab. rewrite H in Hab. now subst.
Qed.

Section Order.

Variables x y z : F64.number.
Hypothesis Hx : F64.is_nan x = false.
Hypothesis Hy : F64.is_nan y = false.
Hypothesis Hz : F64.is_nan z = false.

Lemma fcmp_key : fcmp x y = lex3 (order_key x) (order_key y).
Proof. unfold fcmp. now rewrite compare_key. Qed.

End Order.

Lemma fcmp_antisym (x y : F64.number) : fcmp y x = CompOpp (fcmp x y).
Proof.
  destruct (F64.is_nan x) eqn:Hx; [destruct x; try discriminate; now destruct y |].
  destruct (F64.is_nan y) eqn:Hy; [destruct y; try discriminate; now destruct x |].
  rewrite !fcmp_key by assumption. apply lex3_antisym.
Qed.

Lemma fcmp_trans (x y z : F64.number) :
  F64.is_nan x = false -> F64.is_nan y = false -> F64.is_nan z = false ->
  fcmp x y <> Gt -> fcmp y z <> Gt -> fcmp x z <> Gt.
Proof.
  intros Hx Hy Hz. rewrite !fcmp_key by assumption. apply lex3_trans.
Qed.

Lemma fcmp_eq_left (x y z : F64.number) :
  F64.is_nan x = false -> F64.is_nan y = false -> F64.is_nan z = false ->
  fcmp x y = Eq -> fcmp x z = fcmp y z.
Proof.
  intros Hx Hy Hz. rewrite !fcmp_key by assumption. apply lex3_eq_left.
Qed.

Lemma fcmp_eq_right (x y z : F64.number) :
  F64.is_nan x = false -> F64.is_nan y = false -> F64.is_nan z = false ->
  fcmp x y = Eq -> fcmp z x = fcmp z y.
Proof.
  intros Hx Hy Hz H.
  rewrite (fcmp_antisym x z), (fcmp_antisym y z). f_equal.
  now apply fcmp_eq_left.
Qed.

Lemma ltb_fcmp (x y : F64.number) : F64.ltb x y = true <-> fcmp x y = Lt.
Proof.
  unfold F64.ltb, SFltb, fcmp, F64.compare.
  destruct (SFcompare x y) as [[]|]; split; congruence.
Qed.

Lemma eqb_fcmp (x y : F64.number) :
  F64.is_nan x = false -> F64.is_nan y = false ->
  F64.eqb x y = true <-> fcmp x y = Eq.
Proof.
  intros Hx Hy. unfold F64.eqb, SFeqb, fcmp. fold (F64.compare x y).
  rewrite compare_key by assumption.
  destruct (lex3 _ _); split; congruence.
Qed.

Lemma num_neq_fcmp (x y : F64.number) :
  F64.is_nan x = false -> F64.is_nan y = false ->
  num_neq x y = negb match fcmp x y with Eq => true | _ => false end.
Proof.
  intros Hx Hy. unfold num_neq. f_equal.
  pose proof (eqb_fcmp x y Hx Hy) as H.
  destruct (F64.eqb x y), (fcmp x y); try reflexivity;
    try (destruct H as [H _]; now specialize (H eq_refl));
    try (destruct H as [_ H]; now specialize (H eq_refl)).
Qed.

(** ** The sign of a difference is the order of its operands *)

Lemma iter_xO (m d : positive) : Zpos (Pos.iter xO m d) = (Zpos m * 2 ^ Zpos d)%Z.
Proof.
  induction d as [|d IH] using Pos.peano_ind.
  - cbn [Pos.iter]. now rewrite Z.pow_1_r, Z.mul_comm.
  - rewrite Pos.iter_succ, Pos2Z.inj_xO, IH, Pos2Z.inj_succ, Z.pow_succ_r by lia. ring.
Qed.

Lemma shl_align_mantissa (m : positive) (e t : Z) :
  (t <= e)%Z -> Zpos (fst (shl_align m e t)) = (Zpos m * 2 ^ (e - t))%Z.
Proof.
  intros H. unfold shl_align. destruct (t - e)%Z as [|d|d] eqn:E; cbn [fst]; try lia.
  - replace (e - t)%Z with 0%Z by lia. now rewrite Z.mul_1_r.
  - rewrite iter_xO. f_equal. f_equal. lia.
Qed.

Lemma well_formed_exponent (s : bool) (m : positive) (e : Z) :
  F64.well_formed (S754_finite s m e) = true ->
  e = Z.max (Zpos (digits2_pos m) + e - 53) (-1074).
Proof.
  unfold F64.well_formed, valid_binary, bounded, canonical_mantissa, fexp.
  rewrite andb_true_iff. intros [H _]. apply Z.eqb_eq in H.
  symmetry. exact H.
Qed.

Lemma canonical_lt (sx sy : bool) (mx my : positive) (ex ey : Z) :
  F64.well_formed (S754_finite sx mx ex) = true ->
  F64.well_formed (S754_finite sy my ey) = true ->
  (ex < ey)%Z -> (Zpos mx < Zpos my * 2 ^ (ey - ex))%Z.
Proof.
  intros Hx Hy Hlt.
  apply well_formed_exponent in Hx, Hy.
  pose proof (digits2_upper mx) as Ux. pose proof (digits2_lower my) as Ly.
  set (dx := Zpos (digits2_pos mx)) in *. set (dy := Zpos (digits2_pos my)) in *.
  assert (Dy : dy = 53%Z) by lia. assert (Dx : (dx <= 53)%Z) by lia.
  rewrite Dy in Ly.
  assert (P1 : (2 ^ dx <= 2 ^ 53)%Z) by (apply Z.pow_le_mono_r; lia).
  assert (P2 : (2 ^ 1 <= 2 ^ (ey - ex))%Z) by (apply Z.pow_le_mono_r; lia).
  change (2 ^ 1)%Z with 2%Z in P2. change (2 ^ (53 - 1))%Z with 4503599627370496%Z in Ly.
  change (2 ^ 53)%Z with 9007199254740992%Z in P1.
  nia.
Qed.

Lemma finite_difference (sx sy : bool) (mx my : positive) (ex ey : Z) :
  F64.well_formed (S754_finite sx mx ex) = true ->
  F64.well_formed (S754_finite sy my ey) = true ->
  ((cond_Zopp sx (Zpos (fst (shl_align mx ex (Z.min ex ey))))
    - cond_Zopp sy (Zpos (fst (shl_align my ey (Z.min ex ey)))) ?= 0)%Z)
  = lex3 (order_key (S754_finite sx mx ex)) (order_key (S754_finite sy my ey)).
Proof.
  intros Hx Hy.
  rewrite !shl_align_mantissa by lia.
  rewrite <- Z.compare_sub.
  pose proof (Pos2Z.is_pos mx) as Px. pose proof (Pos2Z.is_pos my) as Py.
  assert (Pp : forall k, (0 < 2 ^ k \/ k < 0)%Z).
  { intros k. destruct (Z_lt_le_dec k 0); [now right | left].
    apply Z.pow_pos_nonneg; lia. }
  destruct (Z.compare_spec ex ey) as [E|E|E].
  - subst ey. rewrite Z.min_id, Z.sub_diag, !Z.mul_1_r.
    unfold lex3, order_key.
    destruct sx, sy; cbn [cond_Zopp fst snd Z.opp]; rewrite ?Z.compare_refl; reflexivity.
  - pose proof (canonical_lt sx sy mx my ex ey Hx Hy E) as C.
    rewrite Z.min_l by lia. rewrite Z.sub_diag, Z.mul_1_r.
    unfold lex3, order_key.
    destruct sx, sy; cbn [cond_Zopp fst snd].
    + change (-1 ?= -1)%Z with Eq. cbv iota.
      assert (G : (- ex ?= - ey)%Z = Gt) by (apply Z.compare_gt_iff; lia).
      rewrite G. apply Z.compare_gt_iff. lia.
    + change (-1 ?= 1)%Z with Lt. cbv iota. apply Z.compare_lt_iff. lia.
    + change (1 ?= -1)%Z with Gt. cbv iota. apply Z.compare_gt_iff. lia.
    + change (1 ?= 1)%Z with Eq. cbv iota.
      assert (G : (ex ?= ey)%Z = Lt) by (apply Z.compare_lt_iff; lia).
      rewrite G. apply Z.compare_lt_iff. lia.
  - pose proof (canonical_lt sy sx my mx ey ex Hy Hx E) as C.
    rewrite Z.min_r by lia. rewrite Z.sub_diag, Z.mul_1_r.
    unfold lex3, order_key.
    destruct sx, sy; cbn [cond_Zopp fst snd].
    + change (-1 ?= -1)%Z with Eq. cbv iota.
      assert (G : (- ex ?= - ey)%Z = Lt) by (apply Z.compare_lt_iff; lia).
      rewrite G. apply Z.compare_lt_iff. lia.
    + change (-1 ?= 1)%Z with Lt. cbv iota. apply Z.compare_lt_iff.
      destruct (Pp (ex - ey)%Z); nia.
    + change (1 ?= -1)%Z with Gt. cbv iota. apply Z.compare_gt_iff.
      destruct (Pp (ex - ey)%Z); nia.
    + change (1 ?= 1)%Z with Eq. cbv iota.
      assert (G : (ex ?= ey)%Z = Gt) by (apply Z.compare_gt_iff; lia).
      rewrite G. apply Z.compare_gt_iff. lia.
Qed.

Lemma well_formed_emin (s : bool) (m : positive) (e : Z) :
  F64.well_formed (S754_finite s m e) = true -> (emin F64.prec F64.emax <= e)%Z.
Proof.
  intros H. apply well_formed_exponent in H.
  change (emin F64.prec F64.emax) with (-1074)%Z. lia.
Qed.

(** The sign of [x - y] is the order of [x] and [y]: negative when [x] is
    below [y], positive when it is above, and zero or NaN when the two are
    equal or one is NaN. *)
Lemma sub_sign (x y : F64.number) :
  F64.well_formed x = true -> F64.well_formed y = true ->
  sign (F64.sub x y) = fcmp x y.
Proof.
  intros Hx Hy.
  destruct x as [sx|sx| |sx mx ex], y as [sy|sy| |sy my ey];
    try (destruct sx; reflexivity); try (destruct sy; reflexivity);
    try (destruct sx, sy; reflexivity); try reflexivity.
  unfold F64.sub, SFsub.
  rewrite binary_normalize_sign.
  - rewrite (finite_difference sx sy mx my ex ey Hx Hy).
    symmetry. now apply fcmp_key.
  - apply well_formed_emin in Hx, Hy. lia.
Qed.

(** * Scoring *)

Lemma same_eq (x y : F64.number) : F64.same x y = true -> x = y.
Proof.
  destruct x as [s|s| |s m e], y as [s'|s'| |s' m' e']; cbn [F64.same];
    try discriminate.
  - intros H. apply Bool.eqb_prop in H. now subst.
  - intros H. apply Bool.eqb_prop in H. now subst.
  - rewrite !andb_true_iff. intros [[H1 H2] H3].
    apply Bool.eqb_prop in H1. apply Pos.eqb_eq in H2. apply Z.eqb_eq in H3.
    now subst.
Qed.

Lemma lookup_in_snd {A : Type} (table : list (string * A)) (key : string) (v : A) :
  lookup table key = Some v -> In v (map snd table).
Proof.
  induction table as [|[k x] table IH]; simpl; [discriminate |].
  destruct (k =? key); [intros [= ->]; now left | intros H; right; now apply IH].
Qed.

(** The weights of an objective and a use case are among the weights of
    the engine. *)
Lemma objective_weights_listed (optimize_for : Objective) (use_case : string)
    (w : ScoreWeights.t) :
  getObjectiveWeights optimize_for use_case = Weights w -> In w ENGINE_WEIGHTS.
Proof.
  unfold ENGINE_WEIGHTS.
  destruct optimize_for; cbn [getObjectiveWeights].
  - unfold getUseCaseWeights, get_property.
    destruct (lookup USE_CASE_PRIORITIES (resolveUseCase use_case)) as [v|] eqn:E.
    + intros [= <-]. do 4 right. exact (lookup_in_snd _ _ _ E).
    + destruct (existsb _ OBJECT_PROTOTYPE_KEYS); [discriminate |].
      intros [= <-]. now left.
  - intros [= <-]. right. now left.
  - intros [= <-]. right. right. now left.
  - intros [= <-]. right. right. right. now left.
Qed.

Lemma catalog_scores_agree :
  forallb (fun measured => forallb (score_agrees measured) ENGINE_WEIGHTS)
          (combine BENCHMARK_DATA BENCHMARK_MEASURES) = true.
Proof. vm_compute. reflexivity. Qed.

(** C2 (as the code has it).  The catalog holds, for every row, the
    doubles nearest to the decimal latency L, quality Q and cost C of the
    source.  For every row of the catalog and every weight triple
    (wL, wQ, wC) that the engine derives from an objective and a use case,
    the computed score is the double nearest to
    round-to-one-decimal of
    (max(0, 100 - (L - 100) * 0.5) * wL + (Q / 5) * 100 * wQ
     + max(0, 100 - C * 5000) * wC) / (wL + wQ + wC). *)
Theorem C2_score_formula :
  map (fun entry => (latencyMs entry, quality entry, costPerMin entry)) BENCHMARK_DATA
  = map (fun measures : Q * Q * Q =>
           let '(L, Qu, C) := measures in (F64.lit L, F64.lit Qu, F64.lit C))
        BENCHMARK_MEASURES
  /\ List.length BENCHMARK_MEASURES = List.length BENCHMARK_DATA
  /\ forall entry L Qu C optimize_for use_case w,
       In (entry, (L, Qu, C)) (combine BENCHMARK_DATA BENCHMARK_MEASURES) ->
       getObjectiveWeights optimize_for use_case = Weights w ->
       exists wL wQ wC,
         F64.to_Q (ScoreWeights.latency w) = Some wL
         /\ F64.to_Q (ScoreWeights.quality w) = Some wQ
         /\ F64.to_Q (ScoreWeights.cost w) = Some wC
         /\ scoreBenchmark entry (Weights w)
            = F64.lit (score_as_specified L Qu C wL wQ wC).
Proof.
  split; [vm_compute; reflexivity |]. split; [reflexivity |].
  intros entry L Qu C optimize_for use_case w Hin Hw.
  apply objective_weights_listed in Hw.
  pose proof catalog_scores_agree as H.
  rewrite forallb_forall in H. specialize (H _ Hin).
  rewrite forallb_forall in H. specialize (H _ Hw).
  unfold score_agrees in H.
  destruct (F64.to_Q (ScoreWeights.latency w)) as [wL|]; [| discriminate].
  destruct (F64.to_Q (ScoreWeights.quality w)) as [wQ|]; [| discriminate].
  destruct (F64.to_Q (ScoreWeights.cost w)) as [wC|]; [| discriminate].
  exists wL, wQ, wC. repeat split. now apply same_eq.
Qed.

Lemma C2_score_formula_witness :
  exists wL wQ wC,
    F64.to_Q (F64.lit 70) = Some wL
    /\ F64.to_Q (F64.lit 80) = Some wQ
    /\ F64.to_Q (F64.lit 50) = Some wC
    /\ scoreBenchmark
         (mkEntry "Deepgram" "nova-3" "Groq" "llama-4-maverick" "Cartesia" "sonic-3"
            (F64.lit 156) (F64.lit 4.2) (F64.lit 0.005) None ["Thai"; "English"]
            (Some "Lowest latency option. Groq inference is fast but quality slightly lower."))
         (Weights (weights 70 80 50))
       = F64.lit (score_as_specified 156 4.2 0.005 wL wQ wC).
Proof.
  refine (proj2 (proj2 C2_score_formula) _ 156 4.2 0.005 optimize_balanced "sales"
            (weights 70 80 50) _ _).
  - right. left. reflexivity.
  - vm_compute. reflexivity.
Defined.

(** C2 fails as stated.  The row with latency 245, quality 2.875 and cost
    0.015625 under the weights (60, 90, 60), six numbers that are exact in
    binary, has the exact weighted mean 38.75, which rounds to 38.8; the
    code computes 38.7. *)
Lemma C2_counterexample :
  exactly (latencyMs tie_row) 245
  /\ exactly (quality tie_row) 2.875
  /\ exactly (costPerMin tie_row) 0.015625
  /\ exactly (ScoreWeights.latency tie_weights) 60
  /\ exactly (ScoreWeights.quality tie_weights) 90
  /\ exactly (ScoreWeights.cost tie_weights) 60
  /\ score_as_specified 245 2.875 0.015625 60 90 60 == 38.8
  /\ scoreBenchmark tie_row (Weights tie_weights) = F64.lit 38.7
  /\ scoreBenchmark tie_row (Weights tie_weights) <> F64.lit 38.8.
Proof.
  repeat split; try (eexists; split; [reflexivity | vm_compute; reflexivity]);
    try (vm_compute; reflexivity).
  vm_compute. discriminate.
Qed.

(** * Ranking *)

(** ** Comparisons that are total preorders *)

Section Preorder.

Context {A : Type}.
Variable P : A -> Prop.

Lemma preorder_eq_right (c : A -> A -> comparison) (a b d : A) :
  preorder P c -> P a -> P b -> P d -> c a b = Eq -> c d a = c d b.
Proof.
  intros (Hs & _ & He) Pa Pb Pd E.
  rewrite (Hs a d), (Hs b d). f_equal. now apply He.
Qed.

Lemma preorder_lt_trans (c : A -> A -> comparison) (a b d : A) :
  preorder P c -> P a -> P b -> P d -> c a b = Lt -> c b d = Lt -> c a d = Lt.
Proof.
  intros Hc Pa Pb Pd E1 E2. pose proof Hc as (Hs & Ht & He).
  destruct (c a d) eqn:E; [| reflexivity |].
  - assert (E3 : c d a = Eq) by (rewrite Hs, E; reflexivity).
    pose proof (preorder_eq_right c d a b Hc Pd Pa Pb E3) as H.
    rewrite E2, (Hs a b), E1 in H. discriminate.
  - exfalso. apply (Ht a b d); auto; congruence.
Qed.

Lemma then_by_preorder (c1 c2 : A -> A -> comparison) :
  preorder P c1 -> preorder P c2 -> preorder P (then_by c1 c2).
Proof.
  intros H1 H2. pose proof H1 as (S1 & T1 & E1). pose proof H2 as (S2 & T2 & E2).
  unfold preorder, then_by. split; [| split].
  - intros a b. rewrite (S1 a b).
    destruct (c1 a b); cbn [CompOpp]; [apply S2 | reflexivity | reflexivity].
  - intros a b d Pa Pb Pd.
    destruct (c1 a b) eqn:Eab; [| | congruence]; intros Hab;
      (destruct (c1 b d) eqn:Ebd; [| | congruence]); intros Hbd.
    + rewrite (E1 a b d Pa Pb Pd Eab), Ebd. now apply (T2 a b d).
    + rewrite (E1 a b d Pa Pb Pd Eab), Ebd. discriminate.
    + rewrite <- (preorder_eq_right c1 b d a H1 Pb Pd Pa Ebd), Eab. discriminate.
    + rewrite (preorder_lt_trans c1 a b d H1 Pa Pb Pd Eab Ebd). discriminate.
  - intros a b d Pa Pb Pd.
    destruct (c1 a b) eqn:Eab; try discriminate. intros E.
    rewrite (E1 a b d Pa Pb Pd Eab). destruct (c1 b d); auto.
Qed.

End Preorder.

(** ** The comparator of the ranking *)

Lemma ordered_nan (x : F64.number) : ordered x = true -> F64.is_nan x = false.
Proof. unfold ordered. rewrite andb_true_iff, negb_true_iff. tauto. Qed.

Lemma ordered_well_formed (x : F64.number) :
  ordered x = true -> F64.well_formed x = true.
Proof. unfold ordered. rewrite andb_true_iff. tauto. Qed.

Lemma key_preorder (key : Ranked -> F64.number) :
  (forall r, rankable r -> ordered (key r) = true) ->
  preorder rankable (fun a b => fcmp (key a) (key b))
  /\ preorder rankable (fun a b => fcmp (key b) (key a)).
Proof.
  intros Hk.
  assert (N : forall r, rankable r -> F64.is_nan (key r) = false)
    by (intros r Hr; apply ordered_nan, Hk, Hr).
  split; (split; [intros a b; apply fcmp_antisym | split]).
  - intros a b d Pa Pb Pd. apply fcmp_trans; auto.
  - intros a b d Pa Pb Pd. apply fcmp_eq_left; auto.
  - intros a b d Pa Pb Pd H1 H2. apply (fcmp_trans (key d) (key b) (key a)); auto.
  - intros a b d Pa Pb Pd E. cbv beta in E |- *.
    symmetry. apply fcmp_eq_right; auto.
Qed.

Lemma key_compare_preorder : preorder rankable key_compare.
Proof.
  unfold key_compare.
  apply then_by_preorder; [| apply then_by_preorder; [| apply then_by_preorder]].
  - apply (key_preorder score). now intros r (H & _).
  - apply (key_preorder (fun r => latencyMs (row r))). now intros r (_ & H & _).
  - apply (key_preorder (fun r => quality (row r))). now intros r (_ & _ & H & _).
  - apply (key_preorder (fun r => costPerMin (row r))). now intros r (_ & _ & _ & H).
Qed.

(** On rows that can be ordered, the sign of the number the comparator
    returns is the comparison of the four keys in turn. *)
Lemma sign_rank_compare (a b : Ranked) :
  rankable a -> rankable b -> sign (rank_compare a b) = key_compare a b.
Proof.
  intros (As & Al & Aq & Ac) (Bs & Bl & Bq & Bc).
  unfold rank_compare, key_compare, then_by, score_desc, latency_asc, quality_desc,
    cost_asc.
  rewrite (num_neq_fcmp (score b) (score a)) by now apply ordered_nan.
  rewrite (num_neq_fcmp (latencyMs (row a)) (latencyMs (row b))) by now apply ordered_nan.
  rewrite (num_neq_fcmp (quality (row b)) (quality (row a))) by now apply ordered_nan.
  rewrite <- (sub_sign (score b) (score a)) by now apply ordered_well_formed.
  rewrite <- (sub_sign (latencyMs (row a)) (latencyMs (row b)))
    by now apply ordered_well_formed.
  rewrite <- (sub_sign (quality (row b)) (quality (row a)))
    by now apply ordered_well_formed.
  rewrite <- (sub_sign (costPerMin (row a)) (costPerMin (row b)))
    by now apply ordered_well_formed.
  destruct (sign (F64.sub (score b) (score a))) eqn:E1; cbn [negb]; cbv iota;
    rewrite ?E1; try reflexivity.
  destruct (sign (F64.sub (latencyMs (row a)) (latencyMs (row b)))) eqn:E2;
    cbn [negb]; cbv iota; rewrite ?E2; try reflexivity.
  destruct (sign (F64.sub (quality (row b)) (quality (row a)))) eqn:E3;
    cbn [negb]; cbv iota; rewrite ?E3; reflexivity.
Qed.

Lemma compare_antisym (x y : F64.number) :
  F64.compare y x = option_map CompOpp (F64.compare x y).
Proof.
  destruct (F64.is_nan x) eqn:Hx; [destruct x; try discriminate; now destruct y |].
  destruct (F64.is_nan y) eqn:Hy; [destruct y; try discriminate; now destruct x |].
  rewrite !compare_key by assumption. cbn [option_map]. f_equal. apply lex3_antisym.
Qed.

Lemma eqb_sym (x y : F64.number) : F64.eqb x y = F64.eqb y x.
Proof.
  unfold F64.eqb, SFeqb. fold (F64.compare x y) (F64.compare y x).
  rewrite (compare_antisym x y). now destruct (F64.compare x y) as [[]|].
Qed.

Lemma eqb_not_nan (x y : F64.number) :
  F64.eqb x y = true -> F64.is_nan x = false /\ F64.is_nan y = false.
Proof. destruct x, y; try discriminate; auto. Qed.

Lemma ranks_before_iff (a b : Ranked) :
  rankable a -> rankable b -> ranks_before a b <-> key_compare a b = Lt.
Proof.
  intros (As & Al & Aq & Ac) (Bs & Bl & Bq & Bc).
  apply ordered_nan in As, Al, Aq, Ac, Bs, Bl, Bq, Bc.
  unfold ranks_before, key_compare, then_by, score_desc, latency_asc, quality_desc,
    cost_asc.
  rewrite !ltb_fcmp.
  rewrite (eqb_sym (score a) (score b)), (eqb_sym (quality (row a)) (quality (row b))).
  rewrite !eqb_fcmp by assumption.
  destruct (fcmp (score b) (score a)),
           (fcmp (latencyMs (row a)) (latencyMs (row b))),
           (fcmp (quality (row b)) (quality (row a))),
           (fcmp (costPerMin (row a)) (costPerMin (row b)));
    cbv iota; intuition congruence.
Qed.

Lemma ranks_equal_iff (a b : Ranked) :
  rankable a -> rankable b -> ranks_equal a b <-> key_compare a b = Eq.
Proof.
  intros (As & Al & Aq & Ac) (Bs & Bl & Bq & Bc).
  apply ordered_nan in As, Al, Aq, Ac, Bs, Bl, Bq, Bc.
  unfold ranks_equal, ranks_equal_b, key_compare, then_by, score_desc, latency_asc,
    quality_desc, cost_asc.
  rewrite !andb_true_iff.
  rewrite (eqb_sym (score a) (score b)), (eqb_sym (quality (row a)) (quality (row b))).
  rewrite !eqb_fcmp by assumption.
  destruct (fcmp (score b) (score a)),
           (fcmp (latencyMs (row a)) (latencyMs (row b))),
           (fcmp (quality (row b)) (quality (row a))),
           (fcmp (costPerMin (row a)) (costPerMin (row b)));
    cbv iota; intuition congruence.
Qed.

Lemma StronglySorted_impl_in {A : Type} (R S : A -> A -> Prop) (l : list A) :
  (forall a b, In a l -> In b l -> R a b -> S a b) ->
  StronglySorted R l -> StronglySorted S l.
Proof.
  intros H Hs. induction Hs as [|x l Hs IH Hx]; constructor.
  - apply IH. intros a b Ha Hb. apply H; now right.
  - rewrite Forall_forall in *. intros b Hb. apply H; [now left | now right | auto].
Qed.

Lemma rankBenchmarks_perm (entries : list BenchmarkEntry) (weights : WeightsValue) :
  Permutation (rankBenchmarks entries weights)
    (map (fun entry => mkRanked entry (scoreBenchmark entry weights)) entries).
Proof. apply sort_perm. Qed.

Lemma rankBenchmarks_length (entries : list BenchmarkEntry) (weights : WeightsValue) :
  List.length (rankBenchmarks entries weights) = List.length entries.
Proof.
  rewrite (Permutation_length (rankBenchmarks_perm entries weights)).
  apply length_map.
Qed.

Lemma rankBenchmarks_in (entries : list BenchmarkEntry) (weights : WeightsValue)
    (r : Ranked) :
  In r (rankBenchmarks entries weights) ->
  In (row r) entries /\ score r = scoreBenchmark (row r) weights.
Proof.
  intros H. apply (Permutation_in _ (rankBenchmarks_perm entries weights)) in H.
  apply in_map_iff in H as (e & <- & He). now split.
Qed.

(** The ranking of rows that can be ordered is sorted by the comparison of
    the keys. *)
Lemma rankBenchmarks_sorted (entries : list BenchmarkEntry) (weights : WeightsValue) :
  Forall rankable
    (map (fun entry => mkRanked entry (scoreBenchmark entry weights)) entries) ->
  StronglySorted (fun a b => key_compare a b <> Gt) (rankBenchmarks entries weights).
Proof.
  intros Hr. destruct key_compare_preorder as (Hs & Ht & He).
  assert (Hranked : forall r, In r (rankBenchmarks entries weights) -> rankable r).
  { intros r H. apply (Permutation_in _ (rankBenchmarks_perm entries weights)) in H.
    rewrite Forall_forall in Hr. now apply Hr. }
  unfold rankBenchmarks in *.
  eapply StronglySorted_impl_in;
    [| apply (sort_sorted (fun a b => sign (rank_compare a b)) rankable); auto].
  - unfold not_after. intros a b Ha Hb H.
    rewrite <- sign_rank_compare; auto.
  - intros a b Pa Pb. rewrite !sign_rank_compare by assumption.
    intros E. rewrite Hs, E. discriminate.
  - intros a b d Pa Pb Pd. rewrite !sign_rank_compare by assumption. now apply Ht.
Qed.

Lemma catalog_rankable (entry : BenchmarkEntry) (w : ScoreWeights.t) :
  In entry BENCHMARK_DATA -> In w ENGINE_WEIGHTS ->
  rankable (mkRanked entry (scoreBenchmark entry (Weights w))).
Proof.
  intros He Hw.
  assert (H : forallb (fun w => forallb (rankable_b w) BENCHMARK_DATA) ENGINE_WEIGHTS
              = true) by (vm_compute; reflexivity).
  rewrite forallb_forall in H. specialize (H w Hw).
  rewrite forallb_forall in H. specialize (H entry He).
  unfold rankable_b in H. rewrite !andb_true_iff in H.
  unfold rankable. cbn [score row]. tauto.
Qed.

Lemma key_compare_not_gt (a b : Ranked) :
  rankable a -> rankable b ->
  key_compare a b <> Gt <-> ranks_before a b \/ ranks_equal a b.
Proof.
  intros Pa Pb. rewrite (ranks_before_iff a b Pa Pb), (ranks_equal_iff a b Pa Pb).
  destruct (key_compare a b); split; intros H; try congruence; auto.
  destruct H; discriminate.
Qed.

(** C3 (as the code has it).  The four sort keys of every catalog row
    under every weight triple of the engine are numbers that can be
    ordered.  Whenever the four keys of every row are well-formed doubles
    other than NaN, the ranking is a rearrangement of the scored entries in
    which every row stands before the rows that follow it by score
    descending, then latency ascending, then quality descending, then cost
    ascending.  Of two rows that differ in a key exactly one is before the
    other; rows equal in all four keys are not ordered and keep the order
    they had in the input. *)
Theorem C3_ranking_order (entries : list BenchmarkEntry) (w : ScoreWeights.t) :
  let scored :=
    map (fun entry => mkRanked entry (scoreBenchmark entry (Weights w))) entries in
  let ranked := rankBenchmarks entries (Weights w) in
  ((forall entry, In entry entries -> In entry BENCHMARK_DATA) ->
   In w ENGINE_WEIGHTS -> Forall rankable scored)
  /\ (Forall rankable scored ->
      Permutation ranked scored
      /\ StronglySorted (fun a b => ranks_before a b \/ ranks_equal a b) ranked
      /\ (forall a b, In a ranked -> In b ranked ->
            (~ ranks_equal a b ->
               (ranks_before a b /\ ~ ranks_before b a)
               \/ (ranks_before b a /\ ~ ranks_before a b))
            /\ (ranks_equal a b -> ~ ranks_before a b /\ ~ ranks_before b a))
      /\ (forall a, filter (ranks_equal_b a) ranked = filter (ranks_equal_b a) scored)).
Proof.
  intros scored ranked. split.
  { intros Hin Hw. apply Forall_forall. intros r Hr.
    apply in_map_iff in Hr as (e & <- & He). apply catalog_rankable; auto. }
  intros Hscored.
  assert (Hranked : forall r, In r ranked -> rankable r).
  { intros r Hr. apply (Permutation_in _ (rankBenchmarks_perm entries (Weights w))) in Hr.
    rewrite Forall_forall in Hscored. now apply Hscored. }
  destruct key_compare_preorder as (Hs & Ht & He).
  split; [apply rankBenchmarks_perm |]. split; [| split].
  - eapply StronglySorted_impl_in; [| apply rankBenchmarks_sorted; exact Hscored].
    intros a b Ha Hb H. apply key_compare_not_gt; auto.
  - intros a b Ha Hb. apply Hranked in Ha, Hb.
    rewrite (ranks_before_iff a b Ha Hb), (ranks_before_iff b a Hb Ha),
            (ranks_equal_iff a b Ha Hb), (Hs a b).
    destruct (key_compare a b); cbn [CompOpp]; split; intros H;
      try congruence; try (split; discriminate).
    + left. split; [reflexivity | discriminate].
    + right. split; [reflexivity | discriminate].
  - intros a. unfold ranked, rankBenchmarks. apply sort_stable.
    intros x y Hx Hy Fx Fy.
    rewrite Forall_forall in Hscored.
    pose proof (Hscored x Hx) as Px. pose proof (Hscored y Hy) as Py.
    rewrite sign_rank_compare by assumption.
    unfold ranks_equal_b in Fx, Fy. rewrite !andb_true_iff in Fx, Fy.
    destruct Fx as [[[X1 X2] X3] X4], Fy as [[[Y1 Y2] Y3] Y4].
    assert (T : forall u v t : F64.number,
               F64.eqb t u = true -> F64.eqb t v = true -> fcmp u v = Eq).
    { intros u v t Hu Hv.
      destruct (eqb_not_nan t u Hu) as [Nt Nu], (eqb_not_nan t v Hv) as [_ Nv].
      apply eqb_fcmp in Hu, Hv; auto.
      rewrite <- (fcmp_eq_left t u v Nt Nu Nv Hu). exact Hv. }
    unfold key_compare, then_by, score_desc, latency_asc, quality_desc, cost_asc.
    rewrite (T _ _ _ Y1 X1), (T _ _ _ X2 Y2), (T _ _ _ Y3 X3), (T _ _ _ X4 Y4).
    discriminate.
Qed.

Lemma C3_ranking_order_witness :
  StronglySorted (fun a b => ranks_before a b \/ ranks_equal a b)
    (rankBenchmarks BENCHMARK_DATA (Weights DEFAULT_WEIGHTS)).
Proof.
  refine (proj1 (proj2 (proj2 (C3_ranking_order BENCHMARK_DATA DEFAULT_WEIGHTS) _))).
  apply (proj1 (C3_ranking_order BENCHMARK_DATA DEFAULT_WEIGHTS)).
  - intros entry H. exact H.
  - left. reflexivity.
Defined.

(** C3, counterexample.  Two distinct rows with the same latency, quality
    and cost get the same score; neither is ranked before the other, and
    which one comes first in the result is the order of the input list.
    Under the weight triples (0, 0, 0) and (1e308, 1e308, 1e308) every score
    is NaN and the rows stay in input order, the row of OpenAI before the
    row of Groq, which the default weights rank the other way round. *)
Lemma C3_counterexample :
  (tied_row_a <> tied_row_b
   /\ ~ ranks_before (mkRanked tied_row_a (scoreBenchmark tied_row_a (Weights DEFAULT_WEIGHTS)))
                     (mkRanked tied_row_b (scoreBenchmark tied_row_b (Weights DEFAULT_WEIGHTS)))
   /\ ~ ranks_before (mkRanked tied_row_b (scoreBenchmark tied_row_b (Weights DEFAULT_WEIGHTS)))
                     (mkRanked tied_row_a (scoreBenchmark tied_row_a (Weights DEFAULT_WEIGHTS)))
   /\ map row (rankBenchmarks [tied_row_a; tied_row_b] (Weights DEFAULT_WEIGHTS))
      = [tied_row_a; tied_row_b]
   /\ map row (rankBenchmarks [tied_row_b; tied_row_a] (Weights DEFAULT_WEIGHTS))
      = [tied_row_b; tied_row_a])
  /\ map (fun r => (llm (row r), F64.is_nan (score r)))
         (rankBenchmarks (firstn 2 BENCHMARK_DATA) (Weights (weights 0 0 0)))
     = [("OpenAI", true); ("Groq", true)]
  /\ map (fun r => (llm (row r), F64.is_nan (score r)))
         (rankBenchmarks (firstn 2 BENCHMARK_DATA) (Weights (weights 1e308 1e308 1e308)))
     = [("OpenAI", true); ("Groq", true)]
  /\ map (fun r => (llm (row r), F64.is_nan (score r)))
         (rankBenchmarks (firstn 2 BENCHMARK_DATA) (Weights DEFAULT_WEIGHTS))
     = [("Groq", false); ("OpenAI", false)].
Proof.
  split; [| repeat split; vm_compute; reflexivity].
  split; [discriminate |].
  split; [| split; [| split; vm_compute; reflexivity]].
  - unfold ranks_before. cbn [score row]. vm_compute. intuition discriminate.
  - unfold ranks_before. cbn [score row]. vm_compute. intuition discriminate.
Qed.

(** * Combo parsing *)

Lemma parseProviderWithModel_provider (input : string) (p : ParsedProviderModel) :
  parseProviderWithModel input = Some p ->
  resolveProvider input = Some (parsed_provider p).
Proof.
  unfold parseProviderWithModel, resolveProvider.
  destruct (negb (Js.truthy (normalizeProviderInput input))); [discriminate |].
  destruct (resolveProviderMatch input) as [resolved|]; [| discriminate].
  destruct (negb (Js.truthy (Js.trim _))); intros [= <-]; reflexivity.
Qed.

Lemma parseProviderWithModel_none (input : string) :
  parseProviderWithModel input = None <-> resolveProvider input = None.
Proof.
  unfold parseProviderWithModel, resolveProvider, resolveProviderMatch.
  destruct (negb (Js.truthy (normalizeProviderInput input))) eqn:E.
  - cbn [orb]. tauto.
  - cbn [orb].
    destruct (String.length (normalizeProviderInput input) <? MIN_PROVIDER_INPUT_LENGTH)%nat;
      [tauto |].
    destruct (scan_catalog _ _) as [resolved|]; [| tauto].
    destruct (negb (Js.truthy (Js.trim _))); split; discriminate.
Qed.

Lemma combo_parts_spec (desc part : string) :
  In part (combo_parts desc) <->
  part <> "" /\ exists segment,
    In segment (Js.split match_combo_separator desc) /\ part = Js.trim segment.
Proof.
  unfold combo_parts. rewrite filter_In, in_map_iff. unfold Js.truthy.
  rewrite negb_true_iff, String.eqb_neq.
  split.
  - intros [(segment & <- & H) Hne]. split; [exact Hne |]. now exists segment.
  - intros [Hne (segment & H & ->)]. split; [now exists segment | exact Hne].
Qed.

(** ** The regular-expression split *)

Lemma slice_split (n : nat) (s : string) : Js.slice_to n s ++ Js.slice_from n s = s.
Proof.
  revert s. induction n as [|n IH]; intros s; [reflexivity |].
  destruct s as [|c s]; simpl; [reflexivity | now rewrite IH].
Qed.

Lemma slice_to_add (a b : nat) (s : string) :
  Js.slice_to (a + b) s = Js.slice_to a s ++ Js.slice_to b (Js.slice_from a s).
Proof.
  revert s. induction a as [|a IH]; intros s; [reflexivity |].
  destruct s as [|c s]; simpl.
  - now destruct b.
  - now rewrite IH.
Qed.

Lemma slice_from_add (a b : nat) (s : string) :
  Js.slice_from (a + b) s = Js.slice_from b (Js.slice_from a s).
Proof.
  revert s. induction a as [|a IH]; intros s; [reflexivity |].
  destruct s as [|c s]; simpl; [now destruct b | apply IH].
Qed.

Lemma slice_from_length (n : nat) (s : string) :
  (String.length (Js.slice_from n s) = String.length s - n)%nat.
Proof.
  revert s. induction n as [|n IH]; intros s; simpl; [lia |].
  destruct s as [|c s]; simpl; [reflexivity | apply IH].
Qed.

Lemma count_leading_le (cls : ascii -> bool) (s : string) :
  (Js.count_leading cls s <= String.length s)%nat.
Proof.
  induction s as [|c s IH]; simpl; [lia |]. destruct (cls c); simpl; lia.
Qed.

Lemma leading_all_space (s : string) :
  all_space (Js.slice_to (Js.count_leading Js.is_space s) s) = true.
Proof.
  induction s as [|c s IH]; simpl; [reflexivity |].
  destruct (Js.is_space c) eqn:E; simpl; [now rewrite E | reflexivity].
Qed.

Lemma length_append (a b : string) :
  String.length (a ++ b) = (String.length a + String.length b)%nat.
Proof. induction a as [|c a IH]; simpl; [reflexivity | now rewrite IH]. Qed.

(** A match of the separator is a separator, it is not empty and it lies
    within the text. *)
Lemma match_combo_separator_spec (s : string) (n : nat) :
  match_combo_separator s = Some n ->
  is_separator (Js.slice_to n s) /\ (1 <= n <= String.length s)%nat.
Proof.
  unfold match_combo_separator.
  set (lead := Js.count_leading Js.is_space s).
  pose proof (slice_split lead s) as Hs.
  pose proof (leading_all_space s) as Hlead. fold lead in Hlead.
  pose proof (count_leading_le Js.is_space s) as Hle. fold lead in Hle.
  pose proof (slice_from_length lead s) as Hlen.
  assert (Hsep : forall sep rest,
             Js.slice_from lead s = sep ++ rest ->
             sep = "+" \/ sep = "," \/ sep = "->" ->
             let n := (lead + String.length sep + Js.count_leading Js.is_space rest)%nat in
             is_separator (Js.slice_to n s) /\ (1 <= n <= String.length s)%nat).
  { intros sep rest E Hsep n0. split.
    - exists (Js.slice_to lead s), sep,
        (Js.slice_to (Js.count_leading Js.is_space rest) rest).
      repeat split; auto; [| apply leading_all_space].
      unfold n0. rewrite <- Nat.add_assoc, slice_to_add, E.
      f_equal. rewrite slice_to_add.
      assert (E1 : Js.slice_to (String.length sep) (sep ++ rest) = sep)
        by (destruct Hsep as [->|[->| ->]]; reflexivity).
      assert (E2 : Js.slice_from (String.length sep) (sep ++ rest) = rest)
        by (destruct Hsep as [->|[->| ->]]; reflexivity).
      now rewrite E1, E2.
    - pose proof (count_leading_le Js.is_space rest) as Hr.
      rewrite E, length_append in Hlen.
      assert (1 <= String.length sep)%nat
        by (destruct Hsep as [->|[->| ->]]; simpl; lia).
      unfold n0. lia. }
  destruct (Js.slice_from lead s) as [|c rest] eqn:E; [discriminate |].
  destruct c as [[] [] [] [] [] [] [] []]; try discriminate.
  - intros [= <-]. apply (Hsep "+" rest); auto.
  - destruct rest as [|d rest]; [discriminate |].
    destruct d as [[] [] [] [] [] [] [] []]; try discriminate.
    intros [= <-]. apply (Hsep "->" rest); auto.
  - intros [= <-]. apply (Hsep "," rest); auto.
Qed.

Lemma match_combo_separator_none (c : ascii) (s : string) :
  (match match_combo_separator (String c s) with
   | Some (S _) => False
   | _ => True
   end) ->
  c <> "+"%char /\ c <> ","%char /\ (c = "-"%char -> forall s', s <> String ">" s').
Proof.
  intros H. repeat split.
  - intros ->. exact H.
  - intros ->. exact H.
  - intros -> s' ->. exact H.
Qed.

Lemma split_from_skip (m : string -> option nat) (k : nat) (s cur : string) :
  (k <= String.length s)%nat ->
  Js.split_from m s k cur = Js.split_from m (Js.slice_from k s) 0 cur.
Proof.
  revert s. induction k as [|k IH]; intros s Hk; [reflexivity |].
  destruct s as [|c s]; simpl in *; [lia |]. apply IH. lia.
Qed.

Lemma snoc_cases (s : string) :
  s = "" \/ exists s' c, s = s' ++ String c "".
Proof.
  induction s as [|c s IH]; [now left |]. right.
  destruct IH as [->|(s' & d & ->)].
  - now exists "", c.
  - now exists (String c s'), d.
Qed.

Lemma snoc_inj (a b : string) (c d : ascii) :
  a ++ String c "" = b ++ String d "" -> a = b /\ c = d.
Proof.
  revert b. induction a as [|x a IH]; intros [|y b]; simpl; intros E.
  - injection E as ->. now split.
  - injection E as _ E. destruct b; discriminate.
  - injection E as _ E. destruct a; discriminate.
  - injection E as -> E. destruct (IH b E) as [-> ->]. now split.
Qed.

Lemma free_of_separators_nil : free_of_separators "".
Proof. intros pre post. repeat split; destruct pre; discriminate. Qed.

Lemma free_of_separators_snoc (t : string) (c : ascii) :
  free_of_separators t ->
  c <> "+"%char -> c <> ","%char ->
  (c = ">"%char -> forall t', t <> t' ++ "-") ->
  free_of_separators (t ++ String c "").
Proof.
  intros Hfree Hplus Hcomma Harrow pre post.
  destruct (snoc_cases post) as [->|(post' & d & ->)].
  - repeat split; intros E.
    + change (pre ++ "+" ++ "") with (pre ++ String "+" "") in E.
      apply snoc_inj in E as [_ ->]. congruence.
    + change (pre ++ "," ++ "") with (pre ++ String "," "") in E.
      apply snoc_inj in E as [_ ->]. congruence.
    + assert (E' : pre ++ "->" ++ "" = (pre ++ "-") ++ String ">" "")
        by (now rewrite append_assoc).
      rewrite E' in E. apply snoc_inj in E as [-> ->].
      now apply (Harrow eq_refl pre).
  - destruct (Hfree pre post') as (H1 & H2 & H3).
    repeat split; intros E.
    + apply H1. rewrite <- !append_assoc in E. apply snoc_inj in E as [-> _].
      now rewrite append_assoc.
    + apply H2. rewrite <- !append_assoc in E. apply snoc_inj in E as [-> _].
      now rewrite append_assoc.
    + apply H3. rewrite <- !append_assoc in E. apply snoc_inj in E as [-> _].
      now rewrite append_assoc.
Qed.

Lemma interleave_cons (a b : string) (l : list string) (p : string)
    (ps : list string) :
  interleave (a :: b :: l) (p :: ps) = a ++ p ++ interleave (b :: l) ps.
Proof. reflexivity. Qed.

(** The split of a combo string: the text is the segments with a separator
    between each two neighbours, and no segment holds a separator. *)
Lemma split_combo_from (n : nat) (s cur : string) :
  (String.length s <= n)%nat ->
  free_of_separators (Js.rev cur) ->
  (forall cur', cur = String "-" cur' -> forall s', s <> String ">" s') ->
  exists separators,
    List.length (Js.split_from match_combo_separator s 0 cur)
    = S (List.length separators)
    /\ Js.rev cur ++ s
       = interleave (Js.split_from match_combo_separator s 0 cur) separators
    /\ Forall is_separator separators
    /\ Forall free_of_separators (Js.split_from match_combo_separator s 0 cur).
Proof.
  revert s cur. induction n as [|n IH]; intros s cur Hn Hfree Harrow.
  - destruct s; [| simpl in Hn; lia].
    exists []. simpl. rewrite append_nil_r. repeat split; auto.
  - destruct s as [|c s].
    + exists []. simpl. rewrite append_nil_r. repeat split; auto.
    + assert (Hsnoc :
        (match match_combo_separator (String c s) with
         | Some (S _) => False
         | _ => True
         end) ->
        exists separators,
          List.length (Js.split_from match_combo_separator s 0 (String c cur))
          = S (List.length separators)
          /\ Js.rev cur ++ String c s
             = interleave (Js.split_from match_combo_separator s 0 (String c cur))
                 separators
          /\ Forall is_separator separators
          /\ Forall free_of_separators
               (Js.split_from match_combo_separator s 0 (String c cur))).
      { intros Hnone.
        apply match_combo_separator_none in Hnone as (Hplus & Hcomma & Hminus).
        destruct (IH s (String c cur)) as (separators & H1 & H2 & H3 & H4).
        - simpl in Hn. lia.
        - simpl. apply free_of_separators_snoc; auto.
          intros -> t' E. destruct cur as [|x cur]; [destruct t'; discriminate |].
          simpl in E. apply snoc_inj in E as [_ ->].
          now apply (Harrow cur eq_refl s).
        - intros cur' [= -> <-]. exact (Hminus eq_refl).
        - exists separators. repeat split; auto.
          rewrite <- H2. simpl. now rewrite append_assoc. }
      simpl Js.split_from.
      destruct (match_combo_separator (String c s)) as [[|k]|] eqn:Em;
        [now apply Hsnoc | | now apply Hsnoc].
      apply match_combo_separator_spec in Em as [Hsep Hk].
      rewrite split_from_skip by (simpl in Hk; lia).
      destruct (IH (Js.slice_from k s) "") as (separators & H1 & H2 & H3 & H4).
      * rewrite slice_from_length. simpl in Hn. lia.
      * apply free_of_separators_nil.
      * discriminate.
      * exists (Js.slice_to (S k) (String c s) :: separators).
        split; [simpl; now rewrite H1 |].
        split; [| split; [now constructor | now constructor]].
        destruct (Js.split_from match_combo_separator (Js.slice_from k s) 0 "")
          as [|segment segments] eqn:Es; [discriminate |].
        rewrite interleave_cons, <- H2. simpl Js.rev. cbn [append].
        f_equal. change (Js.slice_from k s) with (Js.slice_from (S k) (String c s)).
        now rewrite slice_split.
Qed.

Lemma split_combo (desc : string) :
  exists separators,
    List.length (Js.split match_combo_separator desc) = S (List.length separators)
    /\ desc = interleave (Js.split match_combo_separator desc) separators
    /\ Forall is_separator separators
    /\ Forall free_of_separators (Js.split match_combo_separator desc).
Proof.
  destruct (split_combo_from (String.length desc) desc "") as (separators & H);
    [lia | apply free_of_separators_nil | discriminate |].
  now exists separators.
Qed.

(** C4.  [parseComboInput] is a total function.  The input is cut at the
    separators "+", "," and "->" with the white space around them: it is
    the pieces with the separators between them, and no piece holds a
    separator.  The segments are the non-empty trimmed pieces.  It
    returns a combo only for exactly three segments, taken as STT, LLM and
    TTS in that order, each of which resolves to a provider, and the combo
    carries these three providers; it returns null exactly when the number
    of segments is not three or some segment does not resolve. *)
Theorem C4_combo_parsing (desc : string) :
  (exists separators,
      List.length (Js.split match_combo_separator desc) = S (List.length separators)
      /\ desc = interleave (Js.split match_combo_separator desc) separators
      /\ Forall is_separator separators
      /\ Forall free_of_separators (Js.split match_combo_separator desc))
  /\ (forall part, In part (combo_parts desc) <->
     part <> "" /\ exists segment,
       In segment (Js.split match_combo_separator desc) /\ part = Js.trim segment)
  /\ (forall combo, parseComboInput desc = Some combo ->
        exists sttInput llmInput ttsInput,
          combo_parts desc = [sttInput; llmInput; ttsInput]
          /\ resolveProvider sttInput = Some (parsed_provider (combo_stt combo))
          /\ resolveProvider llmInput = Some (parsed_provider (combo_llm combo))
          /\ resolveProvider ttsInput = Some (parsed_provider (combo_tts combo)))
  /\ (parseComboInput desc = None <->
        List.length (combo_parts desc) <> 3%nat
        \/ exists part, In part (combo_parts desc) /\ resolveProvider part = None).
Proof.
  split; [apply split_combo |].
  split; [intros part; apply combo_parts_spec |].
  unfold parseComboInput.
  destruct (combo_parts desc) as [|a [|b [|c [|d rest]]]].
  1-3,5: (split; [discriminate |]; split; [intros _; left; simpl; lia | reflexivity]).
  destruct (parseProviderWithModel a) as [pa|] eqn:Ea.
  2:{ split; [discriminate |]. split; [| reflexivity].
      intros _. right. exists a. split; [now left |].
      now apply parseProviderWithModel_none. }
  destruct (parseProviderWithModel b) as [pb|] eqn:Eb.
  2:{ split; [discriminate |]. split; [| reflexivity].
      intros _. right. exists b. split; [right; now left |].
      now apply parseProviderWithModel_none. }
  destruct (parseProviderWithModel c) as [pc|] eqn:Ec.
  2:{ split; [discriminate |]. split; [| reflexivity].
      intros _. right. exists c. split; [right; right; now left |].
      now apply parseProviderWithModel_none. }
  apply parseProviderWithModel_provider in Ea, Eb, Ec.
  split.
  - intros combo [= <-]. exists a, b, c. cbn. auto.
  - split; [discriminate |].
    intros [H|(part & Hin & Hnone)]; [simpl in H; lia |].
    simpl in Hin. destruct Hin as [<-|[<-|[<-|[]]]]; congruence.
Qed.

Lemma C4_combo_parsing_witness :
  parseComboInput "Deepgram nova-3 + OpenAI" = None
  /\ exists sttInput llmInput ttsInput,
       combo_parts "deepgram nova-3, open ai gpt-4.1-mini -> cartesia sonic-3"
       = [sttInput; llmInput; ttsInput]
       /\ resolveProvider sttInput = Some "Deepgram"
       /\ resolveProvider llmInput = Some "OpenAI"
       /\ resolveProvider ttsInput = Some "Cartesia".
Proof.
  split.
  - apply (proj2 (proj2 (proj2 (proj2 (C4_combo_parsing "Deepgram nova-3 + OpenAI"))))).
    left. vm_compute. discriminate.
  - apply (proj1 (proj2 (proj2 (C4_combo_parsing
                           "deepgram nova-3, open ai gpt-4.1-mini -> cartesia sonic-3")))
                 (mkCombo (mkParsed "Deepgram" (Some "nova-3"))
                          (mkParsed "OpenAI" (Some "gpt-4.1-mini"))
                          (mkParsed "Cartesia" (Some "sonic-3")))).
    vm_compute. reflexivity.
Defined.

(** * Language resolution *)

Lemma found_some (o : option string) (s : string) : found o = Some s -> o = Some s.
Proof.
  destruct o as [t|]; simpl; [| discriminate].
  destruct (Js.truthy t); [now intros [= ->] | discriminate].
Qed.

Lemma found_find (f : string -> bool) (l : list string) (s : string) :
  found (find f l) = Some s -> In s l /\ f s = true.
Proof. intros H. apply found_some in H. now apply find_some in H. Qed.

Lemma lookup_in {A : Type} (table : list (string * A)) (key : string) (v : A) :
  lookup table key = Some v -> In (key, v) table.
Proof.
  induction table as [|[k x] table IH]; simpl; [discriminate |].
  destruct (k =? key) eqn:E.
  - apply String.eqb_eq in E. intros [= ->]. left. now subst.
  - intros H. right. now apply IH.
Qed.

Lemma canonical_language_supported (canonical : string) :
  In canonical (map fst LANGUAGE_ALIASES) ->
  exists lang,
    found (find (fun lang => normalizeTerm lang =? canonical) SUPPORTED_LANGUAGES)
    = Some lang.
Proof.
  intros H. simpl in H.
  repeat (destruct H as [<-|H]; [eexists; vm_compute; reflexivity |]).
  destruct H.
Qed.

Lemma resolveLanguage_normalized (a b : string) :
  normalizeTerm a = normalizeTerm b -> resolveLanguage a = resolveLanguage b.
Proof. intros E. unfold resolveLanguage. now rewrite E. Qed.

Lemma resolveLanguage_supported (input lang : string) :
  resolveLanguage input = Some lang -> In lang SUPPORTED_LANGUAGES.
Proof.
  unfold resolveLanguage.
  destruct (negb (Js.truthy (normalizeTerm input))); [discriminate |].
  destruct (found (find _ SUPPORTED_LANGUAGES)) as [direct|] eqn:Ed.
  { intros [= <-]. exact (proj1 (found_find _ _ _ Ed)). }
  destruct (found (find _ (map fst LANGUAGE_ALIASES))) as [canonical|] eqn:Ec.
  - apply found_find in Ec as [Hin _].
    destruct (canonical_language_supported canonical Hin) as [l El].
    rewrite El. intros [= <-]. exact (proj1 (found_find _ _ _ El)).
  - destruct (MIN_LANGUAGE_PREFIX_LENGTH <=? _)%nat; [| discriminate].
    intros H. exact (proj1 (found_find _ _ _ H)).
Qed.

Lemma supported_language_resolves (lang : string) :
  In lang SUPPORTED_LANGUAGES -> resolveLanguage lang = Some lang.
Proof.
  intros Hl.
  assert (H : forallb (fun l => match resolveLanguage l with
                                | Some q => q =? l
                                | None => false
                                end) SUPPORTED_LANGUAGES = true)
    by (vm_compute; reflexivity).
  rewrite forallb_forall in H. specialize (H lang Hl).
  destruct (resolveLanguage lang) as [q|]; [| discriminate].
  apply String.eqb_eq in H. now subst.
Qed.

(** Every alias of the language table resolves to the supported language
    whose normalized name is the key it is listed under. *)
Lemma language_aliases_resolve (key : string) (aliases : list string) (a : string) :
  In (key, aliases) LANGUAGE_ALIASES -> In a aliases ->
  exists lang,
    resolveLanguage a = Some lang
    /\ In lang SUPPORTED_LANGUAGES /\ normalizeTerm lang = key.
Proof.
  intros He Ha.
  assert (H : forallb
                (fun e : string * list string =>
                   forallb (fun a => match resolveLanguage a with
                                     | Some lang => normalizeTerm lang =? fst e
                                     | None => false
                                     end) (snd e))
                LANGUAGE_ALIASES = true)
    by (vm_compute; reflexivity).
  rewrite forallb_forall in H. specialize (H _ He). cbn [fst snd] in H.
  rewrite forallb_forall in H. specialize (H a Ha).
  destruct (resolveLanguage a) as [lang|] eqn:E; [| discriminate].
  exists lang. split; [reflexivity |].
  split; [exact (resolveLanguage_supported a lang E) | now apply String.eqb_eq].
Qed.

Lemma distinct_NoDup (l : list string) : distinct l = true -> NoDup l.
Proof.
  induction l as [|x l IH]; simpl; [constructor |].
  rewrite andb_true_iff, negb_true_iff. intros [Hx Hl]. constructor; [| now apply IH].
  intros Hin. assert (E : existsb (String.eqb x) l = true).
  { apply existsb_exists. exists x. split; [exact Hin | apply String.eqb_refl]. }
  congruence.
Qed.

Lemma NoDup_map_injective {A B : Type} (f : A -> B) (l : list A) (a b : A) :
  NoDup (map f l) -> In a l -> In b l -> f a = f b -> a = b.
Proof.
  induction l as [|x l IH]; simpl; [tauto |].
  intros Hnd. inversion Hnd as [|? ? Hx Hl]; subst.
  intros [->|Ha] [->|Hb] E; auto.
  - exfalso. apply Hx. rewrite E. now apply in_map.
  - exfalso. apply Hx. rewrite <- E. now apply in_map.
Qed.

Lemma language_names_injective (a b : string) :
  In a SUPPORTED_LANGUAGES -> In b SUPPORTED_LANGUAGES ->
  normalizeTerm a = normalizeTerm b -> a = b.
Proof.
  apply NoDup_map_injective. apply distinct_NoDup. vm_compute. reflexivity.
Qed.

(** An input that names a supported language exactly resolves to it. *)
Lemma named_language_resolves (input lang : string) :
  In lang SUPPORTED_LANGUAGES -> names_language (normalizeTerm input) lang ->
  resolveLanguage input = Some lang.
Proof.
  intros Hl [E|(canonical & aliases & alias_ & He & Ha & En & Ec)].
  - rewrite (resolveLanguage_normalized input lang) by now symmetry.
    now apply supported_language_resolves.
  - rewrite (resolveLanguage_normalized input alias_) by now symmetry.
    destruct (language_aliases_resolve canonical aliases alias_ He Ha)
      as (lang' & R & Hl' & E').
    rewrite R. f_equal. apply language_names_injective; auto. congruence.
Qed.

Lemma find_split {A : Type} (p : A -> bool) (l : list A) (x : A) :
  find p l = Some x <->
  exists pre post,
    l = (pre ++ x :: post)%list /\ p x = true /\ forall y, In y pre -> p y = false.
Proof.
  induction l as [|a l IH]; simpl.
  - split; [discriminate |]. intros (pre & post & E & _). now destruct pre.
  - destruct (p a) eqn:Ea; split.
    + intros [= ->]. exists [], l. repeat split; auto. intros y [].
    + intros ([|b pre] & post & E & Hx & Hpre); injection E as -> ->; [reflexivity |].
      rewrite (Hpre b) in Ea by now left. discriminate.
    + intros H. apply IH in H as (pre & post & -> & Hx & Hpre).
      exists (a :: pre), post. repeat split; auto.
      intros y [->|Hy]; auto.
    + intros ([|b pre] & post & E & Hx & Hpre); injection E as -> ->; [congruence |].
      apply IH. exists pre, post. repeat split; auto.
      intros y Hy. apply Hpre. now right.
Qed.

Lemma lookup_of_in {A : Type} (table : list (string * A)) (key : string) (v : A) :
  NoDup (map fst table) -> In (key, v) table -> lookup table key = Some v.
Proof.
  induction table as [|[k x] table IH]; simpl; [tauto |].
  intros Hnd. inversion Hnd as [|? ? Hk Ht]; subst.
  intros [[= -> ->]|Hin]; [now rewrite String.eqb_refl |].
  destruct (k =? key) eqn:E; [| now apply IH].
  apply String.eqb_eq in E. subst. exfalso. apply Hk.
  change key with (fst (key, v)). now apply in_map.
Qed.

Lemma supported_truthy (s : string) : In s SUPPORTED_LANGUAGES -> Js.truthy s = true.
Proof.
  intros H.
  assert (F : forallb Js.truthy SUPPORTED_LANGUAGES = true) by (vm_compute; reflexivity).
  rewrite forallb_forall in F. now apply F.
Qed.

Lemma found_find_supported (p : string -> bool) :
  found (find p SUPPORTED_LANGUAGES) = find p SUPPORTED_LANGUAGES.
Proof.
  destruct (find p SUPPORTED_LANGUAGES) as [s|] eqn:E; [| reflexivity].
  cbn [found]. apply find_some in E as [Hin _]. now rewrite (supported_truthy s Hin).
Qed.

(** With no supported language named exactly by an input of at least 3
    characters, the result is the first supported language whose name is
    prefix-related to the input. *)
Lemma unnamed_language_resolves (input : string) :
  (3 <= String.length (normalizeTerm input))%nat ->
  (forall lang, In lang SUPPORTED_LANGUAGES ->
                ~ names_language (normalizeTerm input) lang) ->
  resolveLanguage input
  = find (prefix_related (normalizeTerm input)) SUPPORTED_LANGUAGES.
Proof.
  intros Hlen Hno. unfold resolveLanguage.
  assert (T : Js.truthy (normalizeTerm input) = true)
    by (destruct (normalizeTerm input); [simpl in Hlen; lia | reflexivity]).
  rewrite T. cbn [negb].
  destruct (found (find (fun lang => normalizeTerm lang =? normalizeTerm input)
                        SUPPORTED_LANGUAGES)) as [direct|] eqn:Ed.
  { exfalso. apply found_find in Ed as [Hin H]. apply String.eqb_eq in H.
    apply (Hno direct Hin). now left. }
  match goal with
  | |- context [found (find ?f (map fst LANGUAGE_ALIASES))] =>
      destruct (found (find f (map fst LANGUAGE_ALIASES))) as [canonical|] eqn:Ec
  end.
  { exfalso. apply found_find in Ec as [Hin Hf].
    destruct (canonical_language_supported canonical Hin) as [lang' Hl].
    apply found_find in Hl as [Hs Hn]. apply String.eqb_eq in Hn.
    apply (Hno lang' Hs). right.
    destruct (lookup LANGUAGE_ALIASES canonical) as [aliases|] eqn:El; [| discriminate].
    apply existsb_exists in Hf as (alias_ & Ha & He).
    apply String.eqb_eq in He.
    exists canonical, aliases, alias_. repeat split; auto. now apply lookup_in. }
  apply Nat.leb_le in Hlen. unfold MIN_LANGUAGE_PREFIX_LENGTH. rewrite Hlen.
  apply found_find_supported.
Qed.

(** Every result names the language exactly or comes from the prefix rule
    on an input of at least 3 characters. *)
Lemma resolved_language_named (input lang : string) :
  resolveLanguage input = Some lang ->
  names_language (normalizeTerm input) lang
  \/ ((3 <= String.length (normalizeTerm input))%nat
      /\ (Js.startsWith (normalizeTerm lang) (normalizeTerm input) = true
          \/ Js.startsWith (normalizeTerm input) (normalizeTerm lang) = true)).
Proof.
  unfold resolveLanguage.
  destruct (negb (Js.truthy (normalizeTerm input))); [discriminate |].
  destruct (found (find (fun lang => normalizeTerm lang =? normalizeTerm input)
                        SUPPORTED_LANGUAGES)) as [direct|] eqn:Ed.
  { intros [= ->]. left. left. apply found_find in Ed as [_ H].
    now apply String.eqb_eq in H. }
  match goal with
  | |- context [found (find ?f (map fst LANGUAGE_ALIASES))] =>
      destruct (found (find f (map fst LANGUAGE_ALIASES))) as [canonical|] eqn:Ec
  end.
  { apply found_find in Ec as [Hin Hf].
    destruct (canonical_language_supported canonical Hin) as [lang' Hl].
    rewrite Hl. intros [= ->]. left. right.
    destruct (lookup LANGUAGE_ALIASES canonical) as [aliases|] eqn:El; [| discriminate].
    apply existsb_exists in Hf as (alias_ & Ha & He).
    apply String.eqb_eq in He.
    exists canonical, aliases, alias_. repeat split; auto.
    - now apply lookup_in.
    - apply found_find in Hl as [_ H]. now apply String.eqb_eq in H. }
  destruct (MIN_LANGUAGE_PREFIX_LENGTH <=? String.length (normalizeTerm input))%nat
    eqn:Elen; [| discriminate].
  intros H. apply found_find in H as [_ H]. right.
  apply Nat.leb_le in Elen. split; [exact Elen |].
  now apply orb_true_iff in H.
Qed.

Lemma names_language_iff (normalized lang : string) :
  names_language_b normalized lang = true <-> names_language normalized lang.
Proof.
  unfold names_language_b, names_language.
  rewrite orb_true_iff, String.eqb_eq, existsb_exists. split.
  - intros [H|([key aliases] & He & H)]; [now left | right].
    cbn [fst snd] in H. rewrite andb_true_iff, String.eqb_eq, existsb_exists in H.
    destruct H as [Ek (a & Ha & Ea)]. apply String.eqb_eq in Ea.
    now exists key, aliases, a.
  - intros [H|(key & aliases & a & He & Ha & Ea & Ek)]; [now left | right].
    exists (key, aliases). split; [exact He |]. cbn [fst snd].
    rewrite andb_true_iff, String.eqb_eq, existsb_exists. split; [exact Ek |].
    exists a. split; [exact Ha | now apply String.eqb_eq].
Qed.

(** C10.  [resolveLanguage] returns null or an element of
    [SUPPORTED_LANGUAGES] in its canonical spelling.  An input that names a
    supported language exactly (its normalized form is the normalized
    language or one of the normalized aliases of the language) resolves to
    that language, whatever its length: for instance the two-letter codes
    "en", "th" and "ja".  Every result names the language exactly or comes
    from the prefix rule; the prefix rule is applied only to normalized
    inputs of at least 3 characters ("ma" resolves to nothing, "mal" to
    "Malay"), so that a shorter input resolves exactly when it names a
    language, and a longer one that names no language resolves to the first
    supported language whose name is prefix-related to it. *)
Theorem C10_language_codomain (input : string) :
  (resolveLanguage input = None
   \/ exists lang, In lang SUPPORTED_LANGUAGES /\ resolveLanguage input = Some lang)
  /\ (resolveLanguage "en" = Some "English"
      /\ resolveLanguage "th" = Some "Thai"
      /\ resolveLanguage "ja" = Some "Japanese"
      /\ resolveLanguage "ma" = None
      /\ resolveLanguage "mal" = Some "Malay")
  /\ (forall lang, resolveLanguage input = Some lang ->
        names_language (normalizeTerm input) lang
        \/ ((3 <= String.length (normalizeTerm input))%nat
            /\ (Js.startsWith (normalizeTerm lang) (normalizeTerm input) = true
                \/ Js.startsWith (normalizeTerm input) (normalizeTerm lang) = true)))
  /\ (forall lang, In lang SUPPORTED_LANGUAGES ->
        names_language (normalizeTerm input) lang ->
        resolveLanguage input = Some lang)
  /\ (forall key aliases alias_,
        In (key, aliases) LANGUAGE_ALIASES -> In alias_ aliases ->
        exists lang,
          resolveLanguage alias_ = Some lang
          /\ In lang SUPPORTED_LANGUAGES /\ normalizeTerm lang = key)
  /\ ((String.length (normalizeTerm input) < 3)%nat ->
      forall lang,
        resolveLanguage input = Some lang <->
        In lang SUPPORTED_LANGUAGES /\ names_language (normalizeTerm input) lang)
  /\ ((3 <= String.length (normalizeTerm input))%nat ->
      (forall lang, In lang SUPPORTED_LANGUAGES ->
                    ~ names_language (normalizeTerm input) lang) ->
      forall lang,
        resolveLanguage input = Some lang <->
        exists pre post,
          SUPPORTED_LANGUAGES = (pre ++ lang :: post)%list
          /\ prefix_related (normalizeTerm input) lang = true
          /\ forall other, In other pre ->
               prefix_related (normalizeTerm input) other = false).
Proof.
  split.
  { destruct (resolveLanguage input) as [lang|] eqn:E; [| now left].
    right. exists lang. split; [| reflexivity].
    exact (resolveLanguage_supported input lang E). }
  split; [repeat split; vm_compute; reflexivity |].
  split; [intros lang; apply resolved_language_named |].
  split; [intros lang; apply named_language_resolves |].
  split; [apply language_aliases_resolve |].
  split.
  - intros Hlen lang. split.
    + intros H. split; [exact (resolveLanguage_supported input lang H) |].
      destruct (resolved_language_named input lang H) as [N|[L _]]; [exact N | lia].
    + intros [Hl Hn]. now apply named_language_resolves.
  - intros Hlen Hno lang. rewrite (unnamed_language_resolves input Hlen Hno).
    apply find_split.
Qed.

Lemma C10_language_codomain_witness :
  resolveLanguage "Vi." = Some "Vietnamese"
  /\ forall lang,
       resolveLanguage "Kor" = Some lang <->
       exists pre post,
         SUPPORTED_LANGUAGES = (pre ++ lang :: post)%list
         /\ prefix_related (normalizeTerm "Kor") lang = true
         /\ forall other, In other pre ->
              prefix_related (normalizeTerm "Kor") other = false.
Proof.
  split.
  - apply (proj1 (proj2 (proj2 (proj2 (C10_language_codomain "Vi."))))).
    + vm_compute. tauto.
    + apply names_language_iff. vm_compute. reflexivity.
  - apply (proj2 (proj2 (proj2 (proj2 (proj2 (proj2 (C10_language_codomain "Kor"))))))).
    + vm_compute. lia.
    + intros lang Hin Hn. apply names_language_iff in Hn.
      assert (F : forallb (fun l => negb (names_language_b (normalizeTerm "Kor") l))
                    SUPPORTED_LANGUAGES = true) by (vm_compute; reflexivity).
      rewrite forallb_forall in F. specialize (F lang Hin).
      rewrite Hn in F. discriminate.
Defined.

(** * Result count and the top pick *)

Lemma clampMaxResults_bounds (value : SchemaNumber) :
  (1 <= clampMaxResults value <= 10)%Z.
Proof. destruct value; unfold clampMaxResults, MAX_RESULTS; lia. Qed.

Lemma length_zero_false {A : Type} (l : list A) :
  l <> [] -> (List.length l =? 0)%nat = false.
Proof. destruct l; [congruence | reflexivity]. Qed.

Lemma length_zero_true {A : Type} (l : list A) :
  (List.length l =? 0)%nat = true -> l = [].
Proof. destruct l; [reflexivity | discriminate]. Qed.

Lemma ranked_top (entries : list BenchmarkEntry) (weights : WeightsValue) (limit : Z) :
  entries <> [] -> (1 <= limit)%Z ->
  exists best rest,
    firstn (Z.to_nat limit) (rankBenchmarks entries weights) = best :: rest.
Proof.
  intros He Hl.
  pose proof (rankBenchmarks_length entries weights) as Hlen.
  destruct (rankBenchmarks entries weights) as [|best ranked].
  - destruct entries; [congruence | discriminate].
  - destruct (Z.to_nat limit) as [|k] eqn:Ek; [lia |].
    simpl. eauto.
Qed.

Lemma recommend_ranked (language use_case : string) (optimize_for : Objective)
    (max_results : SchemaNumber) (output_format : ToolOutputFormat) (resolved : string) :
  found (resolveLanguage language) = Some resolved ->
  filter (supports_language resolved) BENCHMARK_DATA <> [] ->
  exists best rest,
    firstn (Z.to_nat (clampMaxResults max_results))
           (rankBenchmarks (filter (supports_language resolved) BENCHMARK_DATA)
              (getObjectiveWeights optimize_for (resolveUseCase use_case)))
    = best :: rest
    /\ voiceforge_recommend language use_case optimize_for max_results output_format
       = Returns (mkResponse output_format
                    (RecommendRanked resolved (resolveUseCase use_case) optimize_for
                       (best :: rest))).
Proof.
  intros E Hne. unfold voiceforge_recommend. rewrite E.
  rewrite (length_zero_false _ Hne).
  destruct (ranked_top (filter (supports_language resolved) BENCHMARK_DATA)
              (getObjectiveWeights optimize_for (resolveUseCase use_case))
              (clampMaxResults max_results) Hne)
    as (best & rest & Htop); [apply clampMaxResults_bounds |].
  exists best, rest. split; [exact Htop |].
  rewrite Htop. destruct output_format; reflexivity.
Qed.

Lemma recommend_never_throws (language use_case : string) (optimize_for : Objective)
    (max_results : SchemaNumber) (output_format : ToolOutputFormat) (message : string) :
  voiceforge_recommend language use_case optimize_for max_results output_format
  <> Throws message.
Proof.
  destruct (found (resolveLanguage language)) as [resolved|] eqn:E.
  - destruct (List.length (filter (supports_language resolved) BENCHMARK_DATA) =? 0)%nat
      eqn:El.
    + unfold voiceforge_recommend. rewrite E, El. discriminate.
    + assert (Hne : filter (supports_language resolved) BENCHMARK_DATA <> [])
        by (intros H; rewrite H in El; discriminate).
      destruct (recommend_ranked language use_case optimize_for max_results
                  output_format resolved E Hne) as (best & rest & _ & ->).
      discriminate.
  - unfold voiceforge_recommend. rewrite E. discriminate.
Qed.

(** C9.  The clamped result count lies in [1, 10] for every number the
    schema of [max_results] accepts.  When some benchmark row supports the
    resolved language, the recommend operation returns a non-empty ranked
    list in either format; the operation never throws, so the branch that
    reads the top pick always finds it. *)
Theorem C9_result_count_and_top_pick (language use_case : string)
    (optimize_for : Objective) (max_results : SchemaNumber)
    (output_format : ToolOutputFormat) :
  (1 <= clampMaxResults max_results <= 10)%Z
  /\ (forall resolved,
        found (resolveLanguage language) = Some resolved ->
        filter (supports_language resolved) BENCHMARK_DATA <> [] ->
        exists best rest,
          firstn (Z.to_nat (clampMaxResults max_results))
                 (rankBenchmarks (filter (supports_language resolved) BENCHMARK_DATA)
                    (getObjectiveWeights optimize_for (resolveUseCase use_case)))
          = best :: rest
          /\ voiceforge_recommend language use_case optimize_for max_results output_format
             = Returns (mkResponse output_format
                          (RecommendRanked resolved (resolveUseCase use_case) optimize_for
                             (best :: rest))))
  /\ (forall message,
        voiceforge_recommend language use_case optimize_for max_results output_format
        <> Throws message).
Proof.
  split; [apply clampMaxResults_bounds |]. split.
  - intros resolved. apply recommend_ranked.
  - intros message. apply recommend_never_throws.
Qed.

Lemma C9_result_count_and_top_pick_witness :
  exists best rest,
    firstn (Z.to_nat (clampMaxResults (Finite 5)))
           (rankBenchmarks (filter (supports_language "Thai") BENCHMARK_DATA)
              (getObjectiveWeights optimize_quality (resolveUseCase "customer support")))
    = best :: rest
    /\ voiceforge_recommend "Thai" "customer support" optimize_quality (Finite 5) markdown
       = Returns (mkResponse markdown
                    (RecommendRanked "Thai" (resolveUseCase "customer support")
                       optimize_quality (best :: rest))).
Proof.
  apply (proj1 (proj2 (C9_result_count_and_top_pick "Thai" "customer support"
                         optimize_quality (Finite 5) markdown)) "Thai").
  - vm_compute. reflexivity.
  - vm_compute. discriminate.
Defined.

(** * Unsupported language *)

(** C7, the code at language "Nigerian".  The benchmark operation returns
    status "error" with reason "unsupported-language", and its suggestions
    list is empty: no supported language contains or is contained in
    "nigerian", and no alias contains it. *)
Lemma C7_nigerian_suggestions_empty (localeCompare : string -> string -> comparison)
    (sort_by : SortKey) (output_format : ToolOutputFormat) :
  exists o,
    voiceforge_benchmark localeCompare (Some "Nigerian") None sort_by output_format
    = Returns (formatToolResponse output_format o)
    /\ benchmark_status o = status_error
    /\ benchmark_reason o = Some "unsupported-language"
    /\ benchmark_suggestions o = Some []
    /\ getLanguageSuggestions "Nigerian" = [].
Proof.
  exists (BenchmarkUnsupportedLanguage "Nigerian" []).
  repeat split; vm_compute; reflexivity.
Qed.

(** * Scaffold fallback *)

Lemma filter_head_split {A : Type} (f : A -> bool) (l : list A) (x : A) (rest : list A) :
  filter f l = x :: rest ->
  exists pre post,
    l = (pre ++ x :: post)%list /\ f x = true /\ forall y, In y pre -> f y = false.
Proof.
  induction l as [|y l IH]; simpl; [discriminate |].
  destruct (f y) eqn:E.
  - intros [= -> <-]. exists [], l. repeat split; auto. intros ? [].
  - intros H. destruct (IH H) as (pre & post & -> & Hx & Hpre).
    exists (y :: pre), post. repeat split; auto.
    intros z [<-|Hz]; auto.
Qed.

Lemma stack_key_injective (a b : BenchmarkEntry) :
  In a BENCHMARK_DATA -> In b BENCHMARK_DATA -> stack_key a = stack_key b -> a = b.
Proof.
  apply NoDup_map_injective, distinct_NoDup. vm_compute. reflexivity.
Qed.

Lemma use_case_weights_listed (use_case : string) (w : ScoreWeights.t) :
  getUseCaseWeights use_case = Weights w -> In w ENGINE_WEIGHTS.
Proof. apply (objective_weights_listed optimize_balanced). Qed.

Lemma sorted_after {A : Type} (R : A -> A -> Prop) (pre post : list A) (x y : A) :
  StronglySorted R (pre ++ x :: post) -> In y post -> R x y.
Proof.
  induction pre as [|a pre IH]; cbn [app]; intros Hs Hy.
  - apply StronglySorted_inv in Hs as [_ H]. rewrite Forall_forall in H. now apply H.
  - apply StronglySorted_inv in Hs as [Hs _]. now apply IH.
Qed.

Lemma key_compare_refl (a : Ranked) : key_compare a a <> Lt.
Proof.
  destruct key_compare_preorder as (Hs & _ & _).
  pose proof (Hs a a) as H. destruct (key_compare a a); cbn [CompOpp] in H; congruence.
Qed.

(** In the ranking of catalog rows under the weights of a use case no row
    is ranked before a row that precedes it in the result. *)
Lemma ranking_respected (entries : list BenchmarkEntry) (use_case : string)
    (pre post : list Ranked) (x y : Ranked) :
  (forall entry, In entry entries -> In entry BENCHMARK_DATA) ->
  rankBenchmarks entries (getUseCaseWeights use_case) = (pre ++ x :: post)%list ->
  y = x \/ In y post -> ~ ranks_before y x.
Proof.
  intros Hcat E Hy.
  destruct (getUseCaseWeights use_case) as [w|] eqn:Ew.
  - apply use_case_weights_listed in Ew.
    assert (Hscored : Forall rankable
              (map (fun entry => mkRanked entry (scoreBenchmark entry (Weights w)))
                   entries)).
    { apply Forall_forall. intros r Hr. apply in_map_iff in Hr as (e & <- & He).
      apply catalog_rankable; auto. }
    assert (Hranked : forall r, In r (pre ++ x :: post)%list -> rankable r).
    { rewrite <- E. intros r Hr.
      apply (Permutation_in _ (rankBenchmarks_perm entries (Weights w))) in Hr.
      rewrite Forall_forall in Hscored. now apply Hscored. }
    assert (Px : rankable x) by (apply Hranked, in_or_app; right; now left).
    pose proof (rankBenchmarks_sorted entries (Weights w) Hscored) as Hs.
    rewrite E in Hs.
    destruct Hy as [->|Hy].
    + rewrite (ranks_before_iff x x Px Px). apply key_compare_refl.
    + assert (Py : rankable y) by (apply Hranked, in_or_app; right; now right).
      rewrite (ranks_before_iff y x Py Px).
      pose proof (sorted_after _ pre post x y Hs Hy) as H. cbv beta in H.
      destruct key_compare_preorder as (Ha & _ & _).
      rewrite (Ha x y). destruct (key_compare x y); cbn [CompOpp]; congruence.
  - assert (Hnan : forall r, In r (pre ++ x :: post)%list -> score r = F64.NaN).
    { rewrite <- E. intros r Hr. now apply rankBenchmarks_in in Hr as [_ Hr]. }
    assert (Ex : score x = F64.NaN) by (apply Hnan, in_or_app; right; now left).
    unfold ranks_before. rewrite Ex.
    assert (L : forall v, F64.ltb F64.NaN v = false) by reflexivity.
    assert (Q : forall v, F64.eqb v F64.NaN = false) by (now intros []).
    rewrite L, Q. intuition discriminate.
Qed.

Lemma ranked_row_in_catalog (resolved : string) (weights : WeightsValue) (r : Ranked) :
  In r (rankBenchmarks (filter (supports_language resolved) BENCHMARK_DATA) weights) ->
  In (row r) BENCHMARK_DATA.
Proof.
  intros H. apply rankBenchmarks_in in H as [H _]. now apply filter_In in H.
Qed.

(** C6.  For a scaffold request whose language resolves, with at least one
    benchmark row for the language and at least one framework-compatible
    ranked row, the engine selects the best-ranked compatible row: the
    first compatible row of the ranking, before which no compatible row is
    ranked, as no row at all is ranked before the top row.  It hands the
    selected row to the template generator.  If the generator fails the
    operation reports that; otherwise it returns the selected stack, and
    the response carries a fallback notice if and only if the selected row
    is not the top-ranked row and the two scores differ by more than 2. *)
Theorem C6_scaffold_fallback
    (getLiveKitAgentTemplate getNextJSTemplate :
       ScaffoldConfig -> Completion (list TemplateFile))
    (now_ms language use_case : string) (framework : ScaffoldFramework)
    (agent_name output_dir : option string) (output_format : ToolOutputFormat)
    (resolved : string) :
  found (resolveLanguage language) = Some resolved ->
  filter (supports_language resolved) BENCHMARK_DATA <> [] ->
  (exists r,
      In r (rankBenchmarks (filter (supports_language resolved) BENCHMARK_DATA)
              (getUseCaseWeights (resolveUseCase use_case)))
      /\ isScaffoldCompatible (row r) framework = true) ->
  exists topPick rest pre best post config,
    rankBenchmarks (filter (supports_language resolved) BENCHMARK_DATA)
      (getUseCaseWeights (resolveUseCase use_case)) = topPick :: rest
    /\ topPick :: rest = (pre ++ best :: post)%list
    /\ isScaffoldCompatible (row best) framework = true
    /\ (forall r, In r pre -> isScaffoldCompatible (row r) framework = false)
    /\ (forall r, In r (topPick :: rest) -> ~ ranks_before r topPick)
    /\ (forall r, In r (topPick :: rest) ->
          isScaffoldCompatible (row r) framework = true -> ~ ranks_before r best)
    /\ (cfg_stt config, cfg_sttModel config, cfg_llm config, cfg_llmModel config,
        cfg_tts config, cfg_ttsModel config)
       = (stt (row best), sttModel (row best), llm (row best), llmModel (row best),
          tts (row best), ttsModel (row best))
    /\ (forall message,
          match framework with
          | livekit => getLiveKitAgentTemplate config
          | nextjs => getNextJSTemplate config
          end = Throws message ->
          voiceforge_scaffold getLiveKitAgentTemplate getNextJSTemplate now_ms
            language use_case framework agent_name output_dir output_format
          = Returns (formatToolResponse output_format (ScaffoldTemplateFailed message)))
    /\ (forall files,
          match framework with
          | livekit => getLiveKitAgentTemplate config
          | nextjs => getNextJSTemplate config
          end = Returns files ->
          exists result,
            voiceforge_scaffold getLiveKitAgentTemplate getNextJSTemplate now_ms
              language use_case framework agent_name output_dir output_format
            = Returns (formatToolResponse output_format (ScaffoldOk result))
            /\ sc_stack result = stack_of (row best)
            /\ sc_files result = files
            /\ (sc_fallback_notice result <> None <->
                row best <> row topPick /\ score_gap_exceeds topPick best 2)).
Proof.
  intros Hlang Hmatching (r & Hr & Hcompat).
  unfold voiceforge_scaffold. rewrite Hlang.
  rewrite (length_zero_false _ Hmatching).
  set (matching := filter (supports_language resolved) BENCHMARK_DATA) in *.
  set (ranked := rankBenchmarks matching (getUseCaseWeights (resolveUseCase use_case))) in *.
  assert (Hcatalog : forall x, In x ranked -> In (row x) BENCHMARK_DATA)
    by (intros x; apply ranked_row_in_catalog).
  assert (Hsub : forall entry, In entry matching -> In entry BENCHMARK_DATA)
    by (intros entry H; now apply filter_In in H).
  set (compatible := fun entry : Ranked => isScaffoldCompatible (row entry) framework).
  assert (Hsc : filter compatible ranked <> []).
  { intros E. assert (Hin : In r (filter compatible ranked))
      by (apply filter_In; split; [exact Hr | exact Hcompat]).
    rewrite E in Hin. destruct Hin. }
  rewrite (length_zero_false _ Hsc).
  destruct (filter compatible ranked) as [|best scaffoldable] eqn:Efilter; [congruence |].
  destruct (filter_head_split _ _ _ _ Efilter) as (pre & post & Hsplit & Hbest & Hpre).
  destruct ranked as [|topPick rest] eqn:Eranked; [destruct pre; discriminate |].
  cbn [nth_error].
  assert (Hbest_in : In best (topPick :: rest))
    by (rewrite Hsplit; apply in_or_app; right; now left).
  match goal with
  | |- context [match framework with
                | livekit => getLiveKitAgentTemplate ?c
                | nextjs => getNextJSTemplate ?c
                end] => set (config := c)
  end.
  exists topPick, rest, pre, best, post, config.
  split; [reflexivity |]. split; [exact Hsplit |]. split; [exact Hbest |].
  split; [exact Hpre |].
  split.
  { intros x Hx.
    apply (ranking_respected matching (resolveUseCase use_case) [] rest topPick x Hsub);
      [exact Eranked |].
    destruct Hx as [<-|Hx]; [now left | now right]. }
  split.
  { intros x Hx Hc.
    apply (ranking_respected matching (resolveUseCase use_case) pre post best x Hsub);
      [now rewrite <- Hsplit |].
    rewrite Hsplit in Hx. apply in_app_or in Hx as [Hx|[<-|Hx]];
      [| now left | now right].
    pose proof (Hpre x Hx) as Hf. unfold compatible in Hf. congruence. }
  split; [reflexivity |]. split.
  - intros message E.
    destruct (match framework with
              | livekit => getLiveKitAgentTemplate config
              | nextjs => getNextJSTemplate config
              end); [discriminate |]. now injection E as ->.
  - intros files E.
    destruct (match framework with
              | livekit => getLiveKitAgentTemplate config
              | nextjs => getNextJSTemplate config
              end) as [files'|]; [| discriminate]. injection E as ->.
    eexists. split; [reflexivity |]. cbn [sc_stack sc_files sc_fallback_notice].
    split; [reflexivity |]. split; [reflexivity |].
    unfold score_gap_exceeds.
    assert (Hkey : (stack_key (row topPick) =? stack_key (row best)) = true
                   <-> row best = row topPick).
    { rewrite String.eqb_eq. split; [| now intros ->].
      intros H. symmetry. apply stack_key_injective; auto.
      apply Hcatalog. now left. }
    assert (Hn : forall (c : bool) (n : FallbackNotice),
               (if c then Some n else None) <> None <-> c = true)
      by (intros [] n; split; congruence).
    rewrite Hn, andb_true_iff, negb_true_iff, <- Hkey.
    destruct (stack_key (row topPick) =? stack_key (row best)); split;
      intros [H1 H2]; split; congruence.
Qed.

Lemma C6_scaffold_fallback_witness :
  exists result best,
    voiceforge_scaffold no_files no_files "0" "Thai" "sales" livekit None None json
    = Returns (formatToolResponse json (ScaffoldOk result))
    /\ isScaffoldCompatible (row best) livekit = true
    /\ In (row best) BENCHMARK_DATA
    /\ sc_stack result = stack_of (row best)
    /\ sc_files result = [].
Proof.
  destruct (C6_scaffold_fallback no_files no_files "0" "Thai" "sales" livekit None None
              json "Thai")
    as (topPick & rest & pre & best & post & config & Hr & Hs & Hc & _ & _ & _ & _ & _
        & Hok).
  - vm_compute. reflexivity.
  - vm_compute. discriminate.
  - eexists. split; [vm_compute; right; left; reflexivity | vm_compute; reflexivity].
  - destruct (Hok [] eq_refl) as (result & H & Hstack & Hfiles & _).
    exists result, best.
    split; [exact H |]. split; [exact Hc |].
    split; [| split; [exact Hstack | exact Hfiles]].
    apply (ranked_row_in_catalog "Thai" (getUseCaseWeights (resolveUseCase "sales"))).
    rewrite Hr, Hs. apply in_or_app. right. now left.
Defined.

(** * Output format *)

Lemma computed_by_format {O : Type} (inj : O -> Computed) (a b : ToolOutputFormat)
    (o : O) :
  computed_by inj (Returns (formatToolResponse a o))
  = computed_by inj (Returns (formatToolResponse b o)).
Proof. destruct a, b; reflexivity. Qed.

Ltac format_cases :=
  repeat match goal with
  | |- computed_by _ (Returns (formatToolResponse _ _))
       = computed_by _ (Returns (formatToolResponse _ _)) => apply computed_by_format
  | |- computed_by _ (match ?x with _ => _ end)
       = computed_by _ (match ?x with _ => _ end) => destruct x
  | |- computed_by _ (if ?x then _ else _)
       = computed_by _ (if ?x then _ else _) => destruct x
  | |- ?a = ?a => reflexivity
  end.

Section Noninterference.

Variable localeCompare : string -> string -> comparison.
Variable getLiveKitAgentTemplate : ScaffoldConfig -> Completion (list TemplateFile).
Variable getNextJSTemplate : ScaffoldConfig -> Completion (list TemplateFile).
Variable now_iso : string.
Variable now_ms : string.

Lemma recommend_format (language use_case : string) (optimize_for : Objective)
    (max_results : SchemaNumber) :
  computed_by computed_recommend
    (voiceforge_recommend language use_case optimize_for max_results markdown)
  = computed_by computed_recommend
      (voiceforge_recommend language use_case optimize_for max_results json).
Proof.
  destruct (found (resolveLanguage language)) as [resolved|] eqn:E.
  - destruct (List.length (filter (supports_language resolved) BENCHMARK_DATA) =? 0)%nat
      eqn:El.
    + unfold voiceforge_recommend. rewrite E, El. reflexivity.
    + assert (Hne : filter (supports_language resolved) BENCHMARK_DATA <> [])
        by (intros H; rewrite H in El; discriminate).
      destruct (recommend_ranked language use_case optimize_for max_results markdown
                  resolved E Hne) as (best & rest & Htop & ->).
      destruct (recommend_ranked language use_case optimize_for max_results json
                  resolved E Hne) as (best' & rest' & Htop' & ->).
      rewrite Htop in Htop'. injection Htop' as <- <-. reflexivity.
  - unfold voiceforge_recommend. rewrite E. reflexivity.
Qed.

Lemma benchmark_format (language provider_ : option string) (sort_by : SortKey) :
  computed_by computed_benchmark
    (voiceforge_benchmark localeCompare language provider_ sort_by markdown)
  = computed_by computed_benchmark
      (voiceforge_benchmark localeCompare language provider_ sort_by json).
Proof. unfold voiceforge_benchmark. format_cases. Qed.

Lemma compare_format (combo_a combo_b : string) :
  computed_by computed_compare (voiceforge_compare localeCompare combo_a combo_b markdown)
  = computed_by computed_compare (voiceforge_compare localeCompare combo_a combo_b json).
Proof. unfold voiceforge_compare. format_cases. Qed.

Lemma scaffold_format (language use_case : string) (framework : ScaffoldFramework)
    (agent_name output_dir : option string) :
  computed_by computed_scaffold
    (voiceforge_scaffold getLiveKitAgentTemplate getNextJSTemplate now_ms
       language use_case framework agent_name output_dir markdown)
  = computed_by computed_scaffold
      (voiceforge_scaffold getLiveKitAgentTemplate getNextJSTemplate now_ms
         language use_case framework agent_name output_dir json).
Proof. unfold voiceforge_scaffold. format_cases. Qed.

Lemma health_format (verbose : bool) :
  computed_by computed_health (voiceforge_health now_iso verbose markdown)
  = computed_by computed_health (voiceforge_health now_iso verbose json).
Proof. unfold voiceforge_health. format_cases. Qed.

Lemma providers_format (category : CategoryFilter) :
  computed_by computed_providers (voiceforge_providers category markdown)
  = computed_by computed_providers (voiceforge_providers category json).
Proof. unfold voiceforge_providers. format_cases. Qed.

Lemma config_format (agent_name stt_provider stt_model llm_provider llm_model
    tts_provider tts_model language use_case : string) :
  computed_by computed_config
    (voiceforge_config now_iso agent_name stt_provider stt_model llm_provider llm_model
       tts_provider tts_model language use_case markdown)
  = computed_by computed_config
      (voiceforge_config now_iso agent_name stt_provider stt_model llm_provider llm_model
         tts_provider tts_model language use_case json).
Proof. unfold voiceforge_config. format_cases. Qed.

Lemma validate_format (stt_provider stt_model llm_provider llm_model tts_provider
    tts_model : string) (framework : ValidateFramework) :
  validate_warnings stt_provider stt_model llm_provider llm_model tts_provider tts_model
  = [] ->
  computed_by computed_validate
    (voiceforge_validate localeCompare stt_provider stt_model llm_provider llm_model
       tts_provider tts_model framework markdown)
  = computed_by computed_validate
      (voiceforge_validate localeCompare stt_provider stt_model llm_provider llm_model
         tts_provider tts_model framework json).
Proof.
  unfold validate_warnings, voiceforge_validate.
  destruct (found (resolveProvider stt_provider)) as [resolved_stt|]; [| reflexivity].
  destruct (found (resolveProvider llm_provider)) as [resolved_llm|]; [| reflexivity].
  destruct (found (resolveProvider tts_provider)) as [resolved_tts|]; [| reflexivity].
  intros ->. cbn [List.length Nat.ltb Nat.leb]. format_cases.
Qed.

End Noninterference.

Lemma validate_with_warnings (localeCompare : string -> string -> comparison)
    (stt_provider stt_model llm_provider llm_model tts_provider tts_model : string)
    (framework : ValidateFramework) :
  validate_warnings stt_provider stt_model llm_provider llm_model tts_provider tts_model
  <> [] ->
  (exists o,
      voiceforge_validate localeCompare stt_provider stt_model llm_provider llm_model
        tts_provider tts_model framework json = Returns (formatToolResponse json o)
      /\ validate_status o = status_warning
      /\ validate_reason o = Some "unsupported-model")
  /\ (exists o,
        voiceforge_validate localeCompare stt_provider stt_model llm_provider llm_model
          tts_provider tts_model framework markdown
        = Returns (formatToolResponse markdown o)
        /\ validate_status o <> status_warning).
Proof.
  unfold validate_warnings, voiceforge_validate.
  destruct (found (resolveProvider stt_provider)) as [resolved_stt|]; [| congruence].
  destruct (found (resolveProvider llm_provider)) as [resolved_llm|]; [| congruence].
  destruct (found (resolveProvider tts_provider)) as [resolved_tts|]; [| congruence].
  set (combo := normalized_combo resolved_stt stt_model resolved_llm llm_model
                  resolved_tts tts_model).
  intros Hw.
  assert (E : (0 <? List.length (unknown_models combo))%nat = true)
    by (destruct (unknown_models combo); [congruence | reflexivity]).
  rewrite E. cbv beta iota zeta. split.
  - eexists. split; [reflexivity |]. split; reflexivity.
  - match goal with
    | |- context [(List.length (filter ?f BENCHMARK_DATA) =? 0)%nat] =>
        set (matches := filter f BENCHMARK_DATA)
    end.
    destruct (List.length matches =? 0)%nat eqn:Em.
    + eexists. split; [reflexivity |]. discriminate.
    + pose proof (rankBenchmarks_length matches (getUseCaseWeights "customer-support"))
        as Hlen.
      destruct (rankBenchmarks matches (getUseCaseWeights "customer-support"))
        as [|top scored_rest].
      * destruct matches; discriminate.
      * eexists. split; [reflexivity |]. discriminate.
Qed.

(** The [providers] field of the JSON payload holds the rows of the computed
    table in either shape. *)
Lemma providers_payload_same_rows (category : ProviderCategory) :
  providers_payload_field json (filter_only category)
    [(category, PROVIDER_INFO category)] = inr (Some (PROVIDER_INFO category))
  /\ providers_payload_field markdown (filter_only category)
       [(category, PROVIDER_INFO category)] = inl [(category, PROVIDER_INFO category)].
Proof. destruct category; split; reflexivity. Qed.

(** C5 (as the code has it).  For every operation other than a validate
    call that raises a model warning, running it with markdown and with
    json computes the same result: the same return site with the same
    status, reason, rows and decision.  A validate call that raises a model
    warning returns under json the warning itself (status "warning", reason
    "unsupported-model") and under markdown goes on to match the stack
    against the catalog and returns the outcome of that match, whose status
    is not "warning". *)
Theorem C5_output_format
    (localeCompare : string -> string -> comparison)
    (getLiveKitAgentTemplate getNextJSTemplate :
       ScaffoldConfig -> Completion (list TemplateFile))
    (now_iso now_ms : string) (op : Operation) :
  ((forall sp sm lp lm tp tm fw,
       op = OpValidate sp sm lp lm tp tm fw -> validate_warnings sp sm lp lm tp tm = []) ->
   run localeCompare getLiveKitAgentTemplate getNextJSTemplate now_iso now_ms op markdown
   = run localeCompare getLiveKitAgentTemplate getNextJSTemplate now_iso now_ms op json)
  /\ (forall sp sm lp lm tp tm fw,
        op = OpValidate sp sm lp lm tp tm fw ->
        validate_warnings sp sm lp lm tp tm <> [] ->
        validate_result_status
          (run localeCompare getLiveKitAgentTemplate getNextJSTemplate now_iso now_ms
             op json) = Some status_warning
        /\ validate_result_reason
             (run localeCompare getLiveKitAgentTemplate getNextJSTemplate now_iso now_ms
                op json) = Some "unsupported-model"
        /\ exists status,
             validate_result_status
               (run localeCompare getLiveKitAgentTemplate getNextJSTemplate now_iso
                  now_ms op markdown) = Some status
             /\ status <> status_warning).
Proof.
  split.
  - intros Hvalidate. destruct op; cbn [run].
    + apply recommend_format.
    + apply benchmark_format.
    + apply compare_format.
    + apply scaffold_format.
    + apply validate_format. eapply Hvalidate. reflexivity.
    + apply health_format.
    + apply providers_format.
    + apply config_format.
  - intros sp sm lp lm tp tm fw -> Hw. cbn [run].
    destruct (validate_with_warnings localeCompare sp sm lp lm tp tm fw Hw)
      as [(oj & -> & Hs & Hr) (om & -> & Hm)].
    cbn. rewrite Hs, Hr. repeat split. exists (validate_status om). now split.
Qed.

Lemma C5_output_format_witness :
  run String.compare no_files no_files "2026-02-15T00:00:00Z" "0"
      (OpValidate "Deepgram" "nova-3" "OpenAI" "gpt-4.1-mini" "Cartesia" "sonic-3"
         validate_all) markdown
  = run String.compare no_files no_files "2026-02-15T00:00:00Z" "0"
      (OpValidate "Deepgram" "nova-3" "OpenAI" "gpt-4.1-mini" "Cartesia" "sonic-3"
         validate_all) json.
Proof.
  apply (proj1 (C5_output_format String.compare no_files no_files
                  "2026-02-15T00:00:00Z" "0"
                  (OpValidate "Deepgram" "nova-3" "OpenAI" "gpt-4.1-mini" "Cartesia"
                     "sonic-3" validate_all))).
  intros sp sm lp lm tp tm fw [= <- <- <- <- <- <- _]. vm_compute. reflexivity.
Defined.

(** C5, counterexample.  Validating Deepgram nova-3 + OpenAI
    gpt-not-a-real-model + Cartesia sonic-3 returns under json the warning
    "unsupported-model" and under markdown the error "no-exact-match". *)
Lemma C5_counterexample :
  validate_result_status
    (run String.compare no_files no_files "2026-02-15T00:00:00Z" "0"
       (OpValidate "Deepgram" "nova-3" "OpenAI" "gpt-not-a-real-model" "Cartesia"
          "sonic-3" validate_all) json) = Some status_warning
  /\ validate_result_reason
       (run String.compare no_files no_files "2026-02-15T00:00:00Z" "0"
          (OpValidate "Deepgram" "nova-3" "OpenAI" "gpt-not-a-real-model" "Cartesia"
             "sonic-3" validate_all) json) = Some "unsupported-model"
  /\ validate_result_status
       (run String.compare no_files no_files "2026-02-15T00:00:00Z" "0"
          (OpValidate "Deepgram" "nova-3" "OpenAI" "gpt-not-a-real-model" "Cartesia"
             "sonic-3" validate_all) markdown) = Some status_error
  /\ validate_result_reason
       (run String.compare no_files no_files "2026-02-15T00:00:00Z" "0"
          (OpValidate "Deepgram" "nova-3" "OpenAI" "gpt-not-a-real-model" "Cartesia"
             "sonic-3" validate_all) markdown) = Some "no-exact-match".
Proof. repeat split; vm_compute; reflexivity. Qed.

(** * Use-case resolution *)

Lemma lookup_none_not_in {A : Type} (table : list (string * A)) (key : string) :
  lookup table key = None -> ~ In key (map fst table).
Proof.
  induction table as [|[k v] table IH]; simpl; [tauto |].
  destruct (k =? key) eqn:E; [discriminate |].
  apply String.eqb_neq in E. intros H [H'|H']; [congruence | now apply IH].
Qed.

Lemma alias_keys_have_priorities (entry : string * list string) :
  In entry USE_CASE_ALIASES -> lookup USE_CASE_PRIORITIES (fst entry) <> None.
Proof.
  intros H. simpl in H.
  repeat (destruct H as [<-|H]; [vm_compute; discriminate |]).
  destruct H.
Qed.

Lemma priorities_keys_resolve (key : string) (w : ScoreWeights.t) :
  lookup USE_CASE_PRIORITIES key = Some w -> resolveUseCase key = key.
Proof.
  intros H. apply lookup_in in H. simpl in H.
  repeat (destruct H as [[= <- <-]|H]; [vm_compute; reflexivity |]).
  destruct H.
Qed.

(** The only member of [Object.prototype] that a normalized use case can
    name is "constructor". *)
Lemma inherited_normal (s : string) :
  normal "-" s = true ->
  existsb (String.eqb s) OBJECT_PROTOTYPE_KEYS = true -> s = "constructor".
Proof.
  intros Hn H. apply existsb_exists in H as (k & Hk & E).
  apply String.eqb_eq in E. subst k. simpl in Hk.
  destruct Hk as [<-|Hk]; [reflexivity |].
  repeat (destruct Hk as [<-|Hk]; [vm_compute in Hn; discriminate |]).
  destruct Hk.
Qed.

Lemma resolveUseCase_of_normalized (use_case : string) :
  resolveUseCase (normalizeUseCase use_case) = resolveUseCase use_case.
Proof. unfold resolveUseCase. now rewrite normalizeUseCase_idempotent. Qed.

Lemma resolveUseCase_unresolved (use_case : string) :
  lookup USE_CASE_PRIORITIES (resolveUseCase use_case) = None ->
  resolveUseCase use_case = normalizeUseCase use_case.
Proof.
  unfold resolveUseCase.
  destruct (property_truthy _); [reflexivity |].
  match goal with
  | |- context [find ?f USE_CASE_ALIASES] =>
      destruct (find f USE_CASE_ALIASES) as [entry|] eqn:E
  end; [| reflexivity].
  intros H. apply find_some in E as [E _].
  now apply alias_keys_have_priorities in E.
Qed.

Lemma resolveUseCase_normalized (a b : string) :
  normalizeUseCase a = normalizeUseCase b -> resolveUseCase a = resolveUseCase b.
Proof. intros E. unfold resolveUseCase. now rewrite E. Qed.

Lemma find_same {A : Type} (f g : A -> bool) (l : list A) :
  (forall a, f a = g a) -> find f l = find g l.
Proof.
  intros H. induction l as [|a l IH]; simpl; [reflexivity |].
  now rewrite H, IH.
Qed.

(** The resolution with the test of the alias table named. *)
Lemma resolveUseCase_matches (use_case : string) :
  resolveUseCase use_case
  = if property_truthy (get_property USE_CASE_PRIORITIES (normalizeUseCase use_case))
    then normalizeUseCase use_case
    else match find (use_case_matches (normalizeUseCase use_case)) USE_CASE_ALIASES with
         | Some entry => fst entry
         | None => normalizeUseCase use_case
         end.
Proof.
  unfold resolveUseCase.
  destruct (property_truthy _); [reflexivity |].
  erewrite find_same; [reflexivity |].
  intros [key aliases]. reflexivity.
Qed.

Lemma key_resolves (use_case key : string) (w : ScoreWeights.t) :
  lookup USE_CASE_PRIORITIES key = Some w -> normalizeUseCase use_case = key ->
  resolveUseCase use_case = key /\ getUseCaseWeights use_case = Weights w.
Proof.
  intros H E.
  assert (R : resolveUseCase use_case = key).
  { unfold resolveUseCase. rewrite E. unfold get_property. now rewrite H. }
  split; [exact R |]. unfold getUseCaseWeights, get_property. now rewrite R, H.
Qed.

(** Every alias of the table but "appointment" resolves to the key it is
    listed under. *)
Lemma use_case_aliases_resolve (key : string) (aliases : list string) (a : string) :
  In (key, aliases) USE_CASE_ALIASES -> In a aliases -> a <> "appointment" ->
  resolveUseCase a = key.
Proof.
  intros He Ha Hne.
  assert (H : forallb
                (fun e : string * list string =>
                   forallb (fun a => (a =? "appointment")
                                     || (resolveUseCase a =? fst e))
                           (snd e))
                USE_CASE_ALIASES = true)
    by (vm_compute; reflexivity).
  rewrite forallb_forall in H. specialize (H _ He). cbn [fst snd] in H.
  rewrite forallb_forall in H. specialize (H a Ha).
  apply orb_true_iff in H as [H|H]; apply String.eqb_eq in H;
    [contradiction | exact H].
Qed.

Lemma use_case_weights_of_key (use_case : string) (w : ScoreWeights.t) :
  lookup USE_CASE_PRIORITIES (resolveUseCase use_case) = Some w ->
  getUseCaseWeights use_case = Weights w
  /\ getObjectiveWeights optimize_balanced (resolveUseCase use_case) = Weights w.
Proof.
  intros H.
  assert (Hw : getUseCaseWeights use_case = Weights w).
  { unfold getUseCaseWeights, get_property. now rewrite H. }
  split; [exact Hw |].
  cbn [getObjectiveWeights]. unfold getUseCaseWeights.
  rewrite (priorities_keys_resolve _ _ H). unfold get_property. now rewrite H.
Qed.

Lemma not_inherited (s : string) :
  normal "-" s = true -> s <> "constructor" ->
  existsb (String.eqb s) OBJECT_PROTOTYPE_KEYS = false.
Proof.
  intros Hn Hc. destruct (existsb _ _) eqn:E; [| reflexivity].
  exfalso. apply Hc. now apply inherited_normal.
Qed.

(** C8 (as the code has it).  A use case resolves to a canonical key when
    its normalized form (lowercased, runs of other characters than a-z and
    0-9 turned into single hyphens, none at the ends) is that key, and
    otherwise to the key of the first entry of the alias table that matches
    the normalized form; every alias of the table but "appointment"
    resolves to the key it is listed under.  The engine then uses the
    priority weights configured for the key.  When the use case does not
    resolve, the engine passes on the normalized form of the text, not the
    text as typed, and, unless that form is "constructor", scores with the
    default weights (70, 70, 60); no error is produced. *)
Theorem C8_use_case_weights (use_case : string) :
  (forall w,
      lookup USE_CASE_PRIORITIES (resolveUseCase use_case) = Some w ->
      getUseCaseWeights use_case = Weights w
      /\ getObjectiveWeights optimize_balanced (resolveUseCase use_case) = Weights w)
  /\ (forall key w,
        lookup USE_CASE_PRIORITIES key = Some w -> normalizeUseCase use_case = key ->
        resolveUseCase use_case = key /\ getUseCaseWeights use_case = Weights w)
  /\ (forall key aliases alias_,
        In (key, aliases) USE_CASE_ALIASES -> In alias_ aliases ->
        alias_ <> "appointment" ->
        normalizeUseCase use_case = normalizeUseCase alias_ ->
        resolveUseCase use_case = key
        /\ exists w,
             lookup USE_CASE_PRIORITIES key = Some w
             /\ getUseCaseWeights use_case = Weights w)
  /\ (lookup USE_CASE_PRIORITIES (normalizeUseCase use_case) = None ->
      normalizeUseCase use_case <> "constructor" ->
      forall key,
        (resolveUseCase use_case = key /\ lookup USE_CASE_PRIORITIES key <> None) <->
        exists pre aliases post,
          USE_CASE_ALIASES = (pre ++ (key, aliases) :: post)%list
          /\ use_case_matches (normalizeUseCase use_case) (key, aliases) = true
          /\ forall entry, In entry pre ->
               use_case_matches (normalizeUseCase use_case) entry = false)
  /\ (lookup USE_CASE_PRIORITIES (resolveUseCase use_case) = None ->
      resolveUseCase use_case = normalizeUseCase use_case
      /\ (resolveUseCase use_case <> "constructor" ->
          getUseCaseWeights use_case = Weights (weights 70 70 60)
          /\ getObjectiveWeights optimize_balanced (resolveUseCase use_case)
             = Weights (weights 70 70 60))).
Proof.
  split; [intros w; apply use_case_weights_of_key |].
  split; [intros key w; apply key_resolves |].
  split; [| split].
  - intros key aliases alias_ He Ha Hne E.
    assert (R : resolveUseCase use_case = key).
    { rewrite (resolveUseCase_normalized use_case alias_ E).
      now apply (use_case_aliases_resolve key aliases). }
    split; [exact R |].
    destruct (lookup USE_CASE_PRIORITIES key) as [w|] eqn:L.
    + exists w. split; [reflexivity |].
      rewrite <- R in L. exact (proj1 (use_case_weights_of_key use_case w L)).
    + exfalso. now apply (alias_keys_have_priorities (key, aliases) He).
  - intros Hnone Hc key.
    rewrite resolveUseCase_matches. unfold get_property. rewrite Hnone.
    rewrite (not_inherited _ (normalizeUseCase_normal use_case) Hc).
    cbn [property_truthy].
    destruct (find (use_case_matches (normalizeUseCase use_case)) USE_CASE_ALIASES)
      as [[k al]|] eqn:F.
    + cbn [fst]. split.
      * intros [<- _]. apply find_split in F as (pre & post & E & Hm & Hpre).
        now exists pre, al, post.
      * intros (pre & aliases & post & E & Hm & Hpre).
        assert (F' : find (use_case_matches (normalizeUseCase use_case)) USE_CASE_ALIASES
                     = Some (key, aliases))
          by (apply find_split; now exists pre, post).
        rewrite F in F'. injection F' as -> ->. split; [reflexivity |].
        apply (alias_keys_have_priorities (key, aliases)).
        rewrite E. apply in_or_app. right. now left.
    + split.
      * intros [<- H]. now rewrite Hnone in H.
      * intros (pre & aliases & post & E & Hm & Hpre).
        assert (F' : find (use_case_matches (normalizeUseCase use_case)) USE_CASE_ALIASES
                     = Some (key, aliases))
          by (apply find_split; now exists pre, post).
        rewrite F in F'. discriminate.
  - intros H. pose proof (resolveUseCase_unresolved use_case H) as Hn.
    split; [exact Hn |]. intros Hc.
    assert (Hw : getUseCaseWeights use_case = Weights (weights 70 70 60)).
    { unfold getUseCaseWeights, get_property. rewrite H.
      rewrite not_inherited; [reflexivity | | exact Hc].
      rewrite Hn. apply normalizeUseCase_normal. }
    split; [exact Hw |].
    cbn [getObjectiveWeights]. unfold getUseCaseWeights in *.
    rewrite Hn at 1. rewrite resolveUseCase_of_normalized. exact Hw.
Qed.

Lemma C8_use_case_weights_witness :
  getUseCaseWeights "customer support" = Weights (weights 60 90 60)
  /\ (resolveUseCase "Collections-Team" = "debt-collections"
      /\ exists w,
           lookup USE_CASE_PRIORITIES "debt-collections" = Some w
           /\ getUseCaseWeights "Collections-Team" = Weights w)
  /\ getUseCaseWeights "Pizza Delivery" = Weights (weights 70 70 60).
Proof.
  split; [| split].
  - refine (proj1 (proj1 (C8_use_case_weights "customer support") _ _)).
    vm_compute. reflexivity.
  - refine (proj1 (proj2 (proj2 (C8_use_case_weights "Collections-Team")))
              "debt-collections"
              ["debt collection"; "collections"; "collection"; "collections team"]
              "collections team" _ _ _ _).
    + vm_compute. tauto.
    + vm_compute. tauto.
    + discriminate.
    + vm_compute. reflexivity.
  - refine (proj1 (proj2 (proj2 (proj2 (proj2 (proj2
              (C8_use_case_weights "Pizza Delivery")))) _) _)).
    + vm_compute. reflexivity.
    + vm_compute. discriminate.
Defined.

(** C8, counterexample.  "Pizza Delivery" resolves to no canonical key and
    is passed on as "pizza-delivery", not as typed. *)
Lemma C8_counterexample :
  lookup USE_CASE_PRIORITIES (resolveUseCase "Pizza Delivery") = None
  /\ resolveUseCase "Pizza Delivery" = "pizza-delivery"
  /\ resolveUseCase "Pizza Delivery" <> "Pizza Delivery".
Proof.
  split; [vm_compute; reflexivity |]. split; [vm_compute; reflexivity |].
  vm_compute. discriminate.
Qed.

(** * Scenarios of the end-to-end tests and of the README *)

Example scenario_unknown_provider :
  exists providers,
    voiceforge_benchmark String.compare None (Some "NopeAI") sort_quality json
    = Returns (formatToolResponse json (BenchmarkUnsupportedProvider "NopeAI" providers))
    /\ List.length providers = 11%nat.
Proof. eexists. split; vm_compute; reflexivity. Qed.

Example scenario_compare_aliases :
  match voiceforge_compare String.compare
          "deepgram nova-3 + open ai gpt-4.1-mini + cartesia sonic-3"
          "AssemblyAI universal-3-pro + OpenAI gpt-4.1-mini + Cartesia sonic-3" json with
  | Returns response =>
      match outcome response with
      | CompareOk result =>
          candidates_a result = 1%nat /\ candidates_b result = 1%nat
          /\ winner_latency result = "A" /\ winner_quality result = "A"
          /\ winner_cost result = "A"
      | _ => False
      end
  | Throws _ => False
  end.
Proof. vm_compute. repeat split. Qed.

Example scenario_compare_no_match :
  voiceforge_compare String.compare
    "Deepgram nova-3 + OpenAI gpt-4.1-mini + Cartesia sonic-3"
    "Deepgram nova-3 + OpenAI gpt-4.999 + Cartesia sonic-3" json
  = Returns (formatToolResponse json
               (CompareNoMatch "Deepgram nova-3 + OpenAI gpt-4.1-mini + Cartesia sonic-3"
                  "Deepgram nova-3 + OpenAI gpt-4.999 + Cartesia sonic-3" 1 0)).
Proof. vm_compute. reflexivity. Qed.

Example scenario_validate_unknown_model :
  exists requested supported,
    voiceforge_validate String.compare "Deepgram" "nova-3" "OpenAI"
      "gpt-not-a-real-model" "Cartesia" "sonic-3" validate_all json
    = Returns (formatToolResponse json
                 (ValidateUnsupportedModel ["llm"] requested supported)).
Proof. eexists. eexists. vm_compute. reflexivity. Qed.

Example scenario_config_resolves_providers :
  match voiceforge_config "2026-02-15T00:00:00Z" "yc-demo-agent" "deepgram" "nova-3"
          "open ai" "gpt-4.1-mini" "cartesia" "sonic-3" "English" "customer support"
          json with
  | Returns response =>
      match outcome response with
      | ConfigGenerated status config _ unknown _ =>
          status = status_ok /\ unknown = (false, false, false)
          /\ ac_stt_provider config = "Deepgram" /\ ac_llm_provider config = "OpenAI"
          /\ ac_tts_provider config = "Cartesia"
      | _ => False
      end
  | Throws _ => False
  end.
Proof. vm_compute. repeat split. Qed.

Example scenario_health_counts :
  match voiceforge_health "2026-02-15T00:00:00Z" false json with
  | Returns response =>
      h_supported_languages (outcome response) = 10%nat
      /\ List.length (h_coverage_by_language (outcome response)) = 10%nat
      /\ h_total_benchmarks (outcome response) = 12%nat
      /\ h_data_snapshot (outcome response) = "2026-02-15T00:00:00Z"
  | Throws _ => False
  end.
Proof. vm_compute. repeat split. Qed.

(** README: the best stack for Thai debt collections. *)
Example scenario_thai_debt_collections :
  match voiceforge_recommend "Thai" "debt collections" optimize_balanced (Finite 5) json with
  | Returns response =>
      match outcome response with
      | RecommendRanked language use_case _ (best :: _) =>
          language = "Thai" /\ use_case = "debt-collections"
          /\ stack_of (row best)
             = mkStack "Deepgram" "nova-3" "ElevenLabs" "eleven-turbo"
                       "ElevenLabs" "eleven_v3"
      | _ => False
      end
  | Throws _ => False
  end.
Proof. vm_compute. repeat split. Qed.

(** * Further properties of the text normalization *)

Lemma lower_char_idempotent (c : ascii) :
  Js.lower_char (Js.lower_char c) = Js.lower_char c.
Proof.
  destruct c as [[] [] [] [] [] [] [] []]; vm_compute; reflexivity.
Qed.

Lemma toLowerCase_idempotent (s : string) :
  Js.toLowerCase (Js.toLowerCase s) = Js.toLowerCase s.
Proof.
  induction s as [|c s IH]; simpl; [reflexivity |].
  now rewrite lower_char_idempotent, IH.
Qed.

Lemma normalizeTerm_lower (value : string) :
  normalizeTerm (Js.toLowerCase value) = normalizeTerm value.
Proof. unfold normalizeTerm. now rewrite toLowerCase_idempotent. Qed.

(** A normal form with single spaces is a fixed point of [normalizeTerm]. *)
Lemma normalizeTerm_fixed (s : string) :
  normal " " s = true -> normalizeTerm s = s.
Proof.
  intros H. destruct (normal_case _ _ H) as [->|E]; [reflexivity |].
  unfold normalizeTerm, Js.trim.
  rewrite (toLowerCase_normal " " true s eq_refl E).
  rewrite (replace_runs_top " " eq_refl (fun c => negb (Js.is_alnum c)) " " s eq_refl);
    [| intros c Hc; now rewrite Hc | exact E].
  rewrite subst_same.
  rewrite (trimStart_normal " " _ E), (trimEnd_normal true _ E).
  rewrite (replace_runs_top " " eq_refl Js.is_space " " _ eq_refl alnum_not_space E).
  apply subst_same.
Qed.

Lemma normalizeTerm_idempotent (value : string) :
  normalizeTerm (normalizeTerm value) = normalizeTerm value.
Proof. apply normalizeTerm_fixed, normalizeTerm_normal. Qed.

(** X1.  [normalizeTerm] is idempotent, it ignores the case of its input,
    and its fixed points are exactly the normal forms: words of [a-z0-9]
    separated by single spaces, with no space in front or at the end. *)
Theorem X1_normalizeTerm_fixed_points (value : string) :
  normalizeTerm (normalizeTerm value) = normalizeTerm value
  /\ normalizeTerm (Js.toLowerCase value) = normalizeTerm value
  /\ (normalizeTerm value = value <-> normal " " value = true).
Proof.
  split; [apply normalizeTerm_idempotent |].
  split; [apply normalizeTerm_lower |].
  split; [| apply normalizeTerm_fixed].
  intros E. rewrite <- E. apply normalizeTerm_normal.
Qed.

Lemma normal_some_from (sep : ascii) (s : string) :
  normal sep s = true -> exists b, normal_from sep b s = true.
Proof.
  intros H. destruct (normal_case _ _ H) as [->|E]; [now exists false | now exists true].
Qed.

Lemma subst_back_normal (s : string) :
  normal " " s = true -> subst_char "-" " " (subst_char " " "-" s) = s.
Proof.
  intros H. destruct (normal_some_from _ _ H) as [b Hb].
  now apply (subst_back " " eq_refl "-" b).
Qed.

Lemma normalizeModel_term (model : string) :
  normalizeModel model = subst_char " " "-" (normalizeTerm model).
Proof. apply (normalizeUseCase_subst model). Qed.

Lemma modelMatches_iff (a b : string) :
  modelMatches a b = true <-> normalizeTerm a = normalizeTerm b.
Proof.
  unfold modelMatches. rewrite eqb_iff, !normalizeModel_term. split.
  - intros E.
    rewrite <- (subst_back_normal _ (normalizeTerm_normal a)).
    rewrite <- (subst_back_normal _ (normalizeTerm_normal b)).
    now rewrite E.
  - now intros ->.
Qed.

(** X2.  Two model names match exactly when their normalized terms agree:
    case, punctuation and the amount of white space do not matter.  Matching
    is symmetric and unchanged when a name is replaced by its normalized
    form. *)
Theorem X2_modelMatches_normalized (a b : string) :
  (modelMatches a b = true <-> normalizeTerm a = normalizeTerm b)
  /\ modelMatches (normalizeModel a) b = modelMatches a b
  /\ modelMatches (Js.toLowerCase a) b = modelMatches a b
  /\ modelMatches a b = modelMatches b a.
Proof.
  split; [apply modelMatches_iff |].
  split; [| split].
  - unfold modelMatches.
    change (normalizeModel (normalizeModel a))
      with (normalizeUseCase (normalizeUseCase a)).
    now rewrite normalizeUseCase_idempotent.
  - unfold modelMatches, normalizeModel. now rewrite normalizeTerm_lower.
  - unfold modelMatches. apply String.eqb_sym.
Qed.

(** * The agent-name slug *)

Lemma normal_last_alnum (sep : ascii) (b : bool) (s : string) :
  normal_from sep b s = true -> s <> "" ->
  exists c t, Js.rev s = String c t /\ Js.is_alnum c = true.
Proof.
  revert b. induction s as [|c s IH]; intros b H Hne; [congruence |].
  destruct s as [|d s'].
  - simpl in H |- *. destruct (Js.is_alnum c) eqn:Ec; [now exists c, "" |].
    destruct (Ascii.eqb c sep); [| discriminate].
    now rewrite andb_false_r in H.
  - assert (Hs : exists b', normal_from sep b' (String d s') = true).
    { cbn [normal_from] in H. destruct (Js.is_alnum c); [now exists false |].
      destruct (Ascii.eqb c sep); [| discriminate].
      apply andb_true_iff in H as [_ H]. now exists true. }
    destruct Hs as [b' Hs].
    destruct (IH b' Hs) as (e & t & E & He); [discriminate |].
    change (Js.rev (String c (String d s')))
      with (Js.rev (String d s') ++ String c "").
    rewrite E. now exists e, (t ++ String c "").
Qed.

Lemma normal_first_alnum (sep : ascii) (s : string) :
  normal_from sep true s = true ->
  exists c t, s = String c t /\ Js.is_alnum c = true.
Proof.
  destruct s as [|c s]; [discriminate |]. simpl.
  destruct (Js.is_alnum c) eqn:Ec; [now exists c, s |].
  destruct (Ascii.eqb c sep); discriminate.
Qed.

Lemma alnum_not_hyphen (c : ascii) : Js.is_alnum c = true -> (Js.code c =? 45)%nat = false.
Proof.
  destruct c as [[] [] [] [] [] [] [] []]; vm_compute; congruence.
Qed.

Lemma slice_to_length (n : nat) (s : string) :
  (String.length (Js.slice_to n s) <= n)%nat.
Proof.
  revert s. induction n as [|n IH]; intros [|c s]; simpl; try lia.
  specialize (IH s). lia.
Qed.

Lemma slice_to_loose (sep : ascii) (n : nat) (b : bool) (s : string) :
  loose_from sep b s = true -> loose_from sep b (Js.slice_to n s) = true.
Proof.
  revert b s. induction n as [|n IH]; intros b [|c s]; simpl; auto.
  destruct (Js.is_alnum c); [apply IH |].
  destruct (Ascii.eqb c sep); [| discriminate].
  rewrite !andb_true_iff. intros [H1 H2]. split; [exact H1 | now apply IH].
Qed.

Lemma toSafeSlug_normalizeUseCase (value : string) :
  toSafeSlug value = Js.slice_to 80 (normalizeUseCase value).
Proof.
  destruct (normalizeUseCase_subst value) as [Eu Hu].
  pose (strip := fun s : string => match s with String "-" rest => rest | _ => s end).
  assert (S1 : forall e v, Js.is_alnum e = true -> strip (String e v) = String e v).
  { intros e v He. destruct e as [[] [] [] [] [] [] [] []]; try reflexivity.
    vm_compute in He. discriminate. }
  change (toSafeSlug value)
    with (Js.slice_to 80
            (Js.rev (strip (Js.rev (strip
               (Js.replace_runs (fun c => (Js.code c =? 45)%nat) "-"
                  (Js.replace_runs (fun c => negb (Js.is_alnum c)) "-"
                     (normalizeTerm value)))))))).
  destruct (normal_case _ _ (normalizeTerm_normal value)) as [E|E].
  - rewrite Eu, E. reflexivity.
  - rewrite (replace_runs_top " " eq_refl (fun c => negb (Js.is_alnum c)) "-" _ eq_refl);
      [| intros c Hc; now rewrite Hc | exact E].
    rewrite <- Eu.
    assert (Hn : normal_from "-" true (normalizeUseCase value) = true).
    { rewrite Eu. now apply (normal_subst " " eq_refl "-"). }
    rewrite (replace_runs_top "-" eq_refl (fun c => (Js.code c =? 45)%nat) "-" _ eq_refl
               alnum_not_hyphen Hn).
    rewrite subst_same.
    destruct (normal_first_alnum _ _ Hn) as (c & t & Ec & Hc).
    destruct (normal_last_alnum _ _ _ Hn) as (d & u & Ed & Hd).
    { rewrite Ec. discriminate. }
    rewrite Ec, (S1 c t Hc), <- Ec.
    rewrite Ed, (S1 d u Hd), <- Ed.
    now rewrite rev_involutive.
Qed.

(** X3.  The slug of a value is its hyphenated normal form cut at 80
    characters: at most 80 characters of [a-z0-9] and single hyphens, never
    starting with a hyphen, and empty exactly when the value has no letter
    or digit. *)
Theorem X3_toSafeSlug_shape (value : string) :
  toSafeSlug value = Js.slice_to 80 (normalizeUseCase value)
  /\ (String.length (toSafeSlug value) <= 80)%nat
  /\ loose_from "-" true (toSafeSlug value) = true
  /\ (toSafeSlug value = "" <-> normalizeTerm value = "").
Proof.
  rewrite toSafeSlug_normalizeUseCase.
  split; [reflexivity |]. split; [apply slice_to_length |].
  destruct (normalizeUseCase_subst value) as [Eu Hu].
  split.
  - destruct (normal_case _ _ Hu) as [E|E]; [now rewrite E |].
    apply slice_to_loose. now apply (normal_from_loose "-").
  - rewrite Eu. destruct (normalizeTerm value) as [|c t]; [tauto |].
    simpl. split; discriminate.
Qed.

(** * Provider resolution: canonical names and aliases *)

Lemma scan_catalog_in (normalized : string) (catalog : list AliasCandidate)
    (c : AliasCandidate) :
  scan_catalog normalized catalog = Some c -> In c catalog.
Proof.
  induction catalog as [|d catalog IH]; simpl; [discriminate |].
  destruct (String.length (alias d) <? MIN_PROVIDER_INPUT_LENGTH)%nat;
    [intros H; right; exact (IH H) |].
  destruct (candidate_accepts normalized d).
  - intros [= ->]. now left.
  - intros H. right. exact (IH H).
Qed.

Lemma resolveProvider_canonical (input p : string) :
  resolveProvider input = Some p -> In p ALL_PROVIDERS.
Proof.
  unfold resolveProvider, resolveProviderMatch.
  destruct (negb _ || _); [discriminate |].
  destruct (scan_catalog _ _) as [c|] eqn:E; [| discriminate].
  intros [= <-]. apply scan_catalog_in in E.
  pose proof catalog_providers_canonical as H.
  rewrite Forall_forall in H. exact (H c E).
Qed.

Lemma canonical_resolves (p : string) :
  In p ALL_PROVIDERS -> resolveProvider p = Some p.
Proof.
  intros Hp.
  assert (H : forallb (fun p => match resolveProvider p with
                                | Some q => q =? p
                                | None => false
                                end) ALL_PROVIDERS = true)
    by (vm_compute; reflexivity).
  rewrite forallb_forall in H. specialize (H p Hp).
  destruct (resolveProvider p) as [q|]; [| discriminate].
  apply eqb_iff in H. now subst.
Qed.

Lemma canonical_terms_injective (p q : string) :
  In p ALL_PROVIDERS -> In q ALL_PROVIDERS ->
  normalizeTerm p = normalizeTerm q -> p = q.
Proof.
  apply NoDup_map_injective. apply distinct_NoDup. vm_compute. reflexivity.
Qed.

Lemma makeProviderMatch_iff (input q : string) :
  In q ALL_PROVIDERS ->
  makeProviderMatch input q = true <-> resolveProvider input = Some q.
Proof.
  intros Hq. unfold makeProviderMatch.
  destruct (resolveProvider input) as [p|] eqn:E; [| split; discriminate].
  rewrite eqb_iff. split.
  - intros H. f_equal. apply canonical_terms_injective; auto.
    exact (resolveProvider_canonical input p E).
  - now intros [= ->].
Qed.

(** X4.  A provider that resolves is one of the eleven canonical names, and
    a canonical name resolves to itself: resolving twice gives what
    resolving once gave. *)
Theorem X4_resolveProvider_idempotent (input p : string) :
  resolveProvider input = Some p ->
  In p ALL_PROVIDERS /\ resolveProvider p = Some p.
Proof.
  intros H. apply resolveProvider_canonical in H.
  split; [exact H | now apply canonical_resolves].
Qed.

Lemma X4_resolveProvider_idempotent_witness :
  In "OpenAI" ALL_PROVIDERS /\ resolveProvider "OpenAI" = Some "OpenAI".
Proof.
  apply (X4_resolveProvider_idempotent "ChatGPT 4.1"). vm_compute. reflexivity.
Defined.

(** X5.  Every alias of the provider table, and the provider's own name,
    resolves to that provider: no alias is captured by a longer alias of
    another provider. *)
Theorem X5_provider_aliases_resolve (p : string) (aliases : list string) (a : string) :
  In (p, aliases) PROVIDER_ALIASES -> In a (p :: aliases) ->
  resolveProvider a = Some p.
Proof.
  intros He Ha.
  assert (H : forallb
                (fun e : string * list string =>
                   forallb (fun a => match resolveProvider a with
                                     | Some q => q =? fst e
                                     | None => false
                                     end) (fst e :: snd e))
                PROVIDER_ALIASES = true)
    by (vm_compute; reflexivity).
  rewrite forallb_forall in H. specialize (H _ He). cbn [fst snd] in H.
  rewrite forallb_forall in H. specialize (H a Ha).
  destruct (resolveProvider a) as [q|]; [| discriminate].
  apply eqb_iff in H. now subst.
Qed.

Lemma X5_provider_aliases_resolve_witness : resolveProvider "llama 4" = Some "Groq".
Proof.
  apply (X5_provider_aliases_resolve "Groq" ["groq"; "llama"; "llama 4"; "llama-4"; "llama4"]).
  - vm_compute. tauto.
  - vm_compute. tauto.
Defined.

(** X6.  [makeProviderMatch input provider] holds for a canonical provider
    name exactly when the input resolves to that provider; an input that
    does not resolve matches nothing. *)
Theorem X6_makeProviderMatch_resolves (input q : string) :
  In q ALL_PROVIDERS ->
  (makeProviderMatch input q = true <-> resolveProvider input = Some q)
  /\ (resolveProvider input = None -> makeProviderMatch input q = false).
Proof.
  intros Hq. split; [now apply makeProviderMatch_iff |].
  unfold makeProviderMatch. now intros ->.
Qed.

Lemma X6_makeProviderMatch_resolves_witness :
  (makeProviderMatch "eleven labs" "ElevenLabs" = true
   <-> resolveProvider "eleven labs" = Some "ElevenLabs")
  /\ (resolveProvider "eleven labs" = None
      -> makeProviderMatch "eleven labs" "ElevenLabs" = false).
Proof.
  apply (X6_makeProviderMatch_resolves "eleven labs" "ElevenLabs").
  vm_compute. tauto.
Defined.

(** * Language resolution and suggestions *)

Lemma unique_in (l : list string) (x : string) : In x (Js.unique l) <-> In x l.
Proof.
  induction l as [|y l IH]; simpl; [tauto |].
  rewrite filter_In, IH. split.
  - intros [H|[H _]]; auto.
  - intros [H|H]; [now left |].
    destruct (x =? y) eqn:E; [left; symmetry; now apply eqb_iff |].
    right. split; [exact H | reflexivity].
Qed.

Lemma unique_NoDup (l : list string) : NoDup (Js.unique l).
Proof.
  induction l as [|y l IH]; simpl; constructor.
  - rewrite filter_In. intros [_ H]. now rewrite String.eqb_refl in H.
  - now apply NoDup_filter.
Qed.

Lemma firstn_in {A : Type} (n : nat) (l : list A) (x : A) :
  In x (firstn n l) -> In x l.
Proof.
  intros H. rewrite <- (firstn_skipn n l). apply in_or_app. now left.
Qed.

Lemma firstn_NoDup {A : Type} (n : nat) (l : list A) : NoDup l -> NoDup (firstn n l).
Proof.
  intros H. rewrite <- (firstn_skipn n l) in H. now apply NoDup_app_remove_r in H.
Qed.

(** X7.  The language suggestions are at most five supported languages,
    each listed once.  For an input without a letter or digit they are the
    first five supported languages; otherwise every suggestion has a name
    that contains the normalized input or is contained in it, or an alias
    that contains it. *)
Theorem X7_language_suggestions (input : string) :
  (List.length (getLanguageSuggestions input) <= 5)%nat
  /\ NoDup (getLanguageSuggestions input)
  /\ (forall lang, In lang (getLanguageSuggestions input) -> In lang SUPPORTED_LANGUAGES)
  /\ (normalizeTerm input = "" ->
      getLanguageSuggestions input
      = ["English"; "Thai"; "Vietnamese"; "Indonesian"; "Filipino"])
  /\ (normalizeTerm input <> "" ->
      forall lang, In lang (getLanguageSuggestions input) ->
        Js.includes (normalizeTerm lang) (normalizeTerm input) = true
        \/ Js.includes (normalizeTerm input) (normalizeTerm lang) = true
        \/ exists aliases alias_,
             lookup LANGUAGE_ALIASES (normalizeTerm lang) = Some aliases
             /\ In alias_ aliases
             /\ Js.includes (normalizeTerm alias_) (normalizeTerm input) = true).
Proof.
  unfold getLanguageSuggestions.
  destruct (normalizeTerm input) as [|c t] eqn:E.
  - cbn [Js.truthy String.eqb negb].
    split; [vm_compute; lia |].
    split; [apply distinct_NoDup; vm_compute; reflexivity |].
    split; [intros lang; apply firstn_in |].
    split; [reflexivity | congruence].
  - cbn [Js.truthy String.eqb negb].
    split; [apply firstn_le_length |].
    split; [apply firstn_NoDup, unique_NoDup |].
    split; [| split; [discriminate |]].
    + intros lang H. apply firstn_in, unique_in, in_app_or in H.
      destruct H as [H|H]; now apply filter_In in H.
    + intros _ lang H. apply firstn_in, unique_in, in_app_or in H.
      destruct H as [H|H]; apply filter_In in H as [_ H].
      * apply orb_true_iff in H. tauto.
      * right. right. apply existsb_exists in H as (a & Ha & Hi).
        destruct (lookup LANGUAGE_ALIASES (normalizeTerm lang)) as [aliases|];
          [| contradiction].
        now exists aliases, a.
Qed.

Lemma X7_language_suggestions_witness :
  getLanguageSuggestions " ?! "
  = ["English"; "Thai"; "Vietnamese"; "Indonesian"; "Filipino"]
  /\ (Js.includes (normalizeTerm "Cantonese") (normalizeTerm "Canto") = true
      \/ Js.includes (normalizeTerm "Canto") (normalizeTerm "Cantonese") = true
      \/ exists aliases alias_,
           lookup LANGUAGE_ALIASES (normalizeTerm "Cantonese") = Some aliases
           /\ In alias_ aliases
           /\ Js.includes (normalizeTerm alias_) (normalizeTerm "Canto") = true).
Proof.
  split.
  - apply (X7_language_suggestions " ?! "). vm_compute. reflexivity.
  - apply (X7_language_suggestions "Canto").
    + vm_compute. discriminate.
    + vm_compute. tauto.
Defined.

(** X8.  A language that resolves resolves to itself again: the result of
    [resolveLanguage] is a fixed point of it. *)
Theorem X8_resolveLanguage_idempotent (input lang : string) :
  resolveLanguage input = Some lang -> resolveLanguage lang = Some lang.
Proof.
  intros H. apply supported_language_resolves.
  exact (resolveLanguage_supported input lang H).
Qed.

Lemma X8_resolveLanguage_idempotent_witness :
  resolveLanguage "Japanese" = Some "Japanese".
Proof.
  apply (X8_resolveLanguage_idempotent "nihongo"). vm_compute. reflexivity.
Defined.

(** * Use-case resolution *)

Lemma priority_keys_normal (key : string) (w : ScoreWeights.t) :
  lookup USE_CASE_PRIORITIES key = Some w -> normal "-" key = true.
Proof.
  intros H. apply lookup_in in H.
  assert (F : forallb (fun e : string * ScoreWeights.t => normal "-" (fst e))
                USE_CASE_PRIORITIES = true)
    by (vm_compute; reflexivity).
  rewrite forallb_forall in F. exact (F _ H).
Qed.

Lemma resolveUseCase_idempotent (use_case : string) :
  resolveUseCase (resolveUseCase use_case) = resolveUseCase use_case.
Proof.
  destruct (lookup USE_CASE_PRIORITIES (resolveUseCase use_case)) as [w|] eqn:E.
  - exact (priorities_keys_resolve _ w E).
  - rewrite (resolveUseCase_unresolved use_case E).
    rewrite resolveUseCase_of_normalized.
    exact (resolveUseCase_unresolved use_case E).
Qed.

Lemma resolveUseCase_normal (use_case : string) :
  normal "-" (resolveUseCase use_case) = true.
Proof.
  destruct (lookup USE_CASE_PRIORITIES (resolveUseCase use_case)) as [w|] eqn:E.
  - exact (priority_keys_normal _ w E).
  - rewrite (resolveUseCase_unresolved use_case E). apply normalizeUseCase_normal.
Qed.

(** X9.  The resolved use case is a hyphenated normal form, and resolving
    it again gives the same use case; it is unchanged when the input is
    normalized first. *)
Theorem X9_resolveUseCase_idempotent (use_case : string) :
  resolveUseCase (resolveUseCase use_case) = resolveUseCase use_case
  /\ normal "-" (resolveUseCase use_case) = true
  /\ resolveUseCase (normalizeTerm use_case) = resolveUseCase use_case.
Proof.
  split; [apply resolveUseCase_idempotent |].
  split; [apply resolveUseCase_normal |].
  unfold resolveUseCase, normalizeUseCase. now rewrite normalizeTerm_idempotent.
Qed.

(** X10.  A use case without a letter or digit (empty, blank or
    punctuation only) resolves to "customer-support" and is weighted
    60/90/60, not with the default weights: the empty normalized text is a
    prefix of the first alias of the table. *)
Theorem X10_blank_use_case (use_case : string) :
  normalizeTerm use_case = "" ->
  resolveUseCase use_case = "customer-support"
  /\ getUseCaseWeights use_case = Weights (weights 60 90 60)
  /\ getUseCaseWeights use_case <> Weights DEFAULT_WEIGHTS.
Proof.
  intros E.
  assert (R : resolveUseCase use_case = "customer-support").
  { unfold resolveUseCase, normalizeUseCase. rewrite E. vm_compute. reflexivity. }
  split; [exact R |].
  assert (W : getUseCaseWeights use_case = Weights (weights 60 90 60)).
  { unfold getUseCaseWeights. rewrite R. vm_compute. reflexivity. }
  split; [exact W |]. rewrite W. discriminate.
Qed.

Lemma X10_blank_use_case_witness :
  resolveUseCase " -- " = "customer-support"
  /\ getUseCaseWeights " -- " = Weights (weights 60 90 60)
  /\ getUseCaseWeights " -- " <> Weights DEFAULT_WEIGHTS.
Proof.
  apply (X10_blank_use_case " -- "). vm_compute. reflexivity.
Defined.

(** * The weights of an objective and the range of the scores *)

Lemma getUseCaseWeights_inherited (use_case : string) :
  getUseCaseWeights use_case = InheritedMember <->
  normalizeUseCase use_case = "constructor".
Proof.
  split.
  - unfold getUseCaseWeights, get_property.
    destruct (lookup USE_CASE_PRIORITIES (resolveUseCase use_case)) eqn:E;
      [discriminate |].
    destruct (existsb _ OBJECT_PROTOTYPE_KEYS) eqn:I; [| discriminate].
    intros _. rewrite <- (resolveUseCase_unresolved use_case E).
    apply inherited_normal; [apply resolveUseCase_normal | exact I].
  - intros E.
    assert (R : resolveUseCase use_case = "constructor").
    { unfold resolveUseCase. rewrite E. vm_compute. reflexivity. }
    unfold getUseCaseWeights. rewrite R. vm_compute. reflexivity.
Qed.

Lemma engine_weights_positive (w : ScoreWeights.t) :
  In w ENGINE_WEIGHTS -> positive_weights w = true.
Proof.
  intros H.
  assert (F : forallb positive_weights ENGINE_WEIGHTS = true) by (vm_compute; reflexivity).
  rewrite forallb_forall in F. exact (F w H).
Qed.

(** X11.  Whatever the objective and the use case, the weights the engine
    scores with are three positive numbers from its fixed list of weight
    triples; the one exception is the balanced objective with a use case
    whose normalized form is "constructor", for which the weights are a
    member inherited from the object prototype. *)
Theorem X11_objective_weights (optimize_for : Objective) (use_case : string) :
  (forall w, getObjectiveWeights optimize_for use_case = Weights w ->
             In w ENGINE_WEIGHTS /\ positive_weights w = true)
  /\ (getObjectiveWeights optimize_for use_case = InheritedMember <->
      optimize_for = optimize_balanced /\ normalizeUseCase use_case = "constructor").
Proof.
  split.
  - intros w H. apply objective_weights_listed in H.
    split; [exact H | now apply engine_weights_positive].
  - destruct optimize_for; cbn [getObjectiveWeights].
    + rewrite getUseCaseWeights_inherited. tauto.
    + split; [discriminate | intros [H _]; discriminate].
    + split; [discriminate | intros [H _]; discriminate].
    + split; [discriminate | intros [H _]; discriminate].
Qed.

Lemma X11_objective_weights_witness :
  (In (weights 80 60 70) ENGINE_WEIGHTS /\ positive_weights (weights 80 60 70) = true)
  /\ getObjectiveWeights optimize_balanced "Constructor!" = InheritedMember.
Proof.
  split.
  - apply (proj1 (X11_objective_weights optimize_balanced "collections")).
    vm_compute. reflexivity.
  - apply (proj2 (X11_objective_weights optimize_balanced "Constructor!")).
    vm_compute. tauto.
Defined.

Lemma catalog_scores_in_range (entry : BenchmarkEntry) (w : ScoreWeights.t) :
  In entry BENCHMARK_DATA -> In w ENGINE_WEIGHTS ->
  in_range (scoreBenchmark entry (Weights w)) = true.
Proof.
  intros He Hw.
  assert (F : forallb (fun w => forallb (fun e => in_range (scoreBenchmark e (Weights w)))
                                        BENCHMARK_DATA) ENGINE_WEIGHTS = true)
    by (vm_compute; reflexivity).
  rewrite forallb_forall in F. specialize (F w Hw).
  rewrite forallb_forall in F. exact (F entry He).
Qed.

(** X12.  Every row of the catalog, under every objective and use case,
    scores between 0 and 100, or NaN when the weights are the inherited
    member. *)
Theorem X12_catalog_scores (entry : BenchmarkEntry) (optimize_for : Objective)
    (use_case : string) :
  In entry BENCHMARK_DATA ->
  (getObjectiveWeights optimize_for use_case = InheritedMember
   /\ scoreBenchmark entry (getObjectiveWeights optimize_for use_case) = F64.NaN)
  \/ in_range (scoreBenchmark entry (getObjectiveWeights optimize_for use_case)) = true.
Proof.
  intros H.
  destruct (getObjectiveWeights optimize_for use_case) as [w|] eqn:E.
  - right. apply catalog_scores_in_range; [exact H |].
    exact (objective_weights_listed optimize_for use_case w E).
  - left. split; reflexivity.
Qed.

Lemma X12_catalog_scores_witness :
  (getObjectiveWeights optimize_cost "sales" = InheritedMember
   /\ scoreBenchmark (nth 1 BENCHMARK_DATA tied_row_a)
        (getObjectiveWeights optimize_cost "sales") = F64.NaN)
  \/ in_range (scoreBenchmark (nth 1 BENCHMARK_DATA tied_row_a)
                 (getObjectiveWeights optimize_cost "sales")) = true.
Proof.
  apply (X12_catalog_scores (nth 1 BENCHMARK_DATA tied_row_a) optimize_cost "sales").
  right. left. reflexivity.
Defined.

(** * Ranking without usable scores *)

Lemma sort_fixed {A : Type} (cmp : A -> A -> comparison) (l : list A) :
  (forall x y, In x l -> In y l -> cmp x y <> Gt) -> Js.sort cmp l = l.
Proof.
  induction l as [|x l IH]; intros H; [reflexivity |].
  simpl Js.sort. fold (Js.sort cmp l).
  rewrite IH by (intros a b Ha Hb; apply H; now right).
  destruct l as [|y l]; [reflexivity |]. simpl.
  destruct (cmp x y) eqn:E; try reflexivity.
  exfalso. apply (H x y); [now left | right; now left | exact E].
Qed.

(** X13.  Under the inherited member (the balanced objective with the use
    case "constructor") every score is NaN and the ranking leaves the rows
    in the order they were given. *)
Theorem X13_ranking_without_scores (entries : list BenchmarkEntry) :
  rankBenchmarks entries InheritedMember
  = map (fun entry => mkRanked entry F64.NaN) entries
  /\ map row (rankBenchmarks entries InheritedMember) = entries.
Proof.
  assert (E : rankBenchmarks entries InheritedMember
              = map (fun entry => mkRanked entry F64.NaN) entries).
  { unfold rankBenchmarks. cbn [scoreBenchmark]. apply sort_fixed.
    intros x y Hx Hy.
    apply in_map_iff in Hx as (a & <- & _). apply in_map_iff in Hy as (b & <- & _).
    unfold rank_compare. cbn [score]. discriminate. }
  split; [exact E |].
  rewrite E, map_map. cbn [row]. apply map_id.
Qed.

(** * Providers with models *)

Lemma trimStart_head (s : string) :
  Js.trimStart s = "" \/ exists c t, Js.trimStart s = String c t /\ Js.is_space c = false.
Proof.
  induction s as [|c s IH]; simpl; [now left |].
  destruct (Js.is_space c) eqn:E; [exact IH |]. right. now exists c, s.
Qed.

Lemma trimStart_idempotent (s : string) : Js.trimStart (Js.trimStart s) = Js.trimStart s.
Proof.
  destruct (trimStart_head s) as [->|(c & t & -> & E)]; [reflexivity |].
  simpl. now rewrite E.
Qed.

Lemma trimEnd_idempotent (s : string) : Js.trimEnd (Js.trimEnd s) = Js.trimEnd s.
Proof.
  unfold Js.trimEnd. now rewrite rev_involutive, trimStart_idempotent.
Qed.

Lemma trim_idempotent (s : string) : Js.trim (Js.trim s) = Js.trim s.
Proof.
  unfold Js.trim.
  destruct (trimStart_head s) as [->|(c & t & -> & E)]; [reflexivity |].
  assert (Ev : Js.trimEnd (String c t) = String c (Js.trimEnd t))
    by (rewrite trimEnd_cons; cbn [all_space]; now rewrite E).
  rewrite Ev. cbn [Js.trimStart]. rewrite E, <- Ev. apply trimEnd_idempotent.
Qed.

Lemma truthy_iff (s : string) : Js.truthy s = true <-> s <> "".
Proof.
  unfold Js.truthy. rewrite negb_true_iff. apply String.eqb_neq.
Qed.

Lemma parsed_model_trimmed (input : string) (parsed : ParsedProviderModel) (m : string) :
  parseProviderWithModel input = Some parsed -> parsed_model parsed = Some m ->
  m <> "" /\ Js.trim m = m.
Proof.
  unfold parseProviderWithModel.
  destruct (negb (Js.truthy (normalizeProviderInput input))); [discriminate |].
  destruct (resolveProviderMatch input) as [resolved|]; [| discriminate].
  destruct (Js.truthy (Js.trim (Js.slice_from _ _))) eqn:Er; cbn [negb];
    intros [= <-]; cbn [parsed_model]; [| discriminate].
  destruct (Js.truthy (Js.trim (Js.join _ _))) eqn:Eo; intros [= <-].
  - split; [now apply truthy_iff | apply trim_idempotent].
  - split; [now apply truthy_iff | apply trim_idempotent].
Qed.

(** X14.  A model that [parseProviderWithModel] reports is never empty and
    carries no white space around it; a row then satisfies the parsed part
    exactly when its model matches that model, and satisfies a part without
    a model always. *)
Theorem X14_parsed_model (input : string) (parsed : ParsedProviderModel) :
  parseProviderWithModel input = Some parsed ->
  match parsed_model parsed with
  | Some m =>
      m <> "" /\ Js.trim m = m
      /\ forall entryModel, model_ok parsed entryModel = modelMatches entryModel m
  | None => forall entryModel, model_ok parsed entryModel = true
  end.
Proof.
  intros H. unfold model_ok.
  destruct (parsed_model parsed) as [m|] eqn:E; [| reflexivity].
  destruct (parsed_model_trimmed input parsed m H E) as [Hne Ht].
  split; [exact Hne |]. split; [exact Ht |].
  intros entryModel. apply truthy_iff in Hne. now rewrite Hne.
Qed.

Lemma X14_parsed_model_witness :
  match parsed_model (mkParsed "OpenAI" (Some "GPT-4.1")) with
  | Some m =>
      m <> "" /\ Js.trim m = m
      /\ forall entryModel,
           model_ok (mkParsed "OpenAI" (Some "GPT-4.1")) entryModel
           = modelMatches entryModel m
  | None => forall entryModel, model_ok (mkParsed "OpenAI" (Some "GPT-4.1")) entryModel = true
  end.
Proof.
  apply (X14_parsed_model "  open ai   GPT-4.1 "). vm_compute. reflexivity.
Defined.

(** * Rows matching a combo *)

Lemma in_has (l : list string) (x : string) : has l x = true <-> In x l.
Proof.
  unfold has. rewrite existsb_exists. split.
  - intros (y & Hy & E). apply eqb_iff in E. now subst.
  - intros H. exists x. split; [exact H | apply String.eqb_refl].
Qed.

Lemma catalog_providers (entry : BenchmarkEntry) :
  In entry BENCHMARK_DATA ->
  In (stt entry) ALL_PROVIDERS /\ In (llm entry) ALL_PROVIDERS
  /\ In (tts entry) ALL_PROVIDERS.
Proof.
  intros H.
  assert (F : forallb (fun e => has ALL_PROVIDERS (stt e) && has ALL_PROVIDERS (llm e)
                               && has ALL_PROVIDERS (tts e))
                BENCHMARK_DATA = true)
    by (vm_compute; reflexivity).
  rewrite forallb_forall in F. specialize (F _ H).
  rewrite !andb_true_iff, !in_has in F. tauto.
Qed.

Lemma makeProviderMatch_canonical (p q : string) :
  In p ALL_PROVIDERS -> In q ALL_PROVIDERS ->
  makeProviderMatch p q = true <-> q = p.
Proof.
  intros Hp Hq. rewrite (makeProviderMatch_iff p q Hq), (canonical_resolves p Hp).
  split; [now intros [= ->] | now intros ->].
Qed.

Lemma parseProviderWithModel_canonical (input : string) (parsed : ParsedProviderModel) :
  parseProviderWithModel input = Some parsed ->
  In (parsed_provider parsed) ALL_PROVIDERS.
Proof.
  intros H. apply parseProviderWithModel_provider in H.
  exact (resolveProvider_canonical _ _ H).
Qed.

Lemma parseComboInput_canonical (desc : string) (parsed : ParsedCombo) :
  parseComboInput desc = Some parsed ->
  In (parsed_provider (combo_stt parsed)) ALL_PROVIDERS
  /\ In (parsed_provider (combo_llm parsed)) ALL_PROVIDERS
  /\ In (parsed_provider (combo_tts parsed)) ALL_PROVIDERS.
Proof.
  unfold parseComboInput.
  destruct (combo_parts desc) as [|a [|b [|c [|d rest]]]]; try discriminate.
  destruct (parseProviderWithModel a) as [pa|] eqn:Ea; [| discriminate].
  destruct (parseProviderWithModel b) as [pb|] eqn:Eb; [| discriminate].
  destruct (parseProviderWithModel c) as [pc|] eqn:Ec; [| discriminate].
  intros [= <-]. cbn [combo_stt combo_llm combo_tts].
  split; [| split]; eapply parseProviderWithModel_canonical; eassumption.
Qed.

Lemma combo_row_matches (parsed : ParsedCombo) (entry : BenchmarkEntry) :
  In (parsed_provider (combo_stt parsed)) ALL_PROVIDERS ->
  In (parsed_provider (combo_llm parsed)) ALL_PROVIDERS ->
  In (parsed_provider (combo_tts parsed)) ALL_PROVIDERS ->
  In entry BENCHMARK_DATA ->
  makeProviderMatch (parsed_provider (combo_stt parsed)) (stt entry)
  && model_ok (combo_stt parsed) (sttModel entry)
  && makeProviderMatch (parsed_provider (combo_llm parsed)) (llm entry)
  && model_ok (combo_llm parsed) (llmModel entry)
  && makeProviderMatch (parsed_provider (combo_tts parsed)) (tts entry)
  && model_ok (combo_tts parsed) (ttsModel entry) = true
  <-> (stt entry = parsed_provider (combo_stt parsed)
       /\ model_ok (combo_stt parsed) (sttModel entry) = true)
      /\ (llm entry = parsed_provider (combo_llm parsed)
          /\ model_ok (combo_llm parsed) (llmModel entry) = true)
      /\ (tts entry = parsed_provider (combo_tts parsed)
          /\ model_ok (combo_tts parsed) (ttsModel entry) = true).
Proof.
  intros Hs Hl Ht He. destruct (catalog_providers entry He) as (Cs & Cl & Ct).
  rewrite !andb_true_iff.
  rewrite (makeProviderMatch_canonical _ _ Hs Cs),
          (makeProviderMatch_canonical _ _ Hl Cl),
          (makeProviderMatch_canonical _ _ Ht Ct).
  tauto.
Qed.

(** The rows that [parseComboMatches] keeps. *)
Lemma combo_matches_rows (combo : string) (parsed : ParsedCombo)
    (entries : list BenchmarkEntry) :
  parseComboMatches combo = Some (parsed, entries) ->
  parseComboInput combo = Some parsed
  /\ (exists keep, entries = filter keep BENCHMARK_DATA)
  /\ forall entry,
       In entry entries <->
       In entry BENCHMARK_DATA
       /\ (stt entry = parsed_provider (combo_stt parsed)
           /\ model_ok (combo_stt parsed) (sttModel entry) = true)
       /\ (llm entry = parsed_provider (combo_llm parsed)
           /\ model_ok (combo_llm parsed) (llmModel entry) = true)
       /\ (tts entry = parsed_provider (combo_tts parsed)
           /\ model_ok (combo_tts parsed) (ttsModel entry) = true).
Proof.
  unfold parseComboMatches.
  destruct (parseComboInput combo) as [p|] eqn:E; [| discriminate].
  intros H.
  pose proof (f_equal (fun o : option (ParsedCombo * list BenchmarkEntry) =>
                         match o with Some (c, _) => c | None => p end) H) as Hp.
  pose proof (f_equal (fun o : option (ParsedCombo * list BenchmarkEntry) =>
                         match o with Some (_, l) => l | None => [] end) H) as He.
  cbv beta iota in Hp, He. clear H. subst parsed.
  split; [reflexivity |].
  split; [eexists; symmetry; exact He |].
  destruct (parseComboInput_canonical combo p E) as (Hs & Hl & Ht).
  intros entry. rewrite <- He, filter_In. split.
  - intros [Hin H]. split; [exact Hin |].
    exact (proj1 (combo_row_matches p entry Hs Hl Ht Hin) H).
  - intros [Hin H]. split; [exact Hin |].
    exact (proj2 (combo_row_matches p entry Hs Hl Ht Hin) H).
Qed.

(** X15.  The rows that match a combo are the rows of the catalog, in
    catalog order, whose STT, LLM and TTS providers are the three providers
    the combo resolved to and whose models pass the models the combo
    names. *)
Theorem X15_combo_matches (combo : string) (parsed : ParsedCombo)
    (entries : list BenchmarkEntry) :
  parseComboMatches combo = Some (parsed, entries) ->
  parseComboInput combo = Some parsed
  /\ (exists keep, entries = filter keep BENCHMARK_DATA)
  /\ forall entry,
       In entry entries <->
       In entry BENCHMARK_DATA
       /\ (stt entry = parsed_provider (combo_stt parsed)
           /\ model_ok (combo_stt parsed) (sttModel entry) = true)
       /\ (llm entry = parsed_provider (combo_llm parsed)
           /\ model_ok (combo_llm parsed) (llmModel entry) = true)
       /\ (tts entry = parsed_provider (combo_tts parsed)
           /\ model_ok (combo_tts parsed) (ttsModel entry) = true).
Proof.
  unfold parseComboMatches.
  destruct (parseComboInput combo) as [p|] eqn:E; [| discriminate].
  intros H.
  pose proof (f_equal (fun o : option (ParsedCombo * list BenchmarkEntry) =>
                         match o with Some (c, _) => c | None => p end) H) as Hp.
  pose proof (f_equal (fun o : option (ParsedCombo * list BenchmarkEntry) =>
                         match o with Some (_, l) => l | None => [] end) H) as He.
  cbv beta iota in Hp, He. clear H. subst parsed.
  split; [reflexivity |].
  split; [eexists; symmetry; exact He |].
  destruct (parseComboInput_canonical combo p E) as (Hs & Hl & Ht).
  intros entry. rewrite <- He, filter_In. split.
  - intros [Hin H]. split; [exact Hin |].
    exact (proj1 (combo_row_matches p entry Hs Hl Ht Hin) H).
  - intros [Hin H]. split; [exact Hin |].
    exact (proj2 (combo_row_matches p entry Hs Hl Ht Hin) H).
Qed.

Lemma X15_combo_matches_witness :
  let parsed := mkCombo (mkParsed "Deepgram" (Some "Nova 3")) (mkParsed "Groq" None)
                  (mkParsed "Cartesia" None) in
  let entries := firstn 1 (skipn 1 BENCHMARK_DATA) in
  parseComboMatches "deepgram Nova 3, Llama -> cartesia" = Some (parsed, entries)
  /\ parseComboInput "deepgram Nova 3, Llama -> cartesia" = Some parsed
  /\ forall entry,
       In entry entries ->
       stt entry = "Deepgram" /\ llm entry = "Groq" /\ tts entry = "Cartesia".
Proof.
  intros parsed entries.
  assert (H : parseComboMatches "deepgram Nova 3, Llama -> cartesia"
              = Some (parsed, entries)) by (vm_compute; reflexivity).
  split; [exact H |].
  destruct (X15_combo_matches _ _ _ H) as (A & _ & C).
  split; [exact A |].
  intros entry Hin. destruct (proj1 (C entry) Hin) as (_ & (S & _) & (L & _) & (T & _)).
  split; [exact S |]. split; [exact L | exact T].
Defined.

(** * Rows of the benchmark listing *)

Lemma leb_fcmp (x y : F64.number) :
  F64.is_nan x = false -> F64.is_nan y = false ->
  F64.leb x y = true <-> fcmp x y <> Gt.
Proof.
  intros Hx Hy. unfold F64.leb, SFleb, fcmp. fold (F64.compare x y).
  rewrite compare_key by assumption.
  destruct (lex3 _ _); split; congruence.
Qed.

Lemma filter_filter {A : Type} (f g : A -> bool) (l : list A) :
  filter g (filter f l) = filter (fun x => f x && g x) l.
Proof.
  induction l as [|x l IH]; [reflexivity |].
  cbn [filter]. destruct (f x); cbn [filter andb]; [| exact IH].
  destruct (g x); now rewrite IH.
Qed.

Lemma catalog_measures_ordered (entry : BenchmarkEntry) :
  In entry BENCHMARK_DATA ->
  ordered (latencyMs entry) = true /\ ordered (quality entry) = true
  /\ ordered (costPerMin entry) = true.
Proof.
  intros H.
  assert (F : forallb measures_ordered BENCHMARK_DATA = true) by (vm_compute; reflexivity).
  rewrite forallb_forall in F. specialize (F _ H).
  unfold measures_ordered in F. rewrite !andb_true_iff in F. tauto.
Qed.

Lemma catalog_supports (lang : string) (entry : BenchmarkEntry) :
  In lang SUPPORTED_LANGUAGES -> In entry BENCHMARK_DATA ->
  supports_language lang entry = has (languages entry) lang.
Proof.
  intros Hl He.
  assert (F : forallb (fun e =>
                forallb (fun l => Bool.eqb (supports_language l e) (has (languages e) l))
                        SUPPORTED_LANGUAGES)
                BENCHMARK_DATA = true) by (vm_compute; reflexivity).
  rewrite forallb_forall in F. specialize (F _ He).
  rewrite forallb_forall in F. specialize (F _ Hl).
  now apply Bool.eqb_prop in F.
Qed.

Lemma provider_truthy (p : string) : In p ALL_PROVIDERS -> Js.truthy p = true.
Proof.
  intros H.
  assert (F : forallb Js.truthy ALL_PROVIDERS = true) by (vm_compute; reflexivity).
  rewrite forallb_forall in F. now apply F.
Qed.

Lemma outcome_format {O : Type} (format : ToolOutputFormat) (computed : O) :
  outcome (formatToolResponse format computed) = computed.
Proof. destruct format; reflexivity. Qed.

Lemma returns_inj {A : Type} (a b : A) : Returns a = Returns b -> a = b.
Proof. intros H. now injection H. Qed.

(** The rows a measure sorts are in order of that measure, its first row is
    least, and rows that tie keep their order. *)
Section SortedByMeasure.

Variable key : BenchmarkEntry -> F64.number.
Variable rows : list BenchmarkEntry.
Hypothesis key_ordered : forall r, In r rows -> ordered (key r) = true.

Lemma sort_by_measure :
  StronglySorted (fun a b => F64.leb (key a) (key b) = true)
    (Js.sort (fun a b => sign (F64.sub (key a) (key b))) rows).
Proof.
  set (cmp := fun a b => sign (F64.sub (key a) (key b))).
  assert (C : forall a b, In a rows -> In b rows -> cmp a b = fcmp (key a) (key b)).
  { intros a b Ha Hb. apply sub_sign; apply ordered_well_formed; auto. }
  assert (N : forall a, In a rows -> F64.is_nan (key a) = false).
  { intros a Ha. apply ordered_nan. auto. }
  eapply StronglySorted_impl_in;
    [| apply (sort_sorted cmp (fun r => In r rows))].
  - intros a b Ha Hb H. apply sort_in in Ha, Hb.
    apply leb_fcmp; auto. rewrite <- C; auto.
  - intros a b Ha Hb. rewrite !C by assumption.
    intros E. rewrite (fcmp_antisym (key a) (key b)), E. discriminate.
  - intros a b d Ha Hb Hd. rewrite !C by assumption.
    apply fcmp_trans; auto.
  - rewrite Forall_forall. auto.
Qed.

Lemma sort_by_measure_stable (tied : BenchmarkEntry -> bool) :
  (forall a b, In a rows -> In b rows -> tied a = true -> tied b = true ->
               F64.eqb (key a) (key b) = true) ->
  filter tied (Js.sort (fun a b => sign (F64.sub (key a) (key b))) rows)
  = filter tied rows.
Proof.
  intros T. apply sort_stable. intros a b Ha Hb Ta Tb.
  rewrite sub_sign by (apply ordered_well_formed; auto).
  pose proof (T a b Ha Hb Ta Tb) as E.
  apply eqb_fcmp in E; try (apply ordered_nan; auto).
  rewrite E. discriminate.
Qed.

Lemma sort_by_measure_desc :
  StronglySorted (fun a b => F64.leb (key b) (key a) = true)
    (Js.sort (fun a b => sign (F64.sub (key b) (key a))) rows).
Proof.
  set (cmp := fun a b => sign (F64.sub (key b) (key a))).
  assert (C : forall a b, In a rows -> In b rows -> cmp a b = fcmp (key b) (key a)).
  { intros a b Ha Hb. apply sub_sign; apply ordered_well_formed; auto. }
  assert (N : forall a, In a rows -> F64.is_nan (key a) = false).
  { intros a Ha. apply ordered_nan. auto. }
  eapply StronglySorted_impl_in;
    [| apply (sort_sorted cmp (fun r => In r rows))].
  - intros a b Ha Hb H. apply sort_in in Ha, Hb.
    apply leb_fcmp; auto. rewrite <- C; auto.
  - intros a b Ha Hb. rewrite !C by assumption.
    intros E. rewrite (fcmp_antisym (key b) (key a)), E. discriminate.
  - intros a b d Ha Hb Hd. rewrite !C by assumption.
    intros H1 H2. apply (fcmp_trans (key d) (key b) (key a)); auto.
  - rewrite Forall_forall. auto.
Qed.

Lemma sort_by_measure_desc_stable (tied : BenchmarkEntry -> bool) :
  (forall a b, In a rows -> In b rows -> tied a = true -> tied b = true ->
               F64.eqb (key a) (key b) = true) ->
  filter tied (Js.sort (fun a b => sign (F64.sub (key b) (key a))) rows)
  = filter tied rows.
Proof.
  intros T. apply sort_stable. intros a b Ha Hb Ta Tb.
  rewrite sub_sign by (apply ordered_well_formed; auto).
  pose proof (T b a Hb Ha Tb Ta) as E.
  apply eqb_fcmp in E; try (apply ordered_nan; auto).
  rewrite E. discriminate.
Qed.

End SortedByMeasure.

Lemma sorted_head_least {A : Type} (R : A -> A -> Prop) (l : list A) (x : A) :
  (forall a, In a l -> R a a) -> StronglySorted R l -> nth_error l 0 = Some x ->
  In x l /\ forall y, In y l -> R x y.
Proof.
  intros Hrefl Hs E. destruct l as [|h t]; [discriminate |].
  injection E as ->. split; [now left |].
  intros y [<-|Hy]; [apply Hrefl; now left |].
  apply StronglySorted_inv in Hs as [_ Hall].
  rewrite Forall_forall in Hall. now apply Hall.
Qed.

Lemma leb_refl (x : F64.number) : F64.is_nan x = false -> F64.leb x x = true.
Proof.
  intros N. apply leb_fcmp; auto.
  pose proof (fcmp_antisym x x) as H. destruct (fcmp x x); discriminate.
Qed.

Lemma makeProviderMatch_eqb (p q : string) :
  In p ALL_PROVIDERS -> In q ALL_PROVIDERS -> makeProviderMatch p q = (q =? p).
Proof.
  intros Hp Hq. apply eq_true_iff_eq.
  rewrite (makeProviderMatch_canonical p q Hp Hq). symmetry. apply eqb_iff.
Qed.

Lemma filter_keeps_all {A : Type} (f : A -> bool) (l : list A) :
  (forall x, In x l -> f x = true) -> filter f l = l.
Proof.
  induction l as [|x l IH]; intros H; [reflexivity |].
  cbn [filter]. rewrite (H x (or_introl eq_refl)). f_equal.
  apply IH. intros y Hy. apply H. now right.
Qed.

(** The rows the two filters of the listing keep. *)
Lemma benchmark_filters (lang prov : option string) :
  (forall l, lang = Some l -> In l SUPPORTED_LANGUAGES) ->
  (forall p, prov = Some p -> In p ALL_PROVIDERS) ->
  match prov with
  | Some resolved =>
      filter (fun b => makeProviderMatch resolved (stt b)
                       || makeProviderMatch resolved (llm b)
                       || makeProviderMatch resolved (tts b))
             match lang with
             | Some resolved => filter (supports_language resolved) BENCHMARK_DATA
             | None => BENCHMARK_DATA
             end
  | None =>
      match lang with
      | Some resolved => filter (supports_language resolved) BENCHMARK_DATA
      | None => BENCHMARK_DATA
      end
  end
  = filter (passes_filters lang prov) BENCHMARK_DATA.
Proof.
  intros Hl Hp.
  assert (L : match lang with
              | Some resolved => filter (supports_language resolved) BENCHMARK_DATA
              | None => BENCHMARK_DATA
              end
              = filter (passes_filters lang None) BENCHMARK_DATA).
  { destruct lang as [l|].
    - apply filter_ext_in. intros e He. unfold passes_filters.
      rewrite andb_true_r. apply catalog_supports; auto.
    - symmetry. apply filter_keeps_all. reflexivity. }
  rewrite L. destruct prov as [p|]; [| reflexivity].
  rewrite filter_filter. apply filter_ext_in. intros e He.
  destruct (catalog_providers e He) as (Cs & Cl & Ct).
  specialize (Hp p eq_refl).
  rewrite !(makeProviderMatch_eqb p) by assumption.
  unfold passes_filters. now rewrite andb_true_r.
Qed.

Ltac rows_fields O lang :=
  let T := type of O in
  match T with
  | BenchmarkRows ?a ?b ?c ?d ?e ?f = BenchmarkRows ?a' ?b' ?c' ?d' ?e' ?f' =>
      assert (a = a' /\ b = b' /\ c = c' /\ d = d' /\ e = e' /\ f = f')
        by (repeat split;
            [ exact (f_equal (fun o => match o with
                                       | BenchmarkRows x _ _ _ _ _ => x | _ => a end) O)
            | exact (f_equal (fun o => match o with
                                       | BenchmarkRows _ x _ _ _ _ => x | _ => b end) O)
            | exact (f_equal (fun o => match o with
                                       | BenchmarkRows _ _ x _ _ _ => x | _ => c end) O)
            | exact (f_equal (fun o => match o with
                                       | BenchmarkRows _ _ _ x _ _ => x | _ => d end) O)
            | exact (f_equal (fun o => match o with
                                       | BenchmarkRows _ _ _ _ x _ => x | _ => e end) O)
            | exact (f_equal (fun o => match o with
                                       | BenchmarkRows _ _ _ _ _ x => x | _ => f end) O) ])
  end.

Lemma benchmark_rows_inv (localeCompare : string -> string -> comparison)
    (language provider_ : option string) (sort_by : SortKey)
    (output_format : ToolOutputFormat) (resp : ToolResponse BenchmarkOutcome)
    (lang prov : option string) (key : SortKey) (n : nat)
    (rows : list BenchmarkEntry) (summary : BenchmarkSummary) :
  voiceforge_benchmark localeCompare language provider_ sort_by output_format
  = Returns resp ->
  outcome resp = BenchmarkRows lang prov key n rows summary ->
  let results := filter (passes_filters lang prov) BENCHMARK_DATA in
  lang = match found language with Some l => resolveLanguage l | None => None end
  /\ prov = match found provider_ with Some p => resolveProvider p | None => None end
  /\ (found language = None <-> lang = None)
  /\ (found provider_ = None <-> prov = None)
  /\ key = sort_by
  /\ results <> []
  /\ rows = match sort_by with
            | sort_latency => Js.sort by_latency results
            | sort_cost => Js.sort by_cost results
            | sort_quality => Js.sort by_quality_desc results
            end
  /\ n = List.length rows
  /\ summary = mkSummary (nth_error (Js.sort by_latency rows) 0)
                         (nth_error (Js.sort by_quality_desc rows) 0)
                         (nth_error (Js.sort by_cost rows) 0).
Proof.
  intros H O results. unfold voiceforge_benchmark in H.
  remember (match found language with Some l => resolveLanguage l | None => None end)
    as rl eqn:Erl.
  remember (match found provider_ with Some p => resolveProvider p | None => None end)
    as rp eqn:Erp.
  assert (Hrl : forall l, rl = Some l -> In l SUPPORTED_LANGUAGES).
  { intros l E. rewrite Erl in E. destruct (found language); [| discriminate].
    exact (resolveLanguage_supported _ _ E). }
  assert (Hrp : forall p, rp = Some p -> In p ALL_PROVIDERS).
  { intros p E. rewrite Erp in E. destruct (found provider_); [| discriminate].
    exact (resolveProvider_canonical _ _ E). }
  assert (Frl : found rl = rl).
  { destruct rl as [l|]; [| reflexivity]. cbn [found].
    now rewrite (supported_truthy l (Hrl l eq_refl)). }
  assert (Frp : found rp = rp).
  { destruct rp as [p|]; [| reflexivity]. cbn [found].
    now rewrite (provider_truthy p (Hrp p eq_refl)). }
  rewrite Frl, Frp in H. clear Frl Frp.
  pose proof (benchmark_filters rl rp Hrl Hrp) as B.
  destruct (found language) as [l|] eqn:FL; destruct rl as [rl'|];
    try discriminate Erl;
    try (apply returns_inj in H; subst resp; rewrite outcome_format in O;
         discriminate O);
    (destruct (found provider_) as [p|] eqn:FP; destruct rp as [rp'|];
     try discriminate Erp;
     try (apply returns_inj in H; subst resp; rewrite outcome_format in O;
          discriminate O)).
  all: cbv beta iota in B; rewrite B in H; clear B.
  all: match type of H with
       | (if ?c then _ else _) = _ => destruct c eqn:Z
       end;
       apply returns_inj in H; subst resp; rewrite outcome_format in O;
       [discriminate O |].
  all: rows_fields O lang; clear O.
  all: match goal with
       | E : _ /\ _ |- _ => destruct E as (E1 & E2 & E3 & E4 & E5 & E6)
       end.
  all: subst lang prov key; subst results.
  all: split; [reflexivity |]; split; [reflexivity |].
  all: split; [split; discriminate || reflexivity |].
  all: split; [split; discriminate || reflexivity |].
  all: split; [reflexivity |].
  all: split; [intros E; rewrite E in Z; discriminate Z |].
  all: split; [symmetry; exact E5 |].
  all: split; [rewrite <- E5; symmetry; exact E4 |].
  all: rewrite <- E5; symmetry; exact E6.
Qed.

Lemma eqb_tied (t u v : F64.number) :
  F64.eqb t u = true -> F64.eqb t v = true -> F64.eqb u v = true.
Proof.
  intros Hu Hv.
  destruct (eqb_not_nan t u Hu) as [Nt Nu], (eqb_not_nan t v Hv) as [_ Nv].
  apply eqb_fcmp; auto. apply eqb_fcmp in Hu, Hv; auto.
  rewrite <- (fcmp_eq_left t u v Nt Nu Nv Hu). exact Hv.
Qed.

Lemma sorted_first (cmp : BenchmarkEntry -> BenchmarkEntry -> comparison)
    (rows : list BenchmarkEntry) :
  rows <> [] -> exists first, nth_error (Js.sort cmp rows) 0 = Some first.
Proof.
  intros Hne. pose proof (sort_length cmp rows) as L.
  destruct (Js.sort cmp rows) as [|first rest]; [| now exists first].
  destruct rows; [congruence | discriminate].
Qed.

(** X16.  When the benchmark listing returns rows, they are the rows of the
    catalog that list the resolved language (when a language is given) and
    have the resolved provider as STT, LLM or TTS provider (when a provider
    is given), each once, in the order of the sort key, rows that tie in
    catalog order; there is at least one row, the count is their number, and
    the summary names a row of least latency, one of best quality and one of
    least cost among them. *)
Theorem X16_benchmark_rows (localeCompare : string -> string -> comparison)
    (language provider_ : option string) (sort_by : SortKey)
    (output_format : ToolOutputFormat) (resp : ToolResponse BenchmarkOutcome)
    (lang prov : option string) (key : SortKey) (n : nat)
    (rows : list BenchmarkEntry) (summary : BenchmarkSummary) :
  voiceforge_benchmark localeCompare language provider_ sort_by output_format
  = Returns resp ->
  outcome resp = BenchmarkRows lang prov key n rows summary ->
  lang = match found language with Some l => resolveLanguage l | None => None end
  /\ prov = match found provider_ with Some p => resolveProvider p | None => None end
  /\ (found language = None <-> lang = None)
  /\ (found provider_ = None <-> prov = None)
  /\ key = sort_by /\ n = List.length rows /\ rows <> []
  /\ Permutation rows (filter (passes_filters lang prov) BENCHMARK_DATA)
  /\ StronglySorted (fun a b => sorted_before sort_by a b = true) rows
  /\ (forall a, filter (sort_tie sort_by a) rows
                = filter (sort_tie sort_by a)
                         (filter (passes_filters lang prov) BENCHMARK_DATA))
  /\ exists f q c,
       summary = mkSummary (Some f) (Some q) (Some c)
       /\ In f rows /\ In q rows /\ In c rows
       /\ forall r, In r rows ->
            F64.leb (latencyMs f) (latencyMs r) = true
            /\ F64.leb (quality r) (quality q) = true
            /\ F64.leb (costPerMin c) (costPerMin r) = true.
Proof.
  intros H O.
  destruct (benchmark_rows_inv _ _ _ _ _ _ _ _ _ _ _ _ H O)
    as (El & Ep & Nl & Np & Ek & Hne & Er & En & Es).
  set (results := filter (passes_filters lang prov) BENCHMARK_DATA) in *.
  assert (Hres : forall r, In r results -> In r BENCHMARK_DATA).
  { intros r Hr. unfold results in Hr. now apply filter_In in Hr. }
  assert (Hperm : Permutation rows results).
  { rewrite Er. destruct sort_by; apply sort_perm. }
  assert (Hrows : forall r, In r rows -> In r BENCHMARK_DATA).
  { intros r Hr. apply Hres. exact (Permutation_in _ Hperm Hr). }
  assert (Hrne : rows <> []).
  { intros E. rewrite E in Hperm. apply Permutation_nil in Hperm. contradiction. }
  split; [exact El |]. split; [exact Ep |]. split; [exact Nl |]. split; [exact Np |].
  split; [exact Ek |]. split; [exact En |]. split; [exact Hrne |].
  split; [exact Hperm |].
  split.
  { rewrite Er. destruct sort_by; unfold sorted_before.
    - apply (sort_by_measure latencyMs results).
      intros r Hr. apply catalog_measures_ordered. auto.
    - apply (sort_by_measure_desc quality results).
      intros r Hr. apply catalog_measures_ordered. auto.
    - apply (sort_by_measure costPerMin results).
      intros r Hr. apply catalog_measures_ordered. auto. }
  split.
  { intros a. rewrite Er. destruct sort_by; unfold sort_tie.
    - apply (sort_by_measure_stable latencyMs results).
      + intros r Hr. apply catalog_measures_ordered. auto.
      + intros x y _ _. apply eqb_tied.
    - apply (sort_by_measure_desc_stable quality results).
      + intros r Hr. apply catalog_measures_ordered. auto.
      + intros x y _ _. apply eqb_tied.
    - apply (sort_by_measure_stable costPerMin results).
      + intros r Hr. apply catalog_measures_ordered. auto.
      + intros x y _ _. apply eqb_tied. }
  destruct (sorted_first by_latency rows Hrne) as (f & Ef).
  destruct (sorted_first by_quality_desc rows Hrne) as (q & Eq).
  destruct (sorted_first by_cost rows Hrne) as (c & Ec).
  exists f, q, c. rewrite Es, Ef, Eq, Ec. split; [reflexivity |].
  assert (Ol : forall r, In r rows -> ordered (latencyMs r) = true)
    by (intros r Hr; apply catalog_measures_ordered; auto).
  assert (Oq : forall r, In r rows -> ordered (quality r) = true)
    by (intros r Hr; apply catalog_measures_ordered; auto).
  assert (Oc : forall r, In r rows -> ordered (costPerMin r) = true)
    by (intros r Hr; apply catalog_measures_ordered; auto).
  destruct (sorted_head_least _ _ f
              (fun a Ha => leb_refl _ (ordered_nan _ (Ol a (proj1 (sort_in _ _ _) Ha))))
              (sort_by_measure latencyMs rows Ol) Ef) as (Hf & Lf).
  destruct (sorted_head_least _ _ q
              (fun a Ha => leb_refl _ (ordered_nan _ (Oq a (proj1 (sort_in _ _ _) Ha))))
              (sort_by_measure_desc quality rows Oq) Eq) as (Hq & Lq).
  destruct (sorted_head_least _ _ c
              (fun a Ha => leb_refl _ (ordered_nan _ (Oc a (proj1 (sort_in _ _ _) Ha))))
              (sort_by_measure costPerMin rows Oc) Ec) as (Hc & Lc).
  apply sort_in in Hf, Hq, Hc.
  split; [exact Hf |]. split; [exact Hq |]. split; [exact Hc |].
  intros r Hr. split; [| split].
  - apply Lf. now apply sort_in.
  - apply Lq. now apply sort_in.
  - apply Lc. now apply sort_in.
Qed.

Lemma X16_benchmark_rows_witness :
  let at_ := fun i => nth i BENCHMARK_DATA tied_row_a in
  let rows := [at_ 9%nat; at_ 1%nat; at_ 0%nat; at_ 10%nat] in
  Permutation rows (filter (passes_filters (Some "Thai") (Some "Cartesia")) BENCHMARK_DATA)
  /\ StronglySorted (fun a b => sorted_before sort_latency a b = true) rows
  /\ forall r, In r rows -> F64.leb (latencyMs (at_ 9%nat)) (latencyMs r) = true.
Proof.
  intros at_ rows.
  destruct (X16_benchmark_rows (fun _ _ => Eq) (Some "thai") (Some "cartesia")
              sort_latency json
              (mkResponse json
                 (BenchmarkRows (Some "Thai") (Some "Cartesia") sort_latency 4 rows
                    (mkSummary (Some (at_ 9%nat)) (Some (at_ 10%nat))
                       (Some (at_ 9%nat)))))
              (Some "Thai") (Some "Cartesia") sort_latency 4 rows
              (mkSummary (Some (at_ 9%nat)) (Some (at_ 10%nat)) (Some (at_ 9%nat)))
              ltac:(vm_compute; reflexivity) eq_refl)
    as (_ & _ & _ & _ & _ & _ & _ & P & S & _ & f & q & c & E & _ & _ & _ & L).
  split; [exact P |]. split; [exact S |].
  intros r Hr.
  assert (Ef : f = at_ 9%nat).
  { exact (f_equal (fun s => match fastest s with Some x => x | None => f end)
                   (eq_sym E)). }
  rewrite <- Ef. exact (proj1 (L r Hr)).
Defined.

(** * Rows of the comparison and of the recommendation *)

(** In the ranking of catalog rows under a weight triple of the engine, or
    under the inherited member, no row is ranked before a row that precedes
    it in the result. *)
Lemma ranking_in_order (entries : list BenchmarkEntry) (weights : WeightsValue)
    (pre post : list Ranked) (x y : Ranked) :
  (forall entry, In entry entries -> In entry BENCHMARK_DATA) ->
  (forall w, weights = Weights w -> In w ENGINE_WEIGHTS) ->
  rankBenchmarks entries weights = (pre ++ x :: post)%list ->
  y = x \/ In y post -> ~ ranks_before y x.
Proof.
  intros Hcat Hw E Hy.
  destruct weights as [w|].
  - specialize (Hw w eq_refl).
    assert (Hscored : Forall rankable
              (map (fun entry => mkRanked entry (scoreBenchmark entry (Weights w)))
                   entries)).
    { apply Forall_forall. intros r Hr. apply in_map_iff in Hr as (e & <- & He).
      apply catalog_rankable; auto. }
    assert (Hranked : forall r, In r (pre ++ x :: post)%list -> rankable r).
    { rewrite <- E. intros r Hr.
      apply (Permutation_in _ (rankBenchmarks_perm entries (Weights w))) in Hr.
      rewrite Forall_forall in Hscored. now apply Hscored. }
    assert (Px : rankable x) by (apply Hranked, in_or_app; right; now left).
    pose proof (rankBenchmarks_sorted entries (Weights w) Hscored) as Hs.
    rewrite E in Hs.
    destruct Hy as [->|Hy].
    + rewrite (ranks_before_iff x x Px Px). apply key_compare_refl.
    + assert (Py : rankable y) by (apply Hranked, in_or_app; right; now right).
      rewrite (ranks_before_iff y x Py Px).
      pose proof (sorted_after _ pre post x y Hs Hy) as H. cbv beta in H.
      destruct key_compare_preorder as (Ha & _ & _).
      rewrite (Ha x y). destruct (key_compare x y); cbn [CompOpp]; congruence.
  - assert (Hnan : forall r, In r (pre ++ x :: post)%list -> score r = F64.NaN).
    { rewrite <- E. intros r Hr. now apply rankBenchmarks_in in Hr as [_ Hr]. }
    assert (Ex : score x = F64.NaN) by (apply Hnan, in_or_app; right; now left).
    unfold ranks_before. rewrite Ex.
    assert (L : forall v, F64.ltb F64.NaN v = false) by reflexivity.
    assert (Q : forall v, F64.eqb v F64.NaN = false) by (now intros []).
    rewrite L, Q. intuition discriminate.
Qed.

Lemma default_weights_listed : In DEFAULT_WEIGHTS ENGINE_WEIGHTS.
Proof. left. reflexivity. Qed.

Lemma parseComboMatches_none (combo : string) :
  parseComboMatches combo = None <-> parseComboInput combo = None.
Proof.
  unfold parseComboMatches.
  destruct (parseComboInput combo); split; congruence.
Qed.

(** The first row of a ranking of catalog rows under the default weights:
    a row of the input before which no row of the input is ranked. *)
Lemma ranking_first (entries : list BenchmarkEntry) :
  (forall entry, In entry entries -> In entry BENCHMARK_DATA) ->
  entries <> [] ->
  exists best,
    nth_error (rankBenchmarks entries (Weights DEFAULT_WEIGHTS)) 0 = Some best
    /\ In (row best) entries
    /\ best = scored_with (Weights DEFAULT_WEIGHTS) (row best)
    /\ forall r, In r entries ->
         ~ ranks_before (scored_with (Weights DEFAULT_WEIGHTS) r) best.
Proof.
  intros Hcat Hne.
  pose proof (rankBenchmarks_length entries (Weights DEFAULT_WEIGHTS)) as L.
  destruct (rankBenchmarks entries (Weights DEFAULT_WEIGHTS)) as [|best rest] eqn:E.
  { destruct entries; [congruence | discriminate]. }
  exists best. split; [reflexivity |].
  assert (Hb : In best (rankBenchmarks entries (Weights DEFAULT_WEIGHTS)))
    by (rewrite E; now left).
  apply rankBenchmarks_in in Hb as [Hin Hscore].
  split; [exact Hin |]. split.
  { unfold scored_with. destruct best as [e s]. cbn [row score] in *. now rewrite Hscore. }
  intros r Hr.
  assert (Hr' : In (scored_with (Weights DEFAULT_WEIGHTS) r)
                   (rankBenchmarks entries (Weights DEFAULT_WEIGHTS))).
  { apply (Permutation_in _ (Permutation_sym (rankBenchmarks_perm entries _))).
    apply in_map_iff. exists r. split; [reflexivity | exact Hr]. }
  rewrite E in Hr'.
  apply (ranking_in_order entries (Weights DEFAULT_WEIGHTS) [] rest best); auto.
  - intros w [= <-]. apply default_weights_listed.
  - destruct Hr' as [->|Hr']; auto.
Qed.

Lemma length_zero_iff {A : Type} (l : list A) :
  (List.length l =? 0)%nat = false <-> l <> [].
Proof.
  destruct l; cbn [List.length Nat.eqb]; split; intros H; congruence.
Qed.

(** X17.  A comparison reports an unparseable combo exactly for the combos
    that do not parse, and no match when both parse and one of them selects
    no row of the catalog; the outcome "unresolved-combo" is never returned.
    Otherwise the two stacks compared are rows the combos select, before
    which no other selected row is ranked under the default weights; the
    winners compare the measures of these two rows, and the candidate
    counts and ambiguity flags are those of the selected rows. *)
Theorem X17_compare_rows (localeCompare : string -> string -> comparison)
    (combo_a combo_b : string) (output_format : ToolOutputFormat)
    (resp : ToolResponse CompareOutcome) :
  voiceforge_compare localeCompare combo_a combo_b output_format = Returns resp ->
  match outcome resp with
  | CompareUnparseable missing a b _ =>
      a = combo_a /\ b = combo_b /\ missing <> []
      /\ (In "A" missing <-> parseComboInput combo_a = None)
      /\ (In "B" missing <-> parseComboInput combo_b = None)
  | CompareNoMatch _ _ na nb =>
      exists pa ea pb eb,
        parseComboMatches combo_a = Some (pa, ea)
        /\ parseComboMatches combo_b = Some (pb, eb)
        /\ na = List.length ea /\ nb = List.length eb /\ (ea = [] \/ eb = [])
  | CompareUnresolved _ _ _ _ => False
  | CompareOk result =>
      exists pa ea pb eb a b,
        parseComboMatches combo_a = Some (pa, ea)
        /\ parseComboMatches combo_b = Some (pb, eb)
        /\ (In a ea /\ In a BENCHMARK_DATA /\ combo_selects pa a)
        /\ (In b eb /\ In b BENCHMARK_DATA /\ combo_selects pb b)
        /\ (forall r, In r ea ->
              ~ ranks_before (scored_with (Weights DEFAULT_WEIGHTS) r)
                             (scored_with (Weights DEFAULT_WEIGHTS) a))
        /\ (forall r, In r eb ->
              ~ ranks_before (scored_with (Weights DEFAULT_WEIGHTS) r)
                             (scored_with (Weights DEFAULT_WEIGHTS) b))
        /\ cmp_combo_a result = stack_arrow a /\ cmp_combo_b result = stack_arrow b
        /\ winner_latency result
           = (if F64.leb (latencyMs a) (latencyMs b) then "A" else "B")
        /\ winner_quality result
           = (if F64.leb (quality b) (quality a) then "A" else "B")
        /\ winner_cost result
           = (if F64.leb (costPerMin a) (costPerMin b) then "A" else "B")
        /\ candidates_a result = List.length ea
        /\ candidates_b result = List.length eb
        /\ ambiguity_a result = (1 <? List.length ea)%nat
        /\ ambiguity_b result = (1 <? List.length eb)%nat
  end.
Proof.
  intros H. unfold voiceforge_compare in H.
  destruct (parseComboMatches combo_a) as [[pa ea]|] eqn:MA;
    destruct (parseComboMatches combo_b) as [[pb eb]|] eqn:MB.
  2-4: apply returns_inj in H; subst resp; rewrite outcome_format; cbv iota;
       cbn [app]; split; [reflexivity |]; split; [reflexivity |];
       split; [discriminate |].
  - destruct (combo_matches_rows _ _ _ MA) as (_ & _ & RA).
    destruct (combo_matches_rows _ _ _ MB) as (_ & _ & RB).
    destruct (List.length ea =? 0)%nat eqn:ZA.
    { apply returns_inj in H. subst resp. rewrite outcome_format. cbv iota.
      exists pa, ea, pb, eb. repeat (split; [reflexivity |]).
      left. now apply length_zero_true. }
    destruct (List.length eb =? 0)%nat eqn:ZB.
    { apply returns_inj in H. subst resp. rewrite outcome_format. cbv iota.
      exists pa, ea, pb, eb. repeat (split; [reflexivity |]).
      right. now apply length_zero_true. }
    cbn [app List.length Nat.ltb Nat.leb] in H.
    apply length_zero_iff in ZA, ZB.
    destruct (ranking_first ea (fun e He => proj1 (proj1 (RA e) He)) ZA)
      as (ra & Ea & Ia & Sa & Ba).
    destruct (ranking_first eb (fun e He => proj1 (proj1 (RB e) He)) ZB)
      as (rb & Eb & Ib & Sb & Bb).
    rewrite Ea, Eb in H.
    apply returns_inj in H. subst resp. rewrite outcome_format. cbv iota.
    exists pa, ea, pb, eb, (row ra), (row rb).
    cbn [cmp_combo_a cmp_combo_b winner_latency winner_quality winner_cost
         candidates_a candidates_b ambiguity_a ambiguity_b].
    split; [reflexivity |]. split; [reflexivity |].
    split; [split; [exact Ia | exact (proj1 (RA _) Ia)] |].
    split; [split; [exact Ib | exact (proj1 (RB _) Ib)] |].
    split; [rewrite <- Sa; exact Ba |].
    split; [rewrite <- Sb; exact Bb |].
    repeat (split; [reflexivity |]). reflexivity.
  - split.
    + split; [intros [E|[]]; discriminate E |].
      intros E. apply parseComboMatches_none in E. congruence.
    + split; [intros _; now apply parseComboMatches_none | intros _; now left].
  - split.
    + split; [intros _; now apply parseComboMatches_none | intros _; now left].
    + split; [intros [E|[]]; discriminate E |].
      intros E. apply parseComboMatches_none in E. congruence.
  - split.
    + split; [intros _; now apply parseComboMatches_none | intros _; now left].
    + split; [intros _; now apply parseComboMatches_none | intros _; right; now left].
Qed.

Lemma X17_compare_rows_witness :
  let call := voiceforge_compare (fun _ _ => Eq) "Deepgram + OpenAI + Cartesia"
                "deepgram, llama, cartesia" json in
  exists resp result a b,
    call = Returns resp /\ outcome resp = CompareOk result
    /\ In a BENCHMARK_DATA /\ In b BENCHMARK_DATA
    /\ cmp_combo_a result = stack_arrow a /\ cmp_combo_b result = stack_arrow b
    /\ llm a = "OpenAI" /\ llm b = "Groq".
Proof.
  intros call.
  let v := eval vm_compute in call in
  match v with
  | Returns ?resp =>
      pose proof (X17_compare_rows (fun _ _ => Eq) "Deepgram + OpenAI + Cartesia"
                    "deepgram, llama, cartesia" json resp
                    ltac:(vm_compute; reflexivity)) as W;
      exists resp
  end.
  cbn [outcome] in W.
  destruct W as (pa & ea & pb & eb & a & b & MA & MB & (_ & Ia & Sa) & (_ & Ib & Sb)
                 & _ & _ & Ca & Cb & _).
  eexists. exists a, b.
  split; [vm_compute; reflexivity |]. split; [reflexivity |].
  split; [exact Ia |]. split; [exact Ib |].
  split; [exact Ca |]. split; [exact Cb |].
  assert (Pa : parsed_provider (combo_llm pa) = "OpenAI").
  { exact (f_equal (fun o => match o with
                             | Some (p, _) => parsed_provider (combo_llm p)
                             | None => ""
                             end)
                   (eq_trans (eq_sym MA) ltac:(vm_compute; reflexivity))). }
  assert (Pb : parsed_provider (combo_llm pb) = "Groq").
  { exact (f_equal (fun o => match o with
                             | Some (p, _) => parsed_provider (combo_llm p)
                             | None => ""
                             end)
                   (eq_trans (eq_sym MB) ltac:(vm_compute; reflexivity))). }
  destruct Sa as (_ & (La & _) & _), Sb as (_ & (Lb & _) & _).
  split; congruence.
Defined.

Lemma objective_weights_resolved (optimize_for : Objective) (use_case : string) :
  getObjectiveWeights optimize_for (resolveUseCase use_case)
  = getObjectiveWeights optimize_for use_case.
Proof.
  destruct optimize_for; try reflexivity.
  cbn [getObjectiveWeights]. unfold getUseCaseWeights.
  now rewrite resolveUseCase_idempotent.
Qed.

Lemma recommend_matching (lang : string) :
  In lang SUPPORTED_LANGUAGES ->
  filter (supports_language lang) BENCHMARK_DATA
  = filter (fun entry => has (languages entry) lang) BENCHMARK_DATA.
Proof.
  intros H. apply filter_ext_in. intros e He. now apply catalog_supports.
Qed.

(** X18.  The rows of a recommendation are rows of the catalog that list
    the resolved language, each with its score under the weights of the
    objective and the use case.  They are the first rows of the ranking of
    all such rows, as many as the clamped limit allows: no row, listed or
    left out, is ranked before a row that stands before it. *)
Theorem X18_recommend_rows (language use_case : string) (optimize_for : Objective)
    (max_results : SchemaNumber) (output_format : ToolOutputFormat)
    (resp : ToolResponse RecommendOutcome)
    (lang uc : string) (opt : Objective) (top : list Ranked) :
  voiceforge_recommend language use_case optimize_for max_results output_format
  = Returns resp ->
  outcome resp = RecommendRanked lang uc opt top ->
  let weights := getObjectiveWeights optimize_for use_case in
  let matching := filter (fun entry => has (languages entry) lang) BENCHMARK_DATA in
  resolveLanguage language = Some lang
  /\ uc = resolveUseCase use_case /\ opt = optimize_for
  /\ List.length top
     = Nat.min (Z.to_nat (clampMaxResults max_results)) (List.length matching)
  /\ (forall r, In r top ->
        In (row r) BENCHMARK_DATA /\ In lang (languages (row r))
        /\ r = scored_with weights (row r))
  /\ exists rest,
       Permutation (top ++ rest) (map (scored_with weights) matching)
       /\ forall pre x post,
            (top ++ rest)%list = (pre ++ x :: post)%list ->
            forall y, In y post -> ~ ranks_before y x.
Proof.
  intros H O weights matching. unfold voiceforge_recommend in H.
  destruct (found (resolveLanguage language)) as [resolved|] eqn:FL.
  2: { apply returns_inj in H. subst resp. discriminate O. }
  apply found_some in FL.
  pose proof (resolveLanguage_supported _ _ FL) as Hsup.
  rewrite (recommend_matching resolved Hsup), objective_weights_resolved in H.
  fold weights in H.
  destruct (List.length _ =? 0)%nat eqn:Z.
  { apply returns_inj in H. subst resp. discriminate O. }
  set (ranking := rankBenchmarks
                    (filter (fun entry => has (languages entry) resolved) BENCHMARK_DATA)
                    weights) in *.
  set (limit := Z.to_nat (clampMaxResults max_results)) in *.
  assert (R : outcome resp
              = RecommendRanked resolved (resolveUseCase use_case) optimize_for
                  (firstn limit ranking)).
  { destruct output_format; [destruct (nth_error _ 0); [| discriminate H] |];
      apply returns_inj in H; subst resp; reflexivity. }
  rewrite R in O. clear R H.
  assert (E1 : resolved = lang)
    by exact (f_equal (fun o => match o with
                                | RecommendRanked x _ _ _ => x | _ => lang end) O).
  assert (E2 : resolveUseCase use_case = uc)
    by exact (f_equal (fun o => match o with
                                | RecommendRanked _ x _ _ => x | _ => uc end) O).
  assert (E3 : optimize_for = opt)
    by exact (f_equal (fun o => match o with
                                | RecommendRanked _ _ x _ => x | _ => opt end) O).
  assert (E4 : firstn limit ranking = top)
    by exact (f_equal (fun o => match o with
                                | RecommendRanked _ _ _ x => x | _ => top end) O).
  clear O. subst resolved. fold matching in ranking, Z.
  split; [exact FL |]. split; [now symmetry |]. split; [now symmetry |].
  assert (Hcat : forall entry, In entry matching -> In entry BENCHMARK_DATA).
  { intros e He. unfold matching in He. now apply filter_In in He. }
  split.
  { rewrite <- E4, length_firstn. unfold ranking.
    now rewrite rankBenchmarks_length. }
  split.
  { intros r Hr. rewrite <- E4 in Hr. apply firstn_in in Hr.
    apply rankBenchmarks_in in Hr as [Hin Hs].
    unfold matching in Hin. apply filter_In in Hin as [Hc Hl].
    split; [exact Hc |]. split; [now apply in_has |].
    unfold scored_with. destruct r as [e s]. cbn [row score] in *. now rewrite Hs. }
  exists (skipn limit ranking). rewrite <- E4, firstn_skipn.
  split; [apply rankBenchmarks_perm |].
  intros pre x post E y Hy.
  apply (ranking_in_order matching weights pre post x y); auto.
  intros w Hw. exact (objective_weights_listed optimize_for use_case w Hw).
Qed.

Lemma X18_recommend_rows_witness :
  let call := voiceforge_recommend "thai" "customer support" optimize_balanced
                (Finite (2 # 1)) json in
  exists resp top,
    call = Returns resp
    /\ outcome resp = RecommendRanked "Thai" "customer-support" optimize_balanced top
    /\ List.length top = 2%nat
    /\ forall r, In r top -> In (row r) BENCHMARK_DATA /\ In "Thai" (languages (row r)).
Proof.
  intros call.
  let v := eval vm_compute in call in
  match v with
  | Returns (mkResponse _ (RecommendRanked _ _ _ ?top)) =>
      pose proof (X18_recommend_rows "thai" "customer support" optimize_balanced
                    (Finite (2 # 1)) json
                    (mkResponse json
                       (RecommendRanked "Thai" "customer-support" optimize_balanced top))
                    "Thai" "customer-support" optimize_balanced top
                    ltac:(vm_compute; reflexivity) eq_refl) as W;
      exists (mkResponse json
                (RecommendRanked "Thai" "customer-support" optimize_balanced top)), top
  end.
  destruct W as (_ & _ & _ & L & F & _).
  split; [vm_compute; reflexivity |]. split; [reflexivity |].
  split; [rewrite L; vm_compute; reflexivity |].
  intros r Hr. destruct (F r Hr) as (A & B & _). now split.
Defined.

(** * The row a validation matches *)

(** No two rows of the catalog have the same providers and, up to case, the
    same models. *)
Lemma catalog_stacks_distinct (a b : BenchmarkEntry) :
  In a BENCHMARK_DATA -> In b BENCHMARK_DATA ->
  stt a = stt b -> llm a = llm b -> tts a = tts b ->
  Js.toLowerCase (sttModel a) = Js.toLowerCase (sttModel b) ->
  Js.toLowerCase (llmModel a) = Js.toLowerCase (llmModel b) ->
  Js.toLowerCase (ttsModel a) = Js.toLowerCase (ttsModel b) ->
  a = b.
Proof.
  intros Ha Hb E1 E2 E3 E4 E5 E6.
  apply stack_key_injective; auto.
  assert (F : forallb (fun a =>
                forallb (fun b =>
                  negb ((stt a =? stt b) && (llm a =? llm b) && (tts a =? tts b)
                        && (Js.toLowerCase (sttModel a) =? Js.toLowerCase (sttModel b))
                        && (Js.toLowerCase (llmModel a) =? Js.toLowerCase (llmModel b))
                        && (Js.toLowerCase (ttsModel a) =? Js.toLowerCase (ttsModel b)))
                  || (stack_key a =? stack_key b))
                  BENCHMARK_DATA)
                BENCHMARK_DATA = true) by (vm_compute; reflexivity).
  rewrite forallb_forall in F. specialize (F a Ha).
  rewrite forallb_forall in F. specialize (F b Hb).
  rewrite E1, E2, E3, E4, E5, E6, !String.eqb_refl in F.
  cbn [andb negb orb] in F. now apply eqb_iff in F.
Qed.

Lemma catalog_NoDup : NoDup BENCHMARK_DATA.
Proof.
  apply (NoDup_map_inv stack_key), distinct_NoDup. vm_compute. reflexivity.
Qed.

Lemma all_equal_short {A : Type} (l : list A) :
  NoDup l -> (forall a b, In a l -> In b l -> a = b) -> (List.length l <= 1)%nat.
Proof.
  intros Hnd Heq. destruct l as [|x [|y l]]; cbn [List.length]; try lia.
  exfalso. inversion Hnd as [|? ? Hx _]; subst. apply Hx.
  rewrite (Heq x y); [now left | now left | right; now left].
Qed.

Lemma found_provider (input : string) :
  found (resolveProvider input) = resolveProvider input.
Proof.
  destruct (resolveProvider input) as [p|] eqn:E; [| reflexivity].
  cbn [found]. now rewrite (provider_truthy p (resolveProvider_canonical _ _ E)).
Qed.

(** X19.  A validation never throws.  When it reports a matched benchmark,
    the match is the one row of the catalog whose three providers are the
    providers the inputs resolve to and whose models are, up to case and
    surrounding white space, the models asked for: the number of matches
    reported is 1, and the two framework flags are the scaffold
    compatibility of that row. *)
Theorem X19_validate_match (localeCompare : string -> string -> comparison)
    (stt_provider stt_model llm_provider llm_model tts_provider tts_model : string)
    (framework : ValidateFramework) (output_format : ToolOutputFormat) :
  exists resp,
    voiceforge_validate localeCompare stt_provider stt_model llm_provider llm_model
      tts_provider tts_model framework output_format = Returns resp
    /\ forall entry n livekit_ok nextjs_ok requested warnings,
         outcome resp = ValidateOk entry n livekit_ok nextjs_ok requested warnings ->
         n = 1%nat /\ In entry BENCHMARK_DATA
         /\ resolveProvider stt_provider = Some (stt entry)
         /\ resolveProvider llm_provider = Some (llm entry)
         /\ resolveProvider tts_provider = Some (tts entry)
         /\ Js.toLowerCase (sttModel entry) = Js.toLowerCase (Js.trim stt_model)
         /\ Js.toLowerCase (llmModel entry) = Js.toLowerCase (Js.trim llm_model)
         /\ Js.toLowerCase (ttsModel entry) = Js.toLowerCase (Js.trim tts_model)
         /\ livekit_ok = isScaffoldCompatible entry livekit
         /\ nextjs_ok = isScaffoldCompatible entry nextjs
         /\ forall other,
              In other BENCHMARK_DATA ->
              stt other = stt entry -> llm other = llm entry -> tts other = tts entry ->
              Js.toLowerCase (sttModel other) = Js.toLowerCase (sttModel entry) ->
              Js.toLowerCase (llmModel other) = Js.toLowerCase (llmModel entry) ->
              Js.toLowerCase (ttsModel other) = Js.toLowerCase (ttsModel entry) ->
              other = entry.
Proof.
  unfold voiceforge_validate. rewrite !found_provider.
  destruct (resolveProvider stt_provider) as [p1|] eqn:R1.
  2: { eexists. split; [reflexivity |]. intros * O. rewrite outcome_format in O.
       discriminate O. }
  destruct (resolveProvider llm_provider) as [p2|] eqn:R2.
  2: { eexists. split; [reflexivity |]. intros * O. rewrite outcome_format in O.
       discriminate O. }
  destruct (resolveProvider tts_provider) as [p3|] eqn:R3.
  2: { eexists. split; [reflexivity |]. intros * O. rewrite outcome_format in O.
       discriminate O. }
  set (combo := normalized_combo p1 stt_model p2 llm_model p3 tts_model).
  cbv zeta.
  match goal with
  | |- context [(List.length (filter ?f BENCHMARK_DATA) =? 0)%nat] =>
      set (keep := f); set (matches := filter keep BENCHMARK_DATA)
  end.
  match goal with
  | |- context [match _ with Some response => Returns response | None => ?body end] =>
      set (rest := body)
  end.
  assert (Hp1 : In p1 ALL_PROVIDERS) by exact (resolveProvider_canonical _ _ R1).
  assert (Hp2 : In p2 ALL_PROVIDERS) by exact (resolveProvider_canonical _ _ R2).
  assert (Hp3 : In p3 ALL_PROVIDERS) by exact (resolveProvider_canonical _ _ R3).
  assert (Hkeep : forall e, In e matches ->
            In e BENCHMARK_DATA
            /\ (stt e = p1 /\ llm e = p2 /\ tts e = p3)
            /\ Js.toLowerCase (sttModel e) = Js.toLowerCase (Js.trim stt_model)
            /\ Js.toLowerCase (llmModel e) = Js.toLowerCase (Js.trim llm_model)
            /\ Js.toLowerCase (ttsModel e) = Js.toLowerCase (Js.trim tts_model)).
  { intros e He. unfold matches in He. apply filter_In in He as [Hin K].
    split; [exact Hin |].
    destruct (catalog_providers e Hin) as (Cs & Cl & Ct).
    unfold keep, combo in K. cbn [normalized_combo rq_stt_provider rq_stt_model
      rq_llm_provider rq_llm_model rq_tts_provider rq_tts_model] in K.
    rewrite !andb_true_iff, !eqb_iff in K.
    rewrite (makeProviderMatch_canonical p1 _ Hp1 Cs),
            (makeProviderMatch_canonical p2 _ Hp2 Cl),
            (makeProviderMatch_canonical p3 _ Hp3 Ct) in K.
    tauto. }
  assert (Hshort : (List.length matches <= 1)%nat).
  { apply all_equal_short; [apply NoDup_filter, catalog_NoDup |].
    intros a b Ha Hb.
    destruct (Hkeep a Ha) as (Ia & (A1 & A2 & A3) & A4 & A5 & A6).
    destruct (Hkeep b Hb) as (Ib & (B1 & B2 & B3) & B4 & B5 & B6).
    apply catalog_stacks_distinct; congruence. }
  match goal with
  | |- exists resp, _ = Returns resp /\ @?Q resp =>
      assert (Main : exists resp, rest = Returns resp /\ Q resp)
  end.
  { cbv beta. unfold rest.
    destruct (List.length matches =? 0)%nat eqn:Z.
    { eexists. split; [reflexivity |]. intros * O. rewrite outcome_format in O.
      discriminate O. }
    apply length_zero_iff in Z.
    pose proof (rankBenchmarks_length matches (getUseCaseWeights "customer-support"))
      as Hlen.
    destruct (rankBenchmarks matches (getUseCaseWeights "customer-support"))
      as [|top others] eqn:Er.
    { destruct matches; [congruence | discriminate]. }
    cbn [nth_error]. eexists. split; [reflexivity |].
    intros entry n livekit_ok nextjs_ok requested warnings O.
    rewrite outcome_format in O.
    assert (E1 : row top = entry)
      by exact (f_equal (fun o => match o with
                                  | ValidateOk x _ _ _ _ _ => x | _ => entry end) O).
    assert (E2 : List.length matches = n)
      by exact (f_equal (fun o => match o with
                                  | ValidateOk _ x _ _ _ _ => x | _ => n end) O).
    assert (E3 : isScaffoldCompatible (row top) livekit = livekit_ok)
      by exact (f_equal (fun o => match o with
                                  | ValidateOk _ _ x _ _ _ => x | _ => livekit_ok end) O).
    assert (E4 : isScaffoldCompatible (row top) nextjs = nextjs_ok)
      by exact (f_equal (fun o => match o with
                                  | ValidateOk _ _ _ x _ _ => x | _ => nextjs_ok end) O).
    clear O.
    assert (Hin : In (row top) matches).
    { apply (rankBenchmarks_in matches (getUseCaseWeights "customer-support")).
      rewrite Er. now left. }
    rewrite E1 in *.
    destruct (Hkeep entry Hin) as (Ie & (A1 & A2 & A3) & A4 & A5 & A6).
    split.
    { rewrite <- E2. destruct matches as [|x [|y l]]; cbn [List.length] in *;
        [congruence | reflexivity | lia]. }
    split; [exact Ie |].
    split; [now rewrite A1 |]. split; [now rewrite A2 |]. split; [now rewrite A3 |].
    split; [exact A4 |]. split; [exact A5 |]. split; [exact A6 |].
    split; [now symmetry |]. split; [now symmetry |].
    intros other Ho O1 O2 O3 O4 O5 O6.
    apply catalog_stacks_distinct; assumption. }
  destruct Main as (resp & Hresp & Hok).
  destruct (0 <? List.length (unknown_models combo))%nat;
    [destruct output_format |]; cbv iota.
  - exists resp. split; [exact Hresp | exact Hok].
  - eexists. split; [reflexivity |]. intros * O. cbn [formatToolResponse outcome] in O.
    discriminate O.
  - exists resp. split; [exact Hresp | exact Hok].
Qed.
